(** * hostel_eye: the decision and state layer of the surveillance system

    A shallow embedding of the Python sources

      - [src/tracking/person_tracker.py]   (module [PersonTracker])
      - [src/logging/activity_logger.py]   (module [ActivityLogger])
      - [src/recording/video_recorder.py]  (module [VideoRecorder])
      - [src/notifications/telegram_bot.py] and the callbacks of [main.py]
        (modules [TelegramBot] and [SecuritySystem])
      - [src/recognition/face_recognizer.py] (module [FaceRecognizer])
      - [process_frame] and the capture loop of [main.py] (module [Pipeline])

    Conventions of the embedding.

    - Python floats (bounding-box coordinates, [time.time()] readings and
      [datetime] differences in seconds) are exact rationals [Q]: rounding
      is not modelled.  The Euclidean distance the specification speaks of
      is taken over the reals, with their square root.
    - Every method that reads the clock takes the reading as an argument
      [now]; the reads made within one call are one and the same instant.
    - External effects (CSV rows, alerts, callbacks, HTTP replies, writer
      releases) are appended to an explicit trace, oldest first.
    - Python truthiness is written out: [None], the empty string, the empty
      list and the number zero are false. *)

From Stdlib Require Import QArith Qround Lqa ZArith Lia Ascii String.
From Stdlib Require Import Reals Qreals.
From Stdlib Require Lra.
From stdpp Require Import gmap strings list sorting.

(** ** Numbers and clock readings *)

(** A clock reading, in seconds. *)
Abbreviation Time := Q (only parsing).

(** [a < b] and [a > b] on rationals as booleans. *)
Definition Qltb (a b : Q) : bool := negb (Qle_bool b a).
Definition Qgtb (a b : Q) : bool := negb (Qle_bool a b).
(** [a >= b]. *)
Definition Qgeb (a b : Q) : bool := Qle_bool b a.

(** ** Shared data *)

(** A person bounding box [(x1, y1, x2, y2)], as [PersonDetector.detect]
    returns it. *)
Record BBox := mkBBox { bx1 : Q; by1 : Q; bx2 : Q; by2 : Q }.

(** A face location [(top, right, bottom, left)], as
    [FaceRecognizer.identify] returns it. *)
Record FaceLoc := mkFaceLoc { f_top : Z; f_right : Z; f_bottom : Z; f_left : Z }.

(** The result of [FaceRecognizer.identify] for one box: a list of
    [(name, face_location)] pairs. *)
Definition Faces := list (string * FaceLoc).

(** [src/config.py]: the defaults used below. *)
Module Config.
Definition bbox_move_threshold : Q := 50.
Definition recheck_interval : Q := 5.
Definition known_cooldown : Q := 300.
Definition unknown_cooldown : Q := 30.
Definition telegram_chat_id : string := "1527878179".
Definition known_faces_dir : string := "known_faces".
Definition intruders_dir : string := "intruders".
Definition output_dir : string := "recordings".
End Config.

(** A captured frame: opaque to this layer, identified by a number. *)
Definition Image := nat.

(** File names the system builds.  [strftime] has a resolution of one
    second: a stamp is the whole number of seconds of the reading. *)
Inductive Path :=
| IntruderSnapshot (dir : string) (stamp : Z)
    (* <dir>/<%Y-%m-%d>/<%H-%M-%S>.jpg *)
| RecordingFile (dir : string) (stamp : Z)
    (* <dir>/<%Y-%m-%d_%H-%M-%S>.mp4 *)
| KnownFaceFile (dir : string) (name : string)
    (* <dir>/<name>.jpg *)
| SnapFile (stamp : Z).
    (* snaps/<%Y-%m-%d_%H-%M-%S>.jpg *)

Definition stamp_of (now : Time) : Z := Qfloor now.

(** What [get_status] reports (the fields of the text of
    [SecuritySystem._get_status]). *)
Record StatusReport := mkStatus {
  st_frames : Z;
  st_face_checks : Z;
  st_known : nat;
  st_recording : bool;
  st_duration : Q
}.

(** The texts the system sends, one constructor per message template. *)
Inductive Message :=
| MsgSurveillanceStarted
| MsgSurveillanceStopped
| MsgStatus (active : bool) (extra : option StatusReport)
| MsgKnownFaces (faces : list string)
| MsgNoKnownFaces
| MsgAddUsage
| MsgSendPhotoFor (name : string)
| MsgRemoveUsage
| MsgRemoved (name : string)
| MsgNotFound (name : string)
| MsgRecordingStarted (file : Path)
| MsgAlreadyRecording
| MsgRecordingNotAvailable
| MsgRecordingStopped (file : Path)
| MsgNotRecordingWarning
| MsgWillContinue
| MsgNotRecording
| MsgRecordings (recs : list (string * Q))
| MsgNoRecordings
| MsgCurrentFrame
| MsgNoFrame
| MsgSnapNotAvailable
| MsgHelp
| MsgUnknownCommand
| MsgDownloadFailed
| MsgFaceAdded (name : string)
| MsgReminder (reminder_num : Z) (duration_min : Q)
| MsgAutoStopNotice
| MsgIntruderAlert (stamp : Z).

(** What an HTTP request made with [requests] comes to: an exception, or
    a response with its [ok] flag. *)
Inductive Http :=
| HttpRaised
| HttpResponse (ok : bool).

(** ** [src/notifications/telegram_bot.py]: the sending half

    [TelegramNotifier] is the name the source keeps for the same class
    (its last line); the methods below only read [self.enabled]. *)

Module TelegramNotifier.

(** A request the bot puts on the wire. *)
Inductive Call :=
| SendMessage (text : Message)
| SendPhoto (caption : Message) (image_path : Path).

(** [send_message]: nothing is sent when the bot is disabled; an
    exception of the request is swallowed and reported as [False]. *)
Definition send_message (enabled : bool) (text : Message) (post : Http)
    : bool * list Call :=
  if negb enabled then (false, [])
  else match post with
       | HttpRaised => (false, [SendMessage text])
       | HttpResponse _ => (true, [SendMessage text])
       end.

(** [_send_photo]: [None] stands for the exception the request raised. *)
Definition _send_photo (caption : Message) (image_path : Path) (post : Http)
    : option bool * list Call :=
  match post with
  | HttpRaised => (None, [SendPhoto caption image_path])
  | HttpResponse ok => (Some ok, [SendPhoto caption image_path])
  end.

(** [send_alert]: [image_exists] is [os.path.exists(image_path)]; the
    [try ... except Exception] turns an exception into [False]. *)
Definition send_alert (enabled : bool) (message : Message)
    (image_path : option Path) (image_exists : bool) (post : Http)
    : bool * list Call :=
  if negb enabled then (false, [])
  else match image_path with
       | Some p =>
           if image_exists then
             match _send_photo message p post with
             | (Some ok, calls) => (ok, calls)
             | (None, calls) => (false, calls)
             end
           else send_message enabled message post
       | None => send_message enabled message post
       end.

End TelegramNotifier.

(** ** Python string methods

    Texts are sequences of ASCII characters. *)

Module PyStr.

(** [str.isspace] on one ASCII character: tab, line feed, vertical tab,
    form feed, carriage return, the four separators 28-31, and space. *)
Definition is_space (a : ascii) : bool :=
  let n := nat_of_ascii a in
  ((9 <=? n) && (n <=? 13)) || ((28 <=? n) && (n <=? 32)).

Fixpoint drop_while (f : ascii -> bool) (l : list ascii) : list ascii :=
  match l with
  | [] => []
  | a :: rest => if f a then drop_while f rest else l
  end.

Fixpoint take_while (f : ascii -> bool) (l : list ascii) : list ascii :=
  match l with
  | [] => []
  | a :: rest => if f a then a :: take_while f rest else []
  end.

(** [s.strip()]. *)
Definition strip (s : string) : string :=
  string_of_list_ascii
    (rev (drop_while is_space (rev (drop_while is_space (list_ascii_of_string s))))).

(** [s.startswith(p)]. *)
Definition startswith (s p : string) : bool := String.prefix p s.

(** [s.split(maxsplit=1)]: the first word, and what follows the blanks
    after it when anything does. *)
Definition split1 (s : string) : list string :=
  let l := drop_while is_space (list_ascii_of_string s) in
  let word := take_while (fun a => negb (is_space a)) l in
  let rest := drop_while is_space (drop_while (fun a => negb (is_space a)) l) in
  match word, rest with
  | [], _ => []
  | _, [] => [string_of_list_ascii word]
  | _, _ => [string_of_list_ascii word; string_of_list_ascii rest]
  end.

(** The words of [l]; [cur] is the word being read, backwards. *)
Fixpoint words (cur : list ascii) (l : list ascii) : list string :=
  match l with
  | [] => match cur with [] => [] | _ => [string_of_list_ascii (rev cur)] end
  | a :: rest =>
      if is_space a then
        match cur with
        | [] => words [] rest
        | _ => string_of_list_ascii (rev cur) :: words [] rest
        end
      else words (a :: cur) rest
  end.

(** [s.split()]. *)
Definition split (s : string) : list string := words [] (list_ascii_of_string s).

Definition lower_ascii (a : ascii) : ascii :=
  let n := nat_of_ascii a in
  if (65 <=? n) && (n <=? 90) then ascii_of_nat (n + 32) else a.

(** [s.lower()]. *)
Definition lower (s : string) : string :=
  string_of_list_ascii (map lower_ascii (list_ascii_of_string s)).

(** [s.split("@")[0]]. *)
Definition before_at (s : string) : string :=
  string_of_list_ascii
    (take_while (fun a => negb (Ascii.eqb a "@")) (list_ascii_of_string s)).

(** [s.endswith(p)]. *)
Definition endswith (s p : string) : bool :=
  String.prefix (string_of_list_ascii (rev (list_ascii_of_string p)))
                (string_of_list_ascii (rev (list_ascii_of_string s))).

(** Truth of a string: non-empty. *)
Definition truthy (s : string) : bool := negb (String.eqb s "").

End PyStr.

(** ** [os.path] on POSIX paths *)

Module PyPath.

(** [p.rfind(c)] over the characters [l] that start at index [i];
    [found] is the last index seen so far, [-1] for none. *)
Fixpoint rfind_from (c : ascii) (l : list ascii) (i found : Z) : Z :=
  match l with
  | [] => found
  | a :: rest => rfind_from c rest (i + 1) (if Ascii.eqb a c then i else found)
  end.

Definition rfind (c : ascii) (l : list ascii) : Z := rfind_from c l 0 (-1).

(** [os.path.splitext(p)[0]]: [p] up to its last dot, when that dot
    comes after the last separator and some character between the two
    is not a dot (leading dots of the file name start no extension);
    [p] itself otherwise. *)
Definition splitext_root (p : string) : string :=
  let l := list_ascii_of_string p in
  let sepIndex := rfind "/" l in
  let dotIndex := rfind "." l in
  if (sepIndex <? dotIndex)%Z then
    if existsb (fun a => negb (Ascii.eqb a "."))
               (firstn (Z.to_nat (dotIndex - (sepIndex + 1)))
                       (skipn (Z.to_nat (sepIndex + 1)) l))
    then string_of_list_ascii (firstn (Z.to_nat dotIndex) l)
    else p
  else p.

End PyPath.

(** ** [src/recognition/face_recognizer.py] *)

Module FaceRecognizer.

(** [f.lower().endswith(('.jpg', '.jpeg', '.png'))]. *)
Definition is_image (f : string) : bool :=
  PyStr.endswith (PyStr.lower f) ".jpg" ||
  PyStr.endswith (PyStr.lower f) ".jpeg" ||
  PyStr.endswith (PyStr.lower f) ".png".

(** [_get_known_images]; [listing] is [os.listdir(self.known_dir)],
    [None] when the directory is missing. *)
Definition _get_known_images (listing : option (list string)) : list string :=
  match listing with
  | None => []
  | Some files => List.filter is_image files
  end.

(** The [for known_file in known_images] loop of [_match_face]:
    [verify] is the distance [DeepFace.verify] reports for a file, [None]
    when it raises; [best_distance] is [None] for [float('inf')]. *)
Fixpoint match_loop (tolerance : Q) (verify : string -> option Q)
    (known_images : list string) (best_match : string) (best_distance : option Q)
    : string * option Q :=
  match known_images with
  | [] => (best_match, best_distance)
  | known_file :: rest =>
      match verify known_file with
      | Some distance =>
          if Qltb distance tolerance &&
             match best_distance with
             | Some best => Qltb distance best
             | None => true
             end
          then match_loop tolerance verify rest
                 (PyPath.splitext_root known_file) (Some distance)
          else match_loop tolerance verify rest best_match best_distance
      | None => match_loop tolerance verify rest best_match best_distance
      end
  end.

(** [_match_face]; [face_empty] is [face_crop.size == 0]. *)
Definition _match_face (tolerance : Q) (known_images : list string)
    (face_empty : bool) (verify : string -> option Q) : string :=
  match known_images with
  | [] => "Unknown"
  | _ =>
      if face_empty then "Unknown"
      else fst (match_loop tolerance verify known_images "Unknown" None)
  end.

(** One entry of what [DeepFace.extract_faces] returns: [confidence] and
    the [facial_area] with its [x], [y], [w] and [h]. *)
Record FaceData := mkFace {
  confidence : Q;
  area_x : Z;
  area_y : Z;
  area_w : Z;
  area_h : Z
}.

(** [int(x)] on a float: towards zero. *)
Definition py_int (q : Q) : Z := Z.quot (Qnum q) (Zpos (Qden q)).

(** The [offset] of [identify]: the top-left corner of the crop. *)
Definition crop_offset (person_bbox : option BBox) : Z * Z :=
  match person_bbox with
  | Some box => (Z.max 0 (py_int (bx1 box)), Z.max 0 (py_int (by1 box)))
  | None => (0, 0)%Z
  end.

(** [identify].  [extract] is what [DeepFace.extract_faces] returns on
    the crop, [None] when it raises; [match_face] is [_match_face] on the
    crop and the region of a face. *)
Definition identify (person_bbox : option BBox) (extract : option (list FaceData))
    (match_face : FaceData -> string) : Faces :=
  match extract with
  | None => []
  | Some faces =>
      let offset := crop_offset person_bbox in
      map (fun face_data =>
             (match_face face_data,
              mkFaceLoc (area_y face_data + snd offset)
                        (area_x face_data + area_w face_data + fst offset)
                        (area_y face_data + area_h face_data + snd offset)
                        (area_x face_data + fst offset)))
          (List.filter (fun face_data => negb (Qltb (confidence face_data) (1 # 2)))
                       faces)
  end.

End FaceRecognizer.

(** ** [src/logging/activity_logger.py] *)

Module ActivityLogger.

(** A row of the CSV log: [timestamp, name, image_path]; the empty
    [image_path] of a known person is [None]. *)
Record Row := mkRow {
  row_timestamp : Z;
  row_name : string;
  row_image_path : option Path
}.

(** What [log_detection] does outside the object, in order. *)
Inductive Effect :=
| SaveIntruder (filepath : Path) (frame : Image)       (* cv2.imwrite *)
| Alert (message : Message) (image_path : Path)
        (calls : list TelegramNotifier.Call)           (* notifier.send_alert *)
| AppendRow (row : Row).                               (* csv writer.writerow *)

(** What the surroundings answer during one call. *)
Record Env := mkEnv {
  save_raises : bool;     (* [_save_intruder] raises (makedirs, imwrite) *)
  image_exists : bool;    (* the snapshot is on disk when the alert is sent *)
  alert_post : Http       (* the outcome of the alert's HTTP request *)
}.

(** [self.notifier]: [None] until [SecuritySystem] assigns its bot; of
    the bot only [enabled] matters here. *)
Record t := mk {
  last_seen : gmap string Time;
  intruders_dir : string;
  known_cooldown : Q;
  unknown_cooldown : Q;
  notifier : option bool
}.

Definition init : t :=
  {| last_seen := ∅;
     intruders_dir := Config.intruders_dir;
     known_cooldown := Config.known_cooldown;
     unknown_cooldown := Config.unknown_cooldown;
     notifier := None |}.

Definition set_last_seen (self : t) (name : string) (now : Time) : t :=
  {| last_seen := <[name := now]> (last_seen self);
     intruders_dir := intruders_dir self;
     known_cooldown := known_cooldown self;
     unknown_cooldown := unknown_cooldown self;
     notifier := notifier self |}.

Definition set_notifier (self : t) (n : option bool) : t :=
  {| last_seen := last_seen self;
     intruders_dir := intruders_dir self;
     known_cooldown := known_cooldown self;
     unknown_cooldown := unknown_cooldown self;
     notifier := n |}.

Definition _get_cooldown (self : t) (name : string) : Q :=
  if negb (String.eqb name "Unknown") then known_cooldown self
  else unknown_cooldown self.

Definition _should_log (self : t) (now : Time) (name : string) : bool :=
  match last_seen self !! name with
  | None => true
  | Some seen => Qgtb (now - seen)%Q (_get_cooldown self name)
  end.

Definition _save_intruder (self : t) (timestamp : Time) : Path :=
  IntruderSnapshot (intruders_dir self) (stamp_of timestamp).

(** The result of a call: the value returned, or an exception that left
    the method.  The one exception modelled is that of [_save_intruder];
    the prints and the append to the CSV file, which the source makes
    outside any [try] as well, are taken to succeed. *)
Inductive Outcome :=
| Returned (logged : bool)
| Raised.

Definition log_detection (self : t) (now : Time) (name : string)
    (frame : Image) (env : Env) : Outcome * t * list Effect :=
  if negb (_should_log self now name) then (Returned false, self, [])
  else
    let self := set_last_seen self name now in
    if String.eqb name "Unknown" then
      let image_path := _save_intruder self now in
      if save_raises env then (Raised, self, [])
      else
        let alert :=
          match notifier self with
          | Some enabled =>
              let message := MsgIntruderAlert (stamp_of now) in
              [Alert message image_path
                 (snd (TelegramNotifier.send_alert enabled message
                         (Some image_path) (image_exists env) (alert_post env)))]
          | None => []
          end in
        (Returned true, self,
         [SaveIntruder image_path frame] ++ alert ++
         [AppendRow (mkRow (stamp_of now) name (Some image_path))])
    else
      (Returned true, self, [AppendRow (mkRow (stamp_of now) name None)]).

(** The logger as [SecuritySystem] wires it: the (enabled) bot attached. *)
Definition with_bot : t := set_notifier init (Some true).

(** Surroundings in which everything succeeds. *)
Definition calm : Env := mkEnv false true (HttpResponse true).

(** Rows appended and alerts dispatched in a trace. *)
Definition rows (tr : list Effect) : list Row :=
  omap (fun e => match e with AppendRow r => Some r | _ => None end) tr.

Definition alerts (tr : list Effect) : list (Message * Path) :=
  omap (fun e => match e with Alert m p _ => Some (m, p) | _ => None end) tr.

(** The alerts a logged call dispatches: one for ["Unknown"] when a
    notifier is attached, none otherwise. *)
Definition alerts_due (self : t) (name : string) : nat :=
  if String.eqb name "Unknown"
  then match notifier self with Some _ => 1 | None => 0 end
  else 0.

(** One call of a run: when, for whom, with which frame and surroundings. *)
Record Detection := mkDetection {
  d_at : Time;
  d_name : string;
  d_frame : Image;
  d_env : Env
}.

(** Calls made one after the other on the same logger: the outcomes, the
    final state and the whole trace. *)
Fixpoint log_detections (self : t) (ds : list Detection)
    : list Outcome * t * list Effect :=
  match ds with
  | [] => ([], self, [])
  | d :: rest =>
      let '(o, self', tr) :=
        log_detection self (d_at d) (d_name d) (d_frame d) (d_env d) in
      let '(os, self'', tr') := log_detections self' rest in
      (o :: os, self'', tr ++ tr')
  end.

(** *** Runs of any length *)

(** The call got past the cooldown gate: it returned [True] or raised
    after stamping [last_seen]. *)
Definition passed (o : Outcome) : bool :=
  match o with Returned false => false | _ => true end.

(** The call returned [True]. *)
Definition logged (o : Outcome) : bool :=
  match o with Returned true => true | _ => false end.

(** The clock readings of the calls made for [name] that got past the
    gate, in order; [os] are the outcomes of the calls [ds]. *)
Fixpoint passing_times (name : string) (ds : list Detection) (os : list Outcome)
    : list Time :=
  match ds, os with
  | d :: ds, o :: os =>
      if String.eqb (d_name d) name && passed o
      then d_at d :: passing_times name ds os
      else passing_times name ds os
  | _, _ => []
  end.

(** Every reading of [ts] is more than [gap] after the one before it,
    the first one after [prev] when there is one. *)
Fixpoint spaced (gap : Q) (prev : option Time) (ts : list Time) : Prop :=
  match ts with
  | [] => True
  | t :: rest =>
      match prev with Some p => (gap < t - p)%Q | None => True end /\
      spaced gap (Some t) rest
  end.

(** The row a logged call appends. *)
Definition row_of (self : t) (d : Detection) : Row :=
  mkRow (stamp_of (d_at d)) (d_name d)
        (if String.eqb (d_name d) "Unknown"
         then Some (_save_intruder self (d_at d)) else None).

(** The rows of the calls that returned [True], in order. *)
Fixpoint logged_rows (self : t) (ds : list Detection) (os : list Outcome)
    : list Row :=
  match ds, os with
  | d :: ds, o :: os =>
      if logged o then row_of self d :: logged_rows self ds os
      else logged_rows self ds os
  | _, _ => []
  end.

(** The Unknown rows among [rs]. *)
Definition unknown_rows (rs : list Row) : list Row :=
  List.filter (fun r => String.eqb (row_name r) "Unknown") rs.

(** The snapshots written in a trace. *)
Definition snapshots (tr : list Effect) : list Path :=
  omap (fun e => match e with SaveIntruder p _ => Some p | _ => None end) tr.

End ActivityLogger.

(** ** [src/tracking/person_tracker.py] *)

Module PersonTracker.

(** One entry of [self.tracked]: the dict with keys [bbox], [name],
    [face_loc] and [last_check]. *)
Record Tracked := mkTracked {
  bbox : BBox;
  name : option string;
  face_loc : option FaceLoc;
  last_check : Time
}.

Record t := mk {
  tracked : list Tracked;
  last_person_count : nat;
  move_threshold : Q;
  recheck_interval : Q
}.

(** [__init__]. *)
Definition init : t :=
  {| tracked := [];
     last_person_count := 0;
     move_threshold := Config.bbox_move_threshold;
     recheck_interval := Config.recheck_interval |}.

(** The radicand of [_bbox_distance]: the squared distance between the
    two box centres. *)
Definition bbox_distance_sq (box1 box2 : BBox) : Q :=
  let cx1 := ((bx1 box1 + bx2 box1) / 2)%Q in
  let cy1 := ((by1 box1 + by2 box1) / 2)%Q in
  let cx2 := ((bx1 box2 + bx2 box2) / 2)%Q in
  let cy2 := ((by1 box2 + by2 box2) / 2)%Q in
  ((cx1 - cx2) * (cx1 - cx2) + (cy1 - cy2) * (cy1 - cy2))%Q.

(** The test [_bbox_distance(box1, box2) < thr].  The distance is the
    non-negative square root of [bbox_distance_sq], so it is below [thr]
    exactly when [thr] is positive and the radicand is below [thr * thr]. *)
Definition distance_below (thr : Q) (box1 box2 : BBox) : bool :=
  Qltb 0 thr && Qltb (bbox_distance_sq box1 box2) (thr * thr)%Q.

(** How the inner [for t in self.tracked] loop of [needs_face_check]
    ends for one current box. *)
Inductive Scan :=
| ScanReturnTrue   (* a slot matched and its check is stale: [return True] *)
| ScanMatched      (* a slot matched and is fresh: [break] with [matched] set *)
| ScanUnmatched.   (* the loop ran out: [matched] is still [False] *)

Fixpoint scan_tracked (self : t) (now : Time) (curr_box : BBox)
    (slots : list Tracked) : Scan :=
  match slots with
  | [] => ScanUnmatched
  | s :: rest =>
      if distance_below (move_threshold self) curr_box (bbox s) then
        if Qgtb (now - last_check s)%Q (recheck_interval self)
        then ScanReturnTrue
        else ScanMatched
      else scan_tracked self now curr_box rest
  end.

(** The outer [for curr_box in current_boxes] loop and the final
    [return False]. *)
Fixpoint check_boxes (self : t) (now : Time) (boxes : list BBox) : bool :=
  match boxes with
  | [] => false
  | curr_box :: rest =>
      match scan_tracked self now curr_box (tracked self) with
      | ScanReturnTrue => true
      | ScanUnmatched => true
      | ScanMatched => check_boxes self now rest
      end
  end.

Definition needs_face_check (self : t) (now : Time)
    (current_boxes : list BBox) : bool :=
  if negb (length current_boxes =? last_person_count self)%nat then true
  else if (length current_boxes =? 0)%nat then false
  else check_boxes self now current_boxes.

(** The entry [update] builds for the box at index [i]. *)
Definition new_entry (now : Time) (faces_per_box : list Faces)
    (i : nat) (box : BBox) : Tracked :=
  match faces_per_box !! i with
  | Some ((n, loc) :: _) =>
      {| bbox := box; name := Some n; face_loc := Some loc; last_check := now |}
  | _ =>
      {| bbox := box; name := None; face_loc := None; last_check := now |}
  end.

Definition update (self : t) (now : Time) (boxes : list BBox)
    (faces_per_box : list Faces) : t :=
  {| tracked := imap (new_entry now faces_per_box) boxes;
     last_person_count := length boxes;
     move_threshold := move_threshold self;
     recheck_interval := recheck_interval self |}.

Definition get_cached (self : t)
    : list (option string * option FaceLoc * BBox) :=
  map (fun s => (name s, face_loc s, bbox s)) (tracked self).

(** *** The decision in executable form *)

(** The first cached slot whose centre is closer than [moveThreshold] to
    the centre of [box]: greedy, in slot order. *)
Definition first_match (self : t) (box : BBox) : option Tracked :=
  List.find (fun s => distance_below (move_threshold self) box (bbox s))
            (tracked self).

(** A box forces a recheck when it has no match, or when its first match
    was last checked more than [recheckInterval] ago. *)
Definition box_forces_recheck (self : t) (now : Time) (box : BBox) : bool :=
  match first_match self box with
  | None => true
  | Some s => Qgtb (now - last_check s)%Q (recheck_interval self)
  end.

Definition spec_needs_recheck (self : t) (now : Time)
    (current_boxes : list BBox) : bool :=
  if negb (length current_boxes =? last_person_count self)%nat then true
  else match current_boxes with
       | [] => false
       | _ => existsb (box_forces_recheck self now) current_boxes
       end.

(** What one frame must satisfy for the cached identities to stand: as
    many boxes as at the last [update], and every centre closer than the
    threshold to the centre of a box of that [update]. *)
Definition steady (self : t) (boxes0 : list BBox) (boxes : list BBox) : Prop :=
  length boxes = length boxes0 /\
  Forall (fun b => Exists (fun b0 => distance_below (move_threshold self) b b0 = true)
                     boxes0) boxes.

(** *** The decision as the specification words it, over the reals

    The specification speaks of the centre-to-centre Euclidean distance;
    the definitions below follow its words and use none of the
    definitions above. *)

(** The centre of a box. *)
Definition centre (box : BBox) : R * R :=
  (((Q2R (bx1 box) + Q2R (bx2 box)) / 2)%R, ((Q2R (by1 box) + Q2R (by2 box)) / 2)%R).

(** The Euclidean distance between the centres of two boxes. *)
Definition euclidean_distance (box1 box2 : BBox) : R :=
  sqrt ((fst (centre box1) - fst (centre box2)) * (fst (centre box1) - fst (centre box2)) +
        (snd (centre box1) - snd (centre box2)) * (snd (centre box1) - snd (centre box2)))%R.

(** The centres of the two boxes are less than [thr] apart. *)
Definition within (thr : Q) (box1 box2 : BBox) : Prop :=
  (euclidean_distance box1 box2 < Q2R thr)%R.

(** [s] is the first cached slot, in slot order, whose centre is less
    than [moveThreshold] from the centre of [box]. *)
Definition is_first_match (self : t) (box : BBox) (s : Tracked) : Prop :=
  exists pre post,
    tracked self = pre ++ s :: post /\
    within (move_threshold self) box (bbox s) /\
    Forall (fun s' => ~ within (move_threshold self) box (bbox s')) pre.

(** No cached slot is that close to [box]. *)
Definition unmatched (self : t) (box : BBox) : Prop :=
  Forall (fun s => ~ within (move_threshold self) box (bbox s)) (tracked self).

(** Steps 3 and 4 for one box: it has no match, or its first match was
    last checked more than [recheckInterval] ago. *)
Definition forces_recheck (self : t) (now : Time) (box : BBox) : Prop :=
  unmatched self box \/
  exists s, is_first_match self box s /\ (recheck_interval self < now - last_check s)%Q.

(** Steps 1 to 5: when a recheck is due. *)
Definition recheck_due (self : t) (now : Time) (current_boxes : list BBox) : Prop :=
  length current_boxes <> last_person_count self \/
  (current_boxes <> [] /\ Exists (forces_recheck self now) current_boxes).

(** A frame that keeps still with respect to the boxes [boxes0] of the
    last check: as many boxes, the centre of each less than
    [moveThreshold] from the centre of one of [boxes0]. *)
Definition still (self : t) (boxes0 : list BBox) (boxes : list BBox) : Prop :=
  length boxes = length boxes0 /\
  Forall (fun b => Exists (fun b0 => within (move_threshold self) b b0) boxes0) boxes.

(** *** The part of [SecuritySystem.process_frame] that drives the tracker *)

(** One processed frame: the detector's boxes, the recognizer's answer
    per box, and the clock readings of [needs_face_check] and of
    [update]. *)
Record Frame := mkFrame {
  f_boxes : list BBox;
  f_faces : list Faces;
  f_check_at : Time;
  f_update_at : Time
}.

(** [if self.tracker.needs_face_check(boxes): ... self.tracker.update(...)];
    the boolean is the decision taken. *)
Definition process_frame (self : t) (f : Frame) : bool * t :=
  if needs_face_check self (f_check_at f) (f_boxes f)
  then (true, update self (f_update_at f) (f_boxes f) (f_faces f))
  else (false, self).

Fixpoint process_frames (self : t) (fs : list Frame) : list bool * t :=
  match fs with
  | [] => ([], self)
  | f :: rest =>
      let '(d, self') := process_frame self f in
      let '(ds, self'') := process_frames self' rest in
      (d :: ds, self'')
  end.

End PersonTracker.

(** ** [src/recording/video_recorder.py] *)

Module VideoRecorder.

(** The [cv2.VideoWriter] of a session: where it writes, the frame size
    it was opened with, and the frames written so far (oldest first). *)
Record Writer := mkWriter {
  w_file : Path;
  w_frame_size : Z * Z;
  w_frames : list Image
}.

(** What the recorder does outside its own fields. *)
Inductive Effect :=
| ThreadStarted                                      (* _start_reminder_thread *)
| Released (w : Writer)                              (* writer.release() *)
| Reminder (reminder_count : Z) (duration_min : Q)   (* on_reminder(count, min) *)
| AutoStop.                                          (* on_auto_stop() *)

(** The fields of the object.  [on_reminder] and [on_auto_stop] say
    whether a callback is set ([None] is [false]); the callbacks that
    [SecuritySystem] sets only send a message. *)
Record t := mk {
  output_dir : string;
  writer : option Writer;
  recording : bool;
  current_file : option Path;
  frame_count : Z;
  start_time : option Time;
  reminder_acknowledged : bool;
  last_reminder_time : option Time;
  reminder_count : Z;
  on_reminder : bool;
  on_auto_stop : bool
}.

Definition init : t :=
  {| output_dir := Config.output_dir;
     writer := None;
     recording := false;
     current_file := None;
     frame_count := 0;
     start_time := None;
     reminder_acknowledged := false;
     last_reminder_time := None;
     reminder_count := 0;
     on_reminder := false;
     on_auto_stop := false |}.

(** [self.recorder.on_reminder = ...; self.recorder.on_auto_stop = ...]
    of [SecuritySystem._setup_bot_callbacks]. *)
Definition wire (self : t) : t :=
  {| output_dir := output_dir self;
     writer := writer self;
     recording := recording self;
     current_file := current_file self;
     frame_count := frame_count self;
     start_time := start_time self;
     reminder_acknowledged := reminder_acknowledged self;
     last_reminder_time := last_reminder_time self;
     reminder_count := reminder_count self;
     on_reminder := true;
     on_auto_stop := true |}.

Definition start (self : t) (now : Time) (frame_size : Z * Z)
    : option Path * t * list Effect :=
  if recording self then (current_file self, self, [])
  else
    let file := RecordingFile (output_dir self) (stamp_of now) in
    (Some file,
     {| output_dir := output_dir self;
        writer := Some (mkWriter file frame_size []);
        recording := true;
        current_file := Some file;
        frame_count := 0;
        start_time := Some now;
        reminder_acknowledged := false;
        last_reminder_time := Some now;
        reminder_count := 0;
        on_reminder := on_reminder self;
        on_auto_stop := on_auto_stop self |},
     [ThreadStarted]).

Definition stop (self : t) : option Path * t * list Effect :=
  if negb (recording self) then (None, self, [])
  else
    (current_file self,
     {| output_dir := output_dir self;
        writer := None;
        recording := false;
        current_file := None;
        frame_count := 0;
        start_time := None;
        reminder_acknowledged := reminder_acknowledged self;
        last_reminder_time := last_reminder_time self;
        reminder_count := reminder_count self;
        on_reminder := on_reminder self;
        on_auto_stop := on_auto_stop self |},
     match writer self with
     | Some w => [Released w]
     | None => []
     end).

Definition write_frame (self : t) (frame : Image) : t :=
  match recording self, writer self with
  | true, Some w =>
      {| output_dir := output_dir self;
         writer := Some (mkWriter (w_file w) (w_frame_size w) (w_frames w ++ [frame]));
         recording := recording self;
         current_file := current_file self;
         frame_count := frame_count self + 1;
         start_time := start_time self;
         reminder_acknowledged := reminder_acknowledged self;
         last_reminder_time := last_reminder_time self;
         reminder_count := reminder_count self;
         on_reminder := on_reminder self;
         on_auto_stop := on_auto_stop self |}
  | _, _ => self
  end.

Definition is_recording (self : t) : bool := recording self.

(** [get_duration]: a start time of zero is as false as [None]. *)
Definition get_duration (self : t) (now : Time) : Q :=
  match recording self, start_time self with
  | true, Some started => if Qeq_bool started 0 then 0 else (now - started)%Q
  | _, _ => 0
  end.

Definition acknowledge_reminder (self : t) (now : Time) : t :=
  {| output_dir := output_dir self;
     writer := writer self;
     recording := recording self;
     current_file := current_file self;
     frame_count := frame_count self;
     start_time := start_time self;
     reminder_acknowledged := true;
     last_reminder_time := Some now;
     reminder_count := 0;
     on_reminder := on_reminder self;
     on_auto_stop := on_auto_stop self |}.

(** The constants of [_reminder_loop], in seconds. *)
Definition first_interval : Q := 10 * 60.
Definition followup_interval : Q := 30 * 60.
Definition max_reminders : Z := 3.
Definition poll_interval : Q := 30.

(** The assignments made when a reminder is due. *)
Definition count_reminder (self : t) (now : Time) : t :=
  {| output_dir := output_dir self;
     writer := writer self;
     recording := recording self;
     current_file := current_file self;
     frame_count := frame_count self;
     start_time := start_time self;
     reminder_acknowledged := false;
     last_reminder_time := Some now;
     reminder_count := reminder_count self + 1;
     on_reminder := on_reminder self;
     on_auto_stop := on_auto_stop self |}.

(** The interval the loop waits for in the state [self]. *)
Definition interval_of (self : t) : Q :=
  if (reminder_count self =? 0)%Z then first_interval else followup_interval.

(** How one pass through the body of [while self.recording] ends. *)
Inductive Pass :=
| PassOn        (* back to the [while] test *)
| PassExit      (* the [while] test failed, or a [break] *)
| PassCrash.    (* an exception ended the thread *)

(** One pass of the loop, the thread waking from [time.sleep(30)] at
    [now]: the [while] test and the [if not self.recording: break] read
    the flag the frame path or the operator left; the effects carry the
    time of the pass. *)
Definition _reminder_pass (self : t) (now : Time)
    : Pass * t * list (Time * Effect) :=
  if negb (recording self) then (PassExit, self, [])
  else
    match last_reminder_time self with
    | None => (PassCrash, self, [])
    | Some last =>
        let elapsed := (now - last)%Q in
        let interval :=
          if (reminder_count self =? 0)%Z then first_interval
          else followup_interval in
        if Qgeb elapsed interval then
          let self := count_reminder self now in
          let duration := get_duration self now in
          let duration_min := (duration / 60)%Q in
          if (reminder_count self >=? max_reminders)%Z then
            let '(_, stopped, released) := stop self in
            (PassExit, stopped,
             (if on_auto_stop self then [(now, AutoStop)] else []) ++
             map (fun e => (now, e)) released)
          else
            (PassOn, self,
             if on_reminder self
             then [(now, Reminder (reminder_count self) duration_min)]
             else [])
        else (PassOn, self, [])
    end.

(** How far the thread got over a finite list of wake-up times. *)
Inductive LoopEnd :=
| LoopAsleep    (* still in the loop, waiting for the next wake-up *)
| LoopExited
| LoopCrashed.

(** [_reminder_loop] over the wake-up times [polls] (each the reading
    after one [time.sleep(30)]). *)
Fixpoint _reminder_loop (self : t) (polls : list Time)
    : LoopEnd * t * list (Time * Effect) :=
  match polls with
  | [] => (LoopAsleep, self, [])
  | now :: rest =>
      match _reminder_pass self now with
      | (PassOn, self', tr) =>
          let '(e, self'', tr') := _reminder_loop self' rest in
          (e, self'', tr ++ tr')
      | (PassExit, self', tr) => (LoopExited, self', tr)
      | (PassCrash, self', tr) => (LoopCrashed, self', tr)
      end
  end.

(** The wake-up times of a thread whose sleeps last exactly 30 s:
    [n] polls after [t0]. *)
Definition punctual_polls (t0 : Time) (n : nat) : list Time :=
  map (fun k => (t0 + poll_interval * inject_Z (Z.of_nat k))%Q) (seq 1 n).

(** The reminder callbacks and auto-stops in a trace. *)
Definition reminders (tr : list (Time * Effect)) : list (Time * Z) :=
  omap (fun e => match e with (at_, Reminder n _) => Some (at_, n) | _ => None end) tr.

Definition auto_stops (tr : list (Time * Effect)) : list Time :=
  omap (fun e => match e with (at_, AutoStop) => Some at_ | _ => None end) tr.

(** *** The reminder cycle as the specification words it *)

(** What a due timer tick does. *)
Inductive Firing :=
| SendReminder (n : Z)     (* the reminder callback, with the new count *)
| StopRecording.           (* the auto-stop callback, then [Stopped] *)

(** The firings of an unattended session over the ticks [polls]: [last]
    is the session start, last acknowledgment or last firing, [sent] the
    reminder count.  A tick is due when the first interval (no reminder
    sent yet) or the follow-up interval (otherwise) has elapsed since
    [last]; a due tick raises the count and, when the count reaches
    [max_reminders], stops the session instead of reminding. *)
Fixpoint spec_firings (last : Time) (sent : Z) (polls : list Time)
    : list (Time * Firing) :=
  match polls with
  | [] => []
  | tick :: rest =>
      let interval :=
        if (sent =? 0)%Z then first_interval else followup_interval in
      if Qgeb (tick - last)%Q interval then
        if (sent + 1 >=? max_reminders)%Z then [(tick, StopRecording)]
        else (tick, SendReminder (sent + 1)) :: spec_firings tick (sent + 1) rest
      else spec_firings last sent rest
  end.

(** The callbacks of a trace as firings. *)
Definition firings (tr : list (Time * Effect)) : list (Time * Firing) :=
  omap (fun e => match e with
                 | (at_, Reminder n _) => Some (at_, SendReminder n)
                 | (at_, AutoStop) => Some (at_, StopRecording)
                 | _ => None
                 end) tr.

(** The kinds of firing still to come when [sent] reminders were sent. *)
Definition kinds_from (sent : Z) : list Firing :=
  map SendReminder (map Z.of_nat (seq (Z.to_nat (sent + 1))
                                      (Z.to_nat (max_reminders - 1 - sent)))) ++
  [StopRecording].

(** The invariant [start] and [stop] keep: a session being recorded has
    its writer and its file. *)
Definition consistent (self : t) : Prop :=
  recording self = true ->
  (exists w, writer self = Some w /\ current_file self = Some (w_file w)).

(** *** Frames and files *)

(** [write_frame] called for each frame of [frames], oldest first, as the
    capture loop does through [record_frame]. *)
Definition write_frames (self : t) (frames : list Image) : t :=
  fold_left write_frame frames self.

(** The order of [sorted(..., reverse=True)] on directory entries: by
    name, greatest first (strings compare by code point). *)
Definition name_ge (a b : string * Z) : Prop := String.leb (fst b) (fst a) = true.

#[global] Instance name_ge_dec (a b : string * Z) : Decision (name_ge a b).
Proof. unfold name_ge. apply _. Defined.

(** [list_recordings].  [listing] is what [os.listdir(self.output_dir)]
    finds, each name (names of one directory are distinct) with its
    [os.path.getsize] in bytes; [None] when the directory is missing. *)
Definition list_recordings (listing : option (list (string * Z)))
    : list (string * Q) :=
  match listing with
  | None => []
  | Some entries =>
      map (fun e => (fst e, (inject_Z (snd e) / (1024 * 1024))%Q))
          (List.filter (fun e => PyStr.endswith (fst e) ".mp4")
                       (merge_sort name_ge entries))
  end.

End VideoRecorder.

(** ** [src/notifications/telegram_bot.py]: the command side *)

Module TelegramBot.

(** One size of a photo of a message: [file_id] and [file_size]
    (0 when the key is missing). *)
Record PhotoSize := mkPhoto { file_id : string; file_size : Z }.

(** The fields [_handle_update] reads off [update["message"]]:
    [str(chat.id)], [text], [caption] (each the empty string when
    missing) and [photo] (the empty list when missing). *)
Record Msg := mkMsg {
  chat : string;
  text : string;
  caption : string;
  photo : list PhotoSize
}.

Record Update := mkUpdate { update_id : Z; message : Msg }.

(** The state of the object; the callbacks are kept apart, in
    [Callbacks]. *)
Record t := mk {
  chat_id : string;
  enabled : bool;
  running : bool;
  surveillance_active : bool;
  pending_add_name : option string;
  last_update_id : Z
}.

Definition init : t :=
  {| chat_id := Config.telegram_chat_id;
     enabled := true;
     running := false;
     surveillance_active := true;
     pending_add_name := None;
     last_update_id := 0 |}.

Definition set_surveillance_active (self : t) (b : bool) : t :=
  {| chat_id := chat_id self;
     enabled := enabled self;
     running := running self;
     surveillance_active := b;
     pending_add_name := pending_add_name self;
     last_update_id := last_update_id self |}.

Definition set_pending_add_name (self : t) (n : option string) : t :=
  {| chat_id := chat_id self;
     enabled := enabled self;
     running := running self;
     surveillance_active := surveillance_active self;
     pending_add_name := n;
     last_update_id := last_update_id self |}.

Definition set_last_update_id (self : t) (i : Z) : t :=
  {| chat_id := chat_id self;
     enabled := enabled self;
     running := running self;
     surveillance_active := surveillance_active self;
     pending_add_name := pending_add_name self;
     last_update_id := i |}.

(** The answer of [getFile]: an exception, or the [file_path] of the
    reply ([None] when the reply has none). *)
Inductive FetchResult :=
| FetchRaised
| FetchAnswer (file_path : option string).

(** The download of the file: an exception, or its bytes. *)
Inductive DownloadResult :=
| DownloadRaised
| Downloaded (img_data : string).

(** What the surroundings answer while one update is handled. *)
Record Env := mkEnv {
  now : Time;                  (* the clock *)
  post : Http;                 (* the outcome of the reply's request *)
  get_file : FetchResult;
  download : DownloadResult;
  write_raises : bool;         (* [makedirs] or [open(save_path, "wb")] raises *)
  known_faces : list string;   (* what [_list_known_faces()] returns *)
  removable : bool;            (* what [_remove_face(arg)] returns *)
  image_exists : bool          (* [os.path.exists] of a snapshot *)
}.

(** The callbacks the bot can invoke. *)
Inductive Callback :=
| OnStart
| OnStop
| OnAddFace (name : string) (save_path : Path)
| OnRecordStart
| OnRecordStop
| OnRecordContinue
| OnSnap
| GetStatus
| GetRecordings.

(** What handling an update does outside the object, in order. *)
Inductive Effect :=
| Wire (c : TelegramNotifier.Call)                 (* a reply on the wire *)
| Dispatch (cb : Callback)                         (* a callback invoked *)
| GetFile (id : string)                            (* the getFile request *)
| Download (file_path : string)                    (* the file download *)
| WriteFace (save_path : Path) (img_data : string) (* the image written *)
| RemoveFace (name : string).                      (* [_remove_face] *)

(** How a handler ends: it returns, or an exception leaves it. *)
Inductive Outcome :=
| Returned
| Raised.

(** The fetch failed: [getFile] raised or gave no path, or the download
    raised. *)
Definition fetch_failed (env : Env) : Prop :=
  get_file env = FetchRaised \/
  get_file env = FetchAnswer None \/
  get_file env = FetchAnswer (Some "") \/
  (exists p, get_file env = FetchAnswer (Some p) /\ download env = DownloadRaised).

(** The file was fetched but could not be stored. *)
Definition store_failed (env : Env) : Prop :=
  exists p img_data,
    get_file env = FetchAnswer (Some p) /\ p <> "" /\
    download env = Downloaded img_data /\ write_raises env = true.

Section Handlers.

(** The state of whoever set the callbacks. *)
Context {H : Type}.

(** The attributes [on_start] ... [get_recordings]: [None], or a function
    of the host. *)
Record Callbacks := mkCallbacks {
  on_start : option (H -> H);
  on_stop : option (H -> H);
  on_add_face : option (string -> Path -> H -> H);
  on_record_start : option (Time -> H -> option Path * H);
  on_record_stop : option (Time -> H -> option Path * H);
  on_record_continue : option (Time -> H -> H);
  on_snap : option (Time -> H -> option Path * H);
  get_status : option (Time -> H -> StatusReport);
  get_recordings : option (H -> list (string * Q))
}.

Variable cb : Callbacks.

(** [self.send_message(text)], its result dropped. *)
Definition say (self : t) (env : Env) (text : Message) : list Effect :=
  map Wire (snd (TelegramNotifier.send_message (enabled self) text (post env))).

Definition _handle_command (self : t) (host : H) (env : Env) (text : string)
    : Outcome * t * H * list Effect :=
  match PyStr.split1 text with
  | [] => (Raised, self, host, [])     (* parts[0]: IndexError *)
  | part0 :: parts =>
      let cmd := PyStr.before_at (PyStr.lower part0) in
      let arg := match parts with a :: _ => a | [] => "" end in
      if String.eqb cmd "/start" then
        let self := set_surveillance_active self true in
        match on_start cb with
        | Some f => (Returned, self, f host,
                     [Dispatch OnStart] ++ say self env MsgSurveillanceStarted)
        | None => (Returned, self, host, say self env MsgSurveillanceStarted)
        end
      else if String.eqb cmd "/stop" then
        let self := set_surveillance_active self false in
        match on_stop cb with
        | Some f => (Returned, self, f host,
                     [Dispatch OnStop] ++ say self env MsgSurveillanceStopped)
        | None => (Returned, self, host, say self env MsgSurveillanceStopped)
        end
      else if String.eqb cmd "/status" then
        match get_status cb with
        | Some f =>
            (Returned, self, host,
             [Dispatch GetStatus] ++
             say self env (MsgStatus (surveillance_active self) (Some (f (now env) host))))
        | None =>
            (Returned, self, host,
             say self env (MsgStatus (surveillance_active self) None))
        end
      else if String.eqb cmd "/list" then
        match known_faces env with
        | [] => (Returned, self, host, say self env MsgNoKnownFaces)
        | faces => (Returned, self, host, say self env (MsgKnownFaces faces))
        end
      else if String.eqb cmd "/add" then
        if negb (PyStr.truthy arg) then
          (Returned, self, host, say self env MsgAddUsage)
        else
          let self := set_pending_add_name self (Some arg) in
          (Returned, self, host, say self env (MsgSendPhotoFor arg))
      else if String.eqb cmd "/remove" then
        if negb (PyStr.truthy arg) then
          (Returned, self, host, say self env MsgRemoveUsage)
        else if removable env then
          (Returned, self, host, [RemoveFace arg] ++ say self env (MsgRemoved arg))
        else
          (Returned, self, host, [RemoveFace arg] ++ say self env (MsgNotFound arg))
      else if String.eqb cmd "/record" then
        match on_record_start cb with
        | Some f =>
            match f (now env) host with
            | (Some result, host) =>
                (Returned, self, host,
                 [Dispatch OnRecordStart] ++ say self env (MsgRecordingStarted result))
            | (None, host) =>
                (Returned, self, host,
                 [Dispatch OnRecordStart] ++ say self env MsgAlreadyRecording)
            end
        | None => (Returned, self, host, say self env MsgRecordingNotAvailable)
        end
      else if String.eqb cmd "/stoprecord" then
        match on_record_stop cb with
        | Some f =>
            match f (now env) host with
            | (Some result, host) =>
                (Returned, self, host,
                 [Dispatch OnRecordStop] ++ say self env (MsgRecordingStopped result))
            | (None, host) =>
                (Returned, self, host,
                 [Dispatch OnRecordStop] ++ say self env MsgNotRecordingWarning)
            end
        | None => (Returned, self, host, say self env MsgRecordingNotAvailable)
        end
      else if String.eqb cmd "/continue" then
        match on_record_continue cb with
        | Some f =>
            (Returned, self, f (now env) host,
             [Dispatch OnRecordContinue] ++ say self env MsgWillContinue)
        | None => (Returned, self, host, say self env MsgNotRecording)
        end
      else if String.eqb cmd "/recordings" then
        match get_recordings cb with
        | Some f =>
            match f host with
            | [] => (Returned, self, host,
                     [Dispatch GetRecordings] ++ say self env MsgNoRecordings)
            | recs => (Returned, self, host,
                       [Dispatch GetRecordings] ++
                       say self env (MsgRecordings (take 10 recs)))
            end
        | None => (Returned, self, host, say self env MsgRecordingNotAvailable)
        end
      else if String.eqb cmd "/snap" then
        match on_snap cb with
        | Some f =>
            match f (now env) host with
            | (Some result, host) =>
                (Returned, self, host,
                 [Dispatch OnSnap] ++
                 map Wire (snd (TelegramNotifier.send_alert (enabled self)
                                  MsgCurrentFrame (Some result)
                                  (image_exists env) (post env))))
            | (None, host) =>
                (Returned, self, host, [Dispatch OnSnap] ++ say self env MsgNoFrame)
            end
        | None => (Returned, self, host, say self env MsgSnapNotAvailable)
        end
      else if String.eqb cmd "/help" then
        (Returned, self, host, say self env MsgHelp)
      else
        (Returned, self, host, say self env MsgUnknownCommand)
  end.

(** [max(photos, key=file_size)]: the first of the largest. *)
Fixpoint largest (best : PhotoSize) (photos : list PhotoSize) : PhotoSize :=
  match photos with
  | [] => best
  | p :: rest =>
      if (file_size best <? file_size p)%Z then largest p rest else largest best rest
  end.

(** [_handle_add_photo].  The text of a missing name is ["None"], as
    Python formats it; both callers set the name first.  The image is
    stored with [open(save_path, "wb")], outside any [try]: when that
    raises, the handler is left before the reply and before
    [on_add_face]. *)
Definition _handle_add_photo (self : t) (host : H) (env : Env)
    (photos : list PhotoSize) : Outcome * t * H * list Effect :=
  let name := match pending_add_name self with Some n => n | None => "None" end in
  let self := set_pending_add_name self None in
  match photos with
  | [] => (Raised, self, host, [])     (* max() of an empty list *)
  | first :: others =>
      let id := file_id (largest first others) in
      match get_file env with
      | FetchRaised => (Raised, self, host, [GetFile id])
      | FetchAnswer None =>
          (Returned, self, host, [GetFile id] ++ say self env MsgDownloadFailed)
      | FetchAnswer (Some file_path) =>
          if negb (PyStr.truthy file_path) then
            (Returned, self, host, [GetFile id] ++ say self env MsgDownloadFailed)
          else
            match download env with
            | DownloadRaised =>
                (Raised, self, host, [GetFile id; Download file_path])
            | Downloaded img_data =>
                let save_path := KnownFaceFile Config.known_faces_dir name in
                if write_raises env then
                  (* no file for this name can be opened: a name with a
                     slash whose directory is missing, a name too long *)
                  (Raised, self, host, [GetFile id; Download file_path])
                else
                  let tr := [GetFile id; Download file_path;
                             WriteFace save_path img_data] ++
                            say self env (MsgFaceAdded name) in
                  match on_add_face cb with
                  | Some f =>
                      (Returned, self, f name save_path host,
                       tr ++ [Dispatch (OnAddFace name save_path)])
                  | None => (Returned, self, host, tr)
                  end
            end
      end
  end.

(** Truth of [self.pending_add_name]. *)
Definition pending_truthy (self : t) : bool :=
  match pending_add_name self with
  | Some n => PyStr.truthy n
  | None => false
  end.

(** [caption.split(maxsplit=1)[1] if len(caption.split()) > 1 else ""];
    [None] is the [IndexError] of the subscript. *)
Definition inline_name (caption : string) : option string :=
  if (1 <? length (PyStr.split caption))%nat then
    match PyStr.split1 caption with
    | _ :: n :: _ => Some n
    | _ => None
    end
  else Some "".

(** Truth of [photo]: a non-empty list. *)
Definition has_photo (photo : list PhotoSize) : bool :=
  match photo with [] => false | _ :: _ => true end.

Definition _handle_update (self : t) (host : H) (env : Env) (update : Update)
    : Outcome * t * H * list Effect :=
  let msg := message update in
  if negb (String.eqb (chat msg) (chat_id self)) then (Returned, self, host, [])
  else
    let text := PyStr.strip (text msg) in
    let caption := PyStr.strip (caption msg) in
    let photo := photo msg in
    (* what follows the inline [/add] block *)
    let otherwise :=
      if has_photo photo && pending_truthy self then
        _handle_add_photo self host env photo
      else if PyStr.startswith text "/" then _handle_command self host env text
      else if PyStr.startswith caption "/" then _handle_command self host env caption
      else (Returned, self, host, []) in
    if has_photo photo && PyStr.startswith caption "/add " then
      match inline_name caption with
      | None => (Raised, self, host, [])
      | Some name =>
          if PyStr.truthy name then
            _handle_add_photo (set_pending_add_name self (Some name)) host env photo
          else otherwise
      end
    else otherwise.

(** The body of [_poll_loop] for one batch of updates: an exception of a
    handler ends the batch (the loop prints it) before the cursor moves
    past the update that raised.  Each update comes with its
    surroundings. *)
Fixpoint poll_batch (self : t) (host : H) (batch : list (Update * Env))
    : t * H * list Effect :=
  match batch with
  | [] => (self, host, [])
  | (update, env) :: rest =>
      match _handle_update self host env update with
      | (Returned, self, host, tr) =>
          let self := set_last_update_id self (update_id update + 1) in
          let '(self', host', tr') := poll_batch self host rest in
          (self', host', tr ++ tr')
      | (Raised, self, host, tr) => (self, host, tr)
      end
  end.

End Handlers.

Arguments Callbacks H : clear implicits.

(** Updates from the authorized chat of [init]: a text, and a photo with
    a caption. *)
Definition text_update (id : Z) (txt : string) : Update :=
  mkUpdate id (mkMsg Config.telegram_chat_id txt "" []).

Definition photo_update (id : Z) (cap : string) : Update :=
  mkUpdate id (mkMsg Config.telegram_chat_id "" cap
                 [mkPhoto "small" 1000; mkPhoto "large" 90000]).

(** Surroundings in which every request succeeds, at time [at_]. *)
Definition calm (at_ : Time) : Env :=
  mkEnv at_ (HttpResponse true) (FetchAnswer (Some "photos/file_1.jpg"))
        (Downloaded "JFIF") false [] false true.

(** The same, but [getFile] answers without a [file_path]. *)
Definition no_file (at_ : Time) : Env :=
  mkEnv at_ (HttpResponse true) (FetchAnswer None)
        (Downloaded "JFIF") false [] false true.

(** The same as [calm], but the image cannot be stored. *)
Definition no_store (at_ : Time) : Env :=
  mkEnv at_ (HttpResponse true) (FetchAnswer (Some "photos/file_1.jpg"))
        (Downloaded "JFIF") true [] false true.

(** The identities registered in a trace: the names [on_add_face] was
    invoked with. *)
Definition registrations (tr : list Effect) : list string :=
  omap (fun e => match e with Dispatch (OnAddFace n _) => Some n | _ => None end) tr.

(** The face images written in a trace. *)
Definition writes (tr : list Effect) : list Path :=
  omap (fun e => match e with WriteFace p _ => Some p | _ => None end) tr.

(** The callbacks invoked in a trace. *)
Definition dispatches (tr : list Effect) : list Callback :=
  omap (fun e => match e with Dispatch c => Some c | _ => None end) tr.

(** The file [_handle_add_photo] writes for [name], within
    [known_faces_dir]: [f"{name}.jpg"]. *)
Definition face_file_name (name : string) : string := name ++ ".jpg".

(** The order of [sorted] on names: by code point. *)
Definition name_le (a b : string) : Prop := String.leb a b = true.

#[global] Instance name_le_dec (a b : string) : Decision (name_le a b).
Proof. unfold name_le. apply _. Defined.

(** [_list_known_faces]; [listing] is [os.listdir(known_dir)], [None]
    when the directory is missing. *)
Definition _list_known_faces (listing : option (list string)) : list string :=
  match listing with
  | None => []
  | Some files =>
      merge_sort name_le
        (map PyPath.splitext_root (List.filter FaceRecognizer.is_image files))
  end.

(** The fields no handler writes. *)
Definition same_identity (a b : t) : Prop :=
  chat_id a = chat_id b /\ enabled a = enabled b /\ running a = running b.

(** The state a batch of updates from other chats leaves: only the
    cursor has moved, past the last of them. *)
Definition skipped (self : t) (batch : list (Update * Env)) : t :=
  match last batch with
  | Some (update, _) => set_last_update_id self (update_id update + 1)
  | None => self
  end.

(** The requests put on the wire in a trace. *)
Definition wires (tr : list Effect) : list TelegramNotifier.Call :=
  omap (fun e => match e with Wire c => Some c | _ => None end) tr.

(** The files asked of [getFile] in a trace. *)
Definition fetches (tr : list Effect) : list string :=
  omap (fun e => match e with GetFile id => Some id | _ => None end) tr.

End TelegramBot.

(** ** [main.py]: [SecuritySystem], the callbacks it gives the bot *)

Module SecuritySystem.

(** What the callbacks do outside the objects. *)
Inductive Effect :=
| Recorder (e : VideoRecorder.Effect)
| SnapWritten (path : Path) (frame : Image).       (* cv2.imwrite of [_on_snap] *)

(** The fields of [SecuritySystem] the callbacks touch (the bot is kept
    beside it), and the effects they had so far. *)
Record t := mk {
  recorder : VideoRecorder.t;
  recognizer_loads : nat;      (* how often [FaceRecognizer()] was built *)
  frames_processed : Z;
  face_checks : Z;
  paused : bool;
  frame_size : option (Z * Z);
  latest_frame : option Image;
  effects : list Effect
}.

Definition init : t :=
  {| recorder := VideoRecorder.wire VideoRecorder.init;
     recognizer_loads := 1;
     frames_processed := 0;
     face_checks := 0;
     paused := false;
     frame_size := None;
     latest_frame := None;
     effects := [] |}.

Definition set_paused (self : t) (b : bool) : t :=
  {| recorder := recorder self;
     recognizer_loads := recognizer_loads self;
     frames_processed := frames_processed self;
     face_checks := face_checks self;
     paused := b;
     frame_size := frame_size self;
     latest_frame := latest_frame self;
     effects := effects self |}.

(** The recorder replaced and its effects noted. *)
Definition set_recorder (self : t) (r : VideoRecorder.t)
    (tr : list VideoRecorder.Effect) : t :=
  {| recorder := r;
     recognizer_loads := recognizer_loads self;
     frames_processed := frames_processed self;
     face_checks := face_checks self;
     paused := paused self;
     frame_size := frame_size self;
     latest_frame := latest_frame self;
     effects := effects self ++ map Recorder tr |}.

Definition _on_start (self : t) : t := set_paused self false.

Definition _on_stop (self : t) : t := set_paused self true.

Definition _on_add_face (name : string) (path : Path) (self : t) : t :=
  {| recorder := recorder self;
     recognizer_loads := S (recognizer_loads self);
     frames_processed := frames_processed self;
     face_checks := face_checks self;
     paused := paused self;
     frame_size := frame_size self;
     latest_frame := latest_frame self;
     effects := effects self |}.

Definition _on_record_start (now : Time) (self : t) : option Path * t :=
  if VideoRecorder.is_recording (recorder self) then (None, self)
  else
    match frame_size self with
    | Some size =>
        let '(result, r, tr) := VideoRecorder.start (recorder self) now size in
        (result, set_recorder self r tr)
    | None => (None, self)
    end.

Definition _on_record_stop (now : Time) (self : t) : option Path * t :=
  let '(result, r, tr) := VideoRecorder.stop (recorder self) in
  (result, set_recorder self r tr).

Definition _on_record_continue (now : Time) (self : t) : t :=
  set_recorder self (VideoRecorder.acknowledge_reminder (recorder self) now) [].

Definition _on_snap (now : Time) (self : t) : option Path * t :=
  match latest_frame self with
  | None => (None, self)
  | Some frame =>
      let path := SnapFile (stamp_of now) in
      (Some path,
       {| recorder := recorder self;
          recognizer_loads := recognizer_loads self;
          frames_processed := frames_processed self;
          face_checks := face_checks self;
          paused := paused self;
          frame_size := frame_size self;
          latest_frame := latest_frame self;
          effects := effects self ++ [SnapWritten path frame] |})
  end.

(** [_get_status]; [known] is [len(self.recognizer._get_known_images())],
    a look at the directory. *)
Definition _get_status (known : nat) (now : Time) (self : t) : StatusReport :=
  {| st_frames := frames_processed self;
     st_face_checks := face_checks self;
     st_known := known;
     st_recording := VideoRecorder.is_recording (recorder self);
     st_duration := VideoRecorder.get_duration (recorder self) now |}.

(** [_setup_bot_callbacks]: what the bot is given.  [_get_recordings]
    lists a directory: [recordings] is what it finds there. *)
Definition callbacks (known : nat) (recordings : list (string * Q))
    : TelegramBot.Callbacks t :=
  {| TelegramBot.on_start := Some _on_start;
     TelegramBot.on_stop := Some _on_stop;
     TelegramBot.on_add_face := Some _on_add_face;
     TelegramBot.on_record_start := Some _on_record_start;
     TelegramBot.on_record_stop := Some _on_record_stop;
     TelegramBot.on_record_continue := Some _on_record_continue;
     TelegramBot.on_snap := Some _on_snap;
     TelegramBot.get_status := Some (_get_status known);
     TelegramBot.get_recordings := Some (fun _ => recordings) |}.

(** The callbacks of a system whose directories are empty. *)
Definition cbs : TelegramBot.Callbacks t := callbacks 0 [].

(** [record_frame]: the first frame fixes [frame_size]; every frame is
    kept for [/snap] and written when a session is active. *)
Definition record_frame (self : t) (frame : Image) (size : Z * Z) : t :=
  {| recorder :=
       if VideoRecorder.is_recording (recorder self)
       then VideoRecorder.write_frame (recorder self) frame
       else recorder self;
     recognizer_loads := recognizer_loads self;
     frames_processed := frames_processed self;
     face_checks := face_checks self;
     paused := paused self;
     frame_size := match frame_size self with Some s => Some s | None => Some size end;
     latest_frame := Some frame;
     effects := effects self |}.

(** [is_active]; the bot is kept beside the system. *)
Definition is_active (bot : TelegramBot.t) (self : t) : bool :=
  TelegramBot.surveillance_active bot && negb (paused self).

(** The two flags that say whether surveillance runs agree. *)
Definition flags_agree (bot : TelegramBot.t) (self : t) : Prop :=
  TelegramBot.surveillance_active bot = negb (paused self).

(** [record_frame] for each frame of the capture loop, oldest first. *)
Definition record_frames (self : t) (frames : list Image) (size : Z * Z) : t :=
  fold_left (fun s frame => record_frame s frame size) frames self.

End SecuritySystem.

(** ** [main.py]: [SecuritySystem.process_frame] *)

Module Pipeline.

(** The objects [process_frame] reads and writes. *)
Record t := mk {
  system : SecuritySystem.t;
  tracker : PersonTracker.t;
  logger : ActivityLogger.t
}.

(** [SecuritySystem.__init__]: a fresh tracker, and the logger with the
    bot as its notifier. *)
Definition init : t :=
  {| system := SecuritySystem.init;
     tracker := PersonTracker.init;
     logger := ActivityLogger.with_bot |}.

(** One pair of what [identify] returns, with the clock reading and the
    surroundings of the [log_detection] call made for it. *)
Record Sighting := mkSighting {
  s_name : string;
  s_loc : FaceLoc;
  s_at : Time;
  s_env : ActivityLogger.Env
}.

(** What one call of [process_frame] meets: the frame and its size
    [(w, h)], the answers of the detector, the answer of the recognizer
    for the box at each index, and the clock readings of
    [needs_face_check] and of [update]. *)
Record Input := mkInput {
  i_frame : Image;
  i_size : Z * Z;
  i_bright : bool;                      (* detector.check_brightness(frame) *)
  i_boxes : list BBox;                  (* detector.detect(frame) *)
  i_identify : nat -> list Sighting;    (* recognizer.identify(frame, box) *)
  i_check_at : Time;
  i_update_at : Time
}.

(** How [process_frame] ends: it returns the frame to display, or an
    exception of [log_detection] leaves it. *)
Inductive Outcome :=
| Returned
| Raised.

(** The [for name, _ in faces: self.logger.log_detection(name, frame)]
    calls of one frame, in order, up to the first that raises. *)
Fixpoint log_faces (logger : ActivityLogger.t) (frame : Image)
    (faces : list Sighting)
    : Outcome * ActivityLogger.t * list ActivityLogger.Effect :=
  match faces with
  | [] => (Returned, logger, [])
  | s :: rest =>
      match ActivityLogger.log_detection logger (s_at s) (s_name s) frame (s_env s) with
      | (ActivityLogger.Raised, logger, tr) => (Raised, logger, tr)
      | (ActivityLogger.Returned _, logger, tr) =>
          let '(o, logger, tr') := log_faces logger frame rest in
          (o, logger, tr ++ tr')
      end
  end.

(** [self.frames_processed += 1] and the first frame fixing
    [frame_size]. *)
Definition count_frame (sys : SecuritySystem.t) (size : Z * Z) : SecuritySystem.t :=
  {| SecuritySystem.recorder := SecuritySystem.recorder sys;
     SecuritySystem.recognizer_loads := SecuritySystem.recognizer_loads sys;
     SecuritySystem.frames_processed := SecuritySystem.frames_processed sys + 1;
     SecuritySystem.face_checks := SecuritySystem.face_checks sys;
     SecuritySystem.paused := SecuritySystem.paused sys;
     SecuritySystem.frame_size :=
       match SecuritySystem.frame_size sys with
       | Some s => Some s
       | None => Some size
       end;
     SecuritySystem.latest_frame := SecuritySystem.latest_frame sys;
     SecuritySystem.effects := SecuritySystem.effects sys |}.

(** [self.face_checks += 1]. *)
Definition count_check (sys : SecuritySystem.t) : SecuritySystem.t :=
  {| SecuritySystem.recorder := SecuritySystem.recorder sys;
     SecuritySystem.recognizer_loads := SecuritySystem.recognizer_loads sys;
     SecuritySystem.frames_processed := SecuritySystem.frames_processed sys;
     SecuritySystem.face_checks := SecuritySystem.face_checks sys + 1;
     SecuritySystem.paused := SecuritySystem.paused sys;
     SecuritySystem.frame_size := SecuritySystem.frame_size sys;
     SecuritySystem.latest_frame := SecuritySystem.latest_frame sys;
     SecuritySystem.effects := SecuritySystem.effects sys |}.

(** [process_frame], without the drawing on the copy it returns: the
    counters, the pause and brightness tests, the tracker's decision, the
    recognizer run on every box with each face logged, and the cache
    rebuilt. *)
Definition process_frame (self : t) (inp : Input)
    : Outcome * t * list ActivityLogger.Effect :=
  let sys := count_frame (system self) (i_size inp) in
  if SecuritySystem.paused sys then
    (Returned, {| system := sys; tracker := tracker self; logger := logger self |}, [])
  else if negb (i_bright inp) then
    (Returned, {| system := sys; tracker := tracker self; logger := logger self |}, [])
  else
    let boxes := i_boxes inp in
    if PersonTracker.needs_face_check (tracker self) (i_check_at inp) boxes then
      let sys := count_check sys in
      let faces_per_box := map (i_identify inp) (seq 0 (length boxes)) in
      match log_faces (logger self) (i_frame inp) (concat faces_per_box) with
      | (Raised, logger', tr) =>
          (Raised, {| system := sys; tracker := tracker self; logger := logger' |}, tr)
      | (Returned, logger', tr) =>
          (Returned,
           {| system := sys;
              tracker :=
                PersonTracker.update (tracker self) (i_update_at inp) boxes
                  (map (map (fun s => (s_name s, s_loc s))) faces_per_box);
              logger := logger' |},
           tr)
      end
    else
      (Returned, {| system := sys; tracker := tracker self; logger := logger self |}, []).

(** The frames handed to [process_frame] one after the other, as the
    capture loop does; the loop ends with the exception that leaves a
    call. *)
Fixpoint process_frames (self : t) (inputs : list Input)
    : list Outcome * t * list ActivityLogger.Effect :=
  match inputs with
  | [] => ([], self, [])
  | inp :: rest =>
      match process_frame self inp with
      | (Raised, self, tr) => ([Raised], self, tr)
      | (Returned, self, tr) =>
          let '(os, self, tr') := process_frames self rest in
          (Returned :: os, self, tr ++ tr')
      end
  end.

(** [process_interval = max(1, int(1 / cam.process_rate))] of [main],
    for a rate that is not zero. *)
Definition process_interval (process_rate : Q) : Z :=
  Z.max 1 (FaceRecognizer.py_int (1 / process_rate)).

(** The [while True] loop of [main] over the frames the camera
    delivers, [inputs]: every frame goes to [record_frame], every
    [process_interval]-th one to [process_frame] as well; [frame_count]
    is the loop's counter.  The loop ends with the frames, or with the
    exception that leaves [process_frame]. *)
Fixpoint capture_loop (process_interval frame_count : Z) (self : t)
    (inputs : list Input) : Outcome * t * list ActivityLogger.Effect :=
  match inputs with
  | [] => (Returned, self, [])
  | inp :: rest =>
      let frame_count := (frame_count + 1)%Z in
      let self :=
        {| system := SecuritySystem.record_frame (system self) (i_frame inp) (i_size inp);
           tracker := tracker self;
           logger := logger self |} in
      if (frame_count mod process_interval =? 0)%Z then
        match process_frame self inp with
        | (Raised, self, tr) => (Raised, self, tr)
        | (Returned, self, tr) =>
            let '(o, self, tr') := capture_loop process_interval frame_count self rest in
            (o, self, tr ++ tr')
        end
      else capture_loop process_interval frame_count self rest
  end.

(** A frame on which nothing is decided: the system is paused, the frame
    is dark, or the tracker asks for no face check. *)
Definition idle_frame (self : t) (inp : Input) : Prop :=
  SecuritySystem.paused (system self) = true \/
  i_bright inp = false \/
  PersonTracker.needs_face_check (tracker self) (i_check_at inp) (i_boxes inp) = false.

End Pipeline.

(** * Theorems *)

(** ** Comparisons on rationals *)

Lemma Qltb_lt (a b : Q) : Qltb a b = true <-> (a < b)%Q.
Proof.
  unfold Qltb. rewrite negb_true_iff, <- not_true_iff_false, Qle_bool_iff.
  split; [apply Qnot_le_lt | apply Qlt_not_le].
Qed.

Lemma Qgtb_gt (a b : Q) : Qgtb a b = true <-> (b < a)%Q.
Proof. apply Qltb_lt. Qed.

Lemma Qgtb_le (a b : Q) : Qgtb a b = false <-> (a <= b)%Q.
Proof. unfold Qgtb. rewrite negb_false_iff. apply Qle_bool_iff. Qed.

Lemma Qgeb_ge (a b : Q) : Qgeb a b = true <-> (b <= a)%Q.
Proof. apply Qle_bool_iff. Qed.

Lemma Qgeb_lt (a b : Q) : Qgeb a b = false <-> (a < b)%Q.
Proof.
  unfold Qgeb. rewrite <- not_true_iff_false, Qle_bool_iff.
  split; [apply Qnot_le_lt | apply Qlt_not_le].
Qed.

(** ** The tracker *)

Section TrackerFacts.
Import PersonTracker.

(** The inner loop finds the first slot within the threshold and looks at
    its age only. *)
Lemma scan_tracked_find (self : t) (now : Time) (box : BBox) (slots : list Tracked) :
  scan_tracked self now box slots =
  match List.find (fun s => distance_below (move_threshold self) box (bbox s)) slots with
  | None => ScanUnmatched
  | Some s => if Qgtb (now - last_check s)%Q (recheck_interval self)
              then ScanReturnTrue else ScanMatched
  end.
Proof.
  induction slots as [|s rest IH]; simpl; [reflexivity|].
  destruct (distance_below _ box (bbox s)); [reflexivity | exact IH].
Qed.

Lemma check_boxes_existsb (self : t) (now : Time) (boxes : list BBox) :
  check_boxes self now boxes = existsb (box_forces_recheck self now) boxes.
Proof.
  induction boxes as [|b rest IH]; simpl; [reflexivity|].
  rewrite scan_tracked_find. unfold box_forces_recheck, first_match.
  destruct (List.find _ (tracked self)) as [s|]; [|reflexivity].
  destruct (Qgtb _ _); [reflexivity | exact IH].
Qed.

Lemma Forall_imap {A B : Type} (P : B -> Prop) (f : nat -> A -> B) (l : list A) :
  (forall i x, P (f i x)) -> Forall P (imap f l).
Proof.
  revert f. induction l as [|x l IH]; intros f Hf; simpl; constructor.
  - apply Hf.
  - apply IH. intros i y. apply Hf.
Qed.

Lemma map_bbox_imap (now : Time) (faces : list Faces) (boxes : list BBox) :
  map bbox (imap (new_entry now faces) boxes) = boxes.
Proof.
  assert (G : forall (f : nat -> BBox -> Tracked),
             (forall i b, bbox (f i b) = b) -> map bbox (imap f boxes) = boxes).
  { induction boxes as [|b rest IH]; intros f Hf; simpl; [reflexivity|].
    rewrite Hf. f_equal. apply IH. intros i b'. apply Hf. }
  apply G. intros i b. unfold new_entry.
  destruct (faces !! i) as [[|[n loc] ?]|]; reflexivity.
Qed.

Lemma last_check_new_entry (now : Time) (faces : list Faces) (i : nat) (b : BBox) :
  last_check (new_entry now faces i b) = now.
Proof.
  unfold new_entry. destruct (faces !! i) as [[|[n loc] ?]|]; reflexivity.
Qed.

(** A box close to one of the boxes of the last [update] has a first match,
    and that match carries the time of the update. *)
Lemma first_match_after_update (self : t) (t0 : Time) (boxes0 : list BBox)
    (faces0 : list Faces) (b : BBox) :
  Exists (fun b0 => distance_below (move_threshold self) b b0 = true) boxes0 ->
  exists s, first_match (update self t0 boxes0 faces0) b = Some s /\ last_check s = t0.
Proof.
  intros Hex. unfold first_match. simpl.
  destruct (List.find _ _) as [s|] eqn:Hfind.
  - exists s. split; [reflexivity|].
    apply find_some in Hfind. destruct Hfind as [Hin _].
    pose proof (Forall_imap (fun s => last_check s = t0) (new_entry t0 faces0) boxes0
                  (last_check_new_entry t0 faces0)) as Hall.
    rewrite List.Forall_forall in Hall. apply Hall, Hin.
  - exfalso. apply List.Exists_exists in Hex. destruct Hex as [b0 [Hin Hclose]].
    rewrite <- (map_bbox_imap t0 faces0 boxes0) in Hin.
    apply in_map_iff in Hin. destruct Hin as [s [Hs Hin]].
    pose proof (find_none _ _ Hfind s Hin) as Hn. simpl in Hn.
    rewrite Hs, Hclose in Hn. discriminate.
Qed.

Lemma steady_fresh_no_check (self : t) (t0 now : Time) (boxes0 boxes : list BBox)
    (faces0 : list Faces) :
  steady self boxes0 boxes ->
  (now - t0 <= recheck_interval self)%Q ->
  needs_face_check (update self t0 boxes0 faces0) now boxes = false.
Proof.
  intros [Hlen Hclose] Hfresh. unfold needs_face_check.
  simpl last_person_count. rewrite Hlen, Nat.eqb_refl. simpl negb. cbv iota.
  destruct (length boxes0 =? 0)%nat; [reflexivity|].
  rewrite check_boxes_existsb.
  apply not_true_iff_false. intros Hex. apply existsb_exists in Hex.
  destruct Hex as [b [Hin Hforce]].
  rewrite List.Forall_forall in Hclose.
  destruct (first_match_after_update self t0 boxes0 faces0 b (Hclose b Hin))
    as [s [Hs Ht0]].
  unfold box_forces_recheck in Hforce. rewrite Hs, Ht0 in Hforce.
  simpl recheck_interval in Hforce.
  apply Qgtb_le in Hfresh. congruence.
Qed.

Lemma steady_stale_check (self : t) (t0 now : Time) (boxes0 boxes : list BBox)
    (faces0 : list Faces) :
  steady self boxes0 boxes -> boxes <> [] ->
  (recheck_interval self < now - t0)%Q ->
  needs_face_check (update self t0 boxes0 faces0) now boxes = true.
Proof.
  intros [Hlen Hclose] Hne Hstale. unfold needs_face_check.
  simpl last_person_count. rewrite Hlen, Nat.eqb_refl. simpl negb. cbv iota.
  destruct boxes as [|b rest]; [congruence|].
  rewrite <- Hlen. simpl Nat.eqb. cbv iota.
  rewrite check_boxes_existsb. simpl existsb.
  apply Forall_cons_1 in Hclose. destruct Hclose as [Hb _].
  destruct (first_match_after_update self t0 boxes0 faces0 b Hb) as [s [Hs Ht0]].
  unfold box_forces_recheck at 1. rewrite Hs, Ht0. simpl recheck_interval.
  apply Qgtb_gt in Hstale. rewrite Hstale. reflexivity.
Qed.

(** The code's test on the squared distance is the test on the
    Euclidean distance. *)
Lemma sqrt_lt_iff (E t : R) :
  (0 <= E)%R -> ((sqrt E < t)%R <-> (0 < t)%R /\ (E < t * t)%R).
Proof.
  intros HE. pose proof (sqrt_pos E) as Hs. pose proof (sqrt_sqrt E HE) as Hss.
  split.
  - intros Hlt. split; [Lra.lra|]. rewrite <- Hss. Lra.nra.
  - intros [Ht HEt]. destruct (Rlt_le_dec (sqrt E) t) as [Hlt|Hge]; [exact Hlt|].
    exfalso. Lra.nra.
Qed.

Lemma Q2R_half (a b : Q) : Q2R ((a + b) / 2) = ((Q2R a + Q2R b) / 2)%R.
Proof.
  unfold Qdiv. rewrite Q2R_mult, Q2R_plus, Q2R_inv by discriminate.
  replace (Q2R 2) with 2%R by (unfold Q2R; simpl; Lra.lra). reflexivity.
Qed.

Lemma Q2R_bbox_distance_sq (b1 b2 : BBox) :
  Q2R (bbox_distance_sq b1 b2) =
  ((fst (centre b1) - fst (centre b2)) * (fst (centre b1) - fst (centre b2)) +
   (snd (centre b1) - snd (centre b2)) * (snd (centre b1) - snd (centre b2)))%R.
Proof.
  unfold bbox_distance_sq, centre. cbv zeta. cbn [fst snd].
  rewrite Q2R_plus, !Q2R_mult, !Q2R_minus, !Q2R_half. reflexivity.
Qed.

Lemma distance_below_within (thr : Q) (b1 b2 : BBox) :
  distance_below thr b1 b2 = true <-> within thr b1 b2.
Proof.
  unfold distance_below, within, euclidean_distance.
  rewrite <- Q2R_bbox_distance_sq.
  assert (Hnonneg : (0 <= Q2R (bbox_distance_sq b1 b2))%R).
  { rewrite Q2R_bbox_distance_sq.
    apply Rplus_le_le_0_compat;
      match goal with |- (0 <= ?x * ?x)%R => exact (Rle_0_sqr x) end. }
  rewrite (sqrt_lt_iff _ _ Hnonneg), andb_true_iff, !Qltb_lt.
  replace 0%R with (Q2R 0) by (unfold Q2R; simpl; Lra.lra).
  rewrite <- Q2R_mult. split.
  - intros [Hthr Hd]. split; apply Qlt_Rlt; assumption.
  - intros [Hthr Hd]. split; apply Rlt_Qlt; assumption.
Qed.

Lemma distance_below_not_within (thr : Q) (b1 b2 : BBox) :
  distance_below thr b1 b2 = false <-> ~ within thr b1 b2.
Proof. rewrite <- distance_below_within. symmetry. apply not_true_iff_false. Qed.

Lemma steady_still (self : t) (boxes0 boxes : list BBox) :
  steady self boxes0 boxes <-> still self boxes0 boxes.
Proof.
  unfold steady, still. apply and_iff_compat_l.
  rewrite !Forall_forall. apply forall_proper. intros b.
  apply imp_iff_compat_l. rewrite !Exists_exists.
  split; intros (b0 & Hin & Hb0); exists b0; (split; [exact Hin|]);
    apply distance_below_within; exact Hb0.
Qed.

(** [List.find] gives the first element that passes the test. *)
Lemma find_first {A : Type} (f : A -> bool) (l : list A) (x : A) :
  List.find f l = Some x <->
  exists pre post, l = pre ++ x :: post /\ f x = true /\ Forall (fun y => f y = false) pre.
Proof.
  induction l as [|a l IH]; simpl.
  - split; [discriminate|]. intros (pre & post & Hl & _). destruct pre; discriminate Hl.
  - destruct (f a) eqn:Ha.
    + split.
      * intros [= <-]. exists [], l. split; [reflexivity|]. split; [exact Ha|constructor].
      * intros (pre & post & Hl & Hx & Hpre). destruct pre as [|p pre].
        -- simpl in Hl. congruence.
        -- simpl in Hl. injection Hl as <- _. apply Forall_cons in Hpre. 
           destruct Hpre as [Hp _]. congruence.
    + rewrite IH. split.
      * intros (pre & post & -> & Hx & Hpre). exists (a :: pre), post.
        split; [reflexivity|]. split; [exact Hx|]. constructor; assumption.
      * intros (pre & post & Hl & Hx & Hpre). destruct pre as [|p pre].
        -- simpl in Hl. injection Hl as -> _. congruence.
        -- simpl in Hl. injection Hl as <- ->. apply Forall_cons in Hpre.
           exists pre, post. split; [reflexivity|]. split; [exact Hx|apply Hpre].
Qed.

Lemma find_none {A : Type} (f : A -> bool) (l : list A) :
  List.find f l = None <-> Forall (fun y => f y = false) l.
Proof.
  induction l as [|a l IH]; simpl; [split; [constructor|reflexivity]|].
  destruct (f a) eqn:Ha.
  - split; [discriminate|]. intros Hall. apply Forall_cons in Hall.
    destruct Hall as [Hfa _]. congruence.
  - rewrite IH. split; [intros Hall; constructor; assumption|].
    intros Hall. apply Forall_cons in Hall. apply Hall.
Qed.

Lemma first_match_is_first (self : t) (box : BBox) (s : Tracked) :
  first_match self box = Some s <-> is_first_match self box s.
Proof.
  unfold first_match, is_first_match. rewrite find_first.
  split; intros (pre & post & Hl & Hs & Hpre); exists pre, post;
    (split; [exact Hl|]); (split; [apply distance_below_within; exact Hs|]);
    (eapply Forall_impl; [exact Hpre|]); intros s' Hs'; cbv beta in *;
    apply distance_below_not_within; exact Hs'.
Qed.

Lemma first_match_unmatched (self : t) (box : BBox) :
  first_match self box = None <-> unmatched self box.
Proof.
  unfold first_match, unmatched. rewrite find_none.
  split; intros Hall; (eapply Forall_impl; [exact Hall|]); intros s' Hs'; cbv beta in *;
    apply distance_below_not_within; exact Hs'.
Qed.

Lemma box_forces_recheck_iff (self : t) (now : Time) (box : BBox) :
  box_forces_recheck self now box = true <-> forces_recheck self now box.
Proof.
  unfold box_forces_recheck, forces_recheck.
  destruct (first_match self box) as [s|] eqn:Hfirst.
  - rewrite Qgtb_gt. split.
    + intros Hstale. right. exists s. split; [apply first_match_is_first, Hfirst|exact Hstale].
    + intros [Hnone|(s' & Hs' & Hstale)].
      * apply first_match_unmatched in Hnone. congruence.
      * apply first_match_is_first in Hs'. congruence.
  - split; [|reflexivity]. intros _. left. apply first_match_unmatched, Hfirst.
Qed.

Lemma needs_face_check_executable (self : t) (now : Time) (boxes : list BBox) :
  needs_face_check self now boxes = spec_needs_recheck self now boxes.
Proof.
  unfold needs_face_check, spec_needs_recheck.
  destruct (negb _); [reflexivity|].
  destruct boxes as [|b rest]; [reflexivity|].
  simpl Nat.eqb. cbv iota. apply check_boxes_existsb.
Qed.




End TrackerFacts.

(** ** The activity log and its cooldown gate *)

Section LoggerFacts.
Import ActivityLogger.

Lemma get_cooldown_set_last_seen (self : t) (n name : string) (now : Time) :
  _get_cooldown (set_last_seen self n now) name = _get_cooldown self name.
Proof. reflexivity. Qed.

(** A call that the gate refuses returns [False] and does nothing. *)
Lemma log_detection_suppressed (self : t) (now : Time) (name : string)
    (frame : Image) (env : Env) :
  _should_log self now name = false ->
  log_detection self now name frame env = (Returned false, self, []).
Proof. intros H. unfold log_detection. rewrite H. reflexivity. Qed.

(** Once the gate lets a call through, the name is stamped whatever
    happens next. *)
Lemma log_detection_stamps (self : t) (now : Time) (name : string)
    (frame : Image) (env : Env) :
  _should_log self now name = true ->
  snd (fst (log_detection self now name frame env)) = set_last_seen self name now.
Proof.
  intros H. unfold log_detection. rewrite H. simpl.
  destruct (String.eqb name "Unknown"); [|reflexivity].
  destruct (save_raises env); reflexivity.
Qed.

(** A call that the gate lets through, with the snapshot saved, returns
    [True], appends one row and dispatches [alerts_due] alerts. *)
Lemma log_detection_logged (self : t) (now : Time) (name : string)
    (frame : Image) (env : Env) :
  _should_log self now name = true -> save_raises env = false ->
  exists tr,
    log_detection self now name frame env =
      (Returned true, set_last_seen self name now, tr) /\
    rows tr = [mkRow (stamp_of now) name
                 (if String.eqb name "Unknown"
                  then Some (_save_intruder self now) else None)] /\
    length (alerts tr) = alerts_due self name.
Proof.
  intros H Hsave. unfold log_detection, alerts_due. rewrite H, Hsave. simpl.
  destruct (String.eqb name "Unknown"); [|eexists; repeat split; reflexivity].
  destruct (notifier self); eexists; repeat split; reflexivity.
Qed.

(** After a stamp at [t1], the gate at [t2] opens exactly when more than
    the cooldown has passed. *)
Lemma should_log_after_stamp (self : t) (name : string) (t1 t2 : Time) :
  _should_log (set_last_seen self name t1) t2 name =
  Qgtb (t2 - t1)%Q (_get_cooldown self name).
Proof.
  unfold _should_log. simpl last_seen. rewrite lookup_insert_eq. reflexivity.
Qed.

(** A call that returned true went through the gate and did all of the
    above. *)
Lemma log_detection_true (self : t) (now : Time) (name : string)
    (frame : Image) (env : Env) :
  fst (fst (log_detection self now name frame env)) = Returned true ->
  _should_log self now name = true /\
  exists tr,
    log_detection self now name frame env =
      (Returned true, set_last_seen self name now, tr) /\
    rows tr = [mkRow (stamp_of now) name
                 (if String.eqb name "Unknown"
                  then Some (_save_intruder self now) else None)] /\
    length (alerts tr) = alerts_due self name.
Proof.
  intros Hret.
  assert (Hgate : _should_log self now name = true).
  { unfold log_detection in Hret.
    destruct (_should_log self now name); [reflexivity | discriminate Hret]. }
  split; [exact Hgate|].
  unfold log_detection, alerts_due in *. rewrite Hgate in *. simpl in *.
  destruct (String.eqb name "Unknown"); [|eexists; repeat split; reflexivity].
  destruct (save_raises env); [discriminate Hret|].
  destruct (notifier self); eexists; repeat split; reflexivity.
Qed.

(** What one call leaves behind, by how it ends. *)
Lemma log_detection_cases (self : t) (now : Time) (name : string)
    (frame : Image) (env : Env) :
  (_should_log self now name = false /\
   log_detection self now name frame env = (Returned false, self, [])) \/
  (_should_log self now name = true /\
   name = "Unknown" /\ save_raises env = true /\
   log_detection self now name frame env =
     (Raised, set_last_seen self name now, [])) \/
  (_should_log self now name = true /\
   (name = "Unknown" -> save_raises env = false) /\
   exists tr,
     log_detection self now name frame env =
       (Returned true, set_last_seen self name now, tr) /\
     rows tr = [row_of self (mkDetection now name frame env)] /\
     length (alerts tr) = alerts_due self name /\
     snapshots tr = if String.eqb name "Unknown"
                    then [_save_intruder self now] else []).
Proof.
  unfold log_detection.
  destruct (_should_log self now name) eqn:Hgate; simpl; [|left; split; reflexivity].
  right. destruct (String.eqb name "Unknown") eqn:Hname.
  - apply String.eqb_eq in Hname. subst name.
    destruct (save_raises env) eqn:Hraise.
    + left. repeat split.
    + right. split; [reflexivity|]. split; [reflexivity|].
      eexists. split; [reflexivity|].
      unfold row_of, alerts_due, rows, alerts, snapshots. simpl.
      destruct (notifier self); simpl; repeat split.
  - right. split; [reflexivity|]. split.
    + intros ->. discriminate Hname.
    + eexists. split; [reflexivity|].
      unfold row_of, alerts_due, rows, alerts, snapshots. simpl.
      rewrite Hname. repeat split.
Qed.




(** C9. On every logged event (a call that passes the gate) the name is
    stamped with the time of the call before any external call is made:
    the stamp is in place even when the first external call, the snapshot
    save, raises.  The alert sink is invoked only for ["Unknown"].  When
    the snapshot is saved the row is appended and the call returns true
    whatever the alert request comes to (delivered, refused, or an
    exception inside [send_alert]), with the same resulting state; and a
    retry within the cooldown window is refused without any effect, so no
    second alert is dispatched in that window. *)
Theorem log_detection_stamp_first
    (self : t) (now : Time) (name : string) (frame : Image) (env : Env) :
  _should_log self now name = true ->
  let self' := snd (fst (log_detection self now name frame env)) in
  let tr := snd (log_detection self now name frame env) in
  last_seen self' !! name = Some now /\
  (alerts tr <> [] -> name = "Unknown") /\
  (save_raises env = false ->
     fst (fst (log_detection self now name frame env)) = Returned true /\
     rows tr = [mkRow (stamp_of now) name
                  (if String.eqb name "Unknown"
                   then Some (_save_intruder self now) else None)] /\
     forall (exists' : bool) (post : Http),
       let env' := mkEnv false exists' post in
       fst (log_detection self now name frame env') = (Returned true, self') /\
       rows (snd (log_detection self now name frame env')) = rows tr) /\
  (forall (now' : Time) (frame' : Image) (env' : Env),
     (now' - now <= _get_cooldown self name)%Q ->
     log_detection self' now' name frame' env' = (Returned false, self', [])).
Proof.
  intros Hgate self' tr.
  assert (Hself' : self' = set_last_seen self name now).
  { apply log_detection_stamps, Hgate. }
  split; [|split; [|split]].
  - rewrite Hself'. simpl. apply lookup_insert_eq.
  - unfold tr, log_detection. rewrite Hgate. simpl.
    destruct (String.eqb name "Unknown") eqn:E.
    + intros _. apply String.eqb_eq, E.
    + simpl. congruence.
  - intros Hsave.
    destruct (log_detection_logged self now name frame env Hgate Hsave)
      as (tr0 & E0 & R0 & _).
    assert (Htr : tr = tr0) by (unfold tr; rewrite E0; reflexivity).
    rewrite E0, Htr, R0. split; [reflexivity | split; [reflexivity|]].
    intros exists' post env'.
    destruct (log_detection_logged self now name frame env' Hgate eq_refl)
      as (tr1 & E1 & R1 & _).
    rewrite E1, Hself'. split; [reflexivity | exact R1].
  - intros now' frame' env' Hin. apply log_detection_suppressed.
    rewrite Hself', should_log_after_stamp. apply Qgtb_le, Hin.
Qed.

(** An ["Unknown"] detection whose alert request raises: stamped, logged,
    and refused when retried 5 s later. *)
Lemma log_detection_stamp_first_witness :
  last_seen (snd (fst (log_detection with_bot 100 "Unknown" 1
                         (mkEnv false true HttpRaised)))) !! "Unknown"
    = Some 100%Q /\
  rows (snd (log_detection with_bot 100 "Unknown" 1 (mkEnv false true HttpRaised)))
    = [mkRow 100 "Unknown" (Some (IntruderSnapshot "intruders" 100))] /\
  log_detection (snd (fst (log_detection with_bot 100 "Unknown" 1
                             (mkEnv false true HttpRaised))))
      105 "Unknown" 1 (mkEnv false true HttpRaised)
    = (Returned false,
       snd (fst (log_detection with_bot 100 "Unknown" 1
                   (mkEnv false true HttpRaised))), []).
Proof.
  destruct (log_detection_stamp_first with_bot 100 "Unknown" 1
              (mkEnv false true HttpRaised) eq_refl) as (H1 & _ & H3 & H4).
  split; [exact H1|]. split.
  - destruct (H3 eq_refl) as (_ & Hrows & _). exact Hrows.
  - apply H4. vm_compute. congruence.
Defined.

End LoggerFacts.

(** ** The recording session *)

Section RecorderFacts.
Import VideoRecorder.

(** [consistent] holds at the start and every method keeps it. *)
Lemma consistent_init : consistent init.
Proof. intros H. discriminate H. Qed.

Lemma consistent_start (self : t) (now : Time) (size : Z * Z) :
  consistent self -> consistent (snd (fst (start self now size))).
Proof.
  intros Hc. unfold start. destruct (recording self) eqn:E; simpl.
  - exact Hc.
  - intros _. eexists. split; reflexivity.
Qed.

Lemma consistent_stop (self : t) : consistent (snd (fst (stop self))).
Proof.
  unfold stop. destruct (recording self) eqn:E; simpl.
  - intros H. discriminate H.
  - intros H. congruence.
Qed.

Lemma consistent_write_frame (self : t) (frame : Image) :
  consistent self -> consistent (write_frame self frame).
Proof.
  intros Hc. unfold write_frame.
  destruct (recording self) eqn:E; [|exact Hc].
  destruct (writer self) as [w|] eqn:W; [|exact Hc].
  intros _. destruct (Hc E) as [w' [Hw Hf]].
  assert (w' = w) by congruence. subst w'.
  eexists. split; [reflexivity | exact Hf].
Qed.

Lemma consistent_acknowledge (self : t) (now : Time) :
  consistent self -> consistent (acknowledge_reminder self now).
Proof. intros Hc. exact Hc. Qed.

Lemma stop_idle (self : t) :
  recording self = false -> stop self = (None, self, []).
Proof. intros H. unfold stop. rewrite H. reflexivity. Qed.

Lemma stop_clears (self : t) : recording (snd (fst (stop self))) = false.
Proof.
  unfold stop. destruct (recording self) eqn:E; simpl; [reflexivity | exact E].
Qed.

Lemma stop_releases_once (self : t) : length (snd (stop self)) <= 1.
Proof.
  unfold stop. destruct (recording self); simpl; [|lia].
  destruct (writer self); simpl; lia.
Qed.

(** *** The reminder loop *)

(** The five ways a pass can go. *)
Lemma reminder_pass_cases (self : t) (now : Time) :
  (recording self = false /\ _reminder_pass self now = (PassExit, self, [])) \/
  (recording self = true /\ last_reminder_time self = None /\
   _reminder_pass self now = (PassCrash, self, [])) \/
  (exists last, recording self = true /\ last_reminder_time self = Some last /\
     Qgeb (now - last)%Q (interval_of self) = false /\
     _reminder_pass self now = (PassOn, self, [])) \/
  (exists last, recording self = true /\ last_reminder_time self = Some last /\
     Qgeb (now - last)%Q (interval_of self) = true /\
     (reminder_count self + 1 < max_reminders)%Z /\
     _reminder_pass self now =
       (PassOn, count_reminder self now,
        if on_reminder self
        then [(now, Reminder (reminder_count self + 1)
                      (get_duration self now / 60)%Q)]
        else [])) \/
  (exists last, recording self = true /\ last_reminder_time self = Some last /\
     Qgeb (now - last)%Q (interval_of self) = true /\
     (max_reminders <= reminder_count self + 1)%Z /\
     _reminder_pass self now =
       (PassExit, snd (fst (stop (count_reminder self now))),
        (if on_auto_stop self then [(now, AutoStop)] else []) ++
        map (fun e => (now, e)) (snd (stop (count_reminder self now))))).
Proof.
  unfold _reminder_pass, interval_of.
  destruct (recording self) eqn:Hrec; simpl; [|left; split; reflexivity].
  right. destruct (last_reminder_time self) as [last|] eqn:Hlast;
    [|left; repeat split; reflexivity].
  right.
  destruct (Qgeb _ _) eqn:Hdue;
    [|left; exists last; split; [|split; [|split]]; auto].
  right. simpl reminder_count.
  destruct (Z.geb_spec (reminder_count self + 1) max_reminders) as [Hmax|Hmax].
  - right. exists last. split; [reflexivity|]. split; [reflexivity|].
    split; [exact Hdue|]. split; [lia|].
    destruct (stop (count_reminder self now)) as [[r stopped] released] eqn:Hstop.
    reflexivity.
  - left. exists last. split; [reflexivity|]. split; [reflexivity|].
    split; [exact Hdue|]. split; [lia|].
    unfold get_duration. simpl. rewrite Hrec. reflexivity.
Qed.

Lemma consistent_pass (self : t) (now : Time) :
  consistent self -> consistent (snd (fst (_reminder_pass self now))).
Proof.
  intros Hc.
  destruct (reminder_pass_cases self now)
    as [[_ Hpass]|[(_ & _ & Hpass)|[(l & _ & _ & _ & Hpass)
       |[(l & _ & _ & _ & _ & Hpass)|(l & _ & _ & _ & _ & Hpass)]]]];
    rewrite Hpass; simpl; try exact Hc.
  apply consistent_stop.
Qed.

(** C5. [stop] is idempotent.  With no session active it returns nothing
    and changes nothing.  With a session active (and its writer open, as
    [start] leaves it) it releases the writer, returns the path of the
    file and clears the recording state.  Hence, from any state, the
    second of two calls in a row finds no session, returns nothing and
    changes nothing, and the two calls release a writer at most once.
    The same holds when one of the two calls is the timer's: a pass of
    the reminder loop after a [stop] leaves the loop without touching
    anything, and a [stop] after the pass that auto-stopped returns
    nothing. *)
Theorem stop_idempotent (self : t) :
  (recording self = false -> stop self = (None, self, [])) /\
  (recording self = true -> consistent self ->
     exists w, writer self = Some w /\
       fst (fst (stop self)) = Some (w_file w) /\
       snd (stop self) = [Released w] /\
       recording (snd (fst (stop self))) = false /\
       writer (snd (fst (stop self))) = None /\
       current_file (snd (fst (stop self))) = None /\
       frame_count (snd (fst (stop self))) = 0%Z /\
       start_time (snd (fst (stop self))) = None) /\
  recording (snd (fst (stop self))) = false /\
  stop (snd (fst (stop self))) = (None, snd (fst (stop self)), []) /\
  length (snd (stop self) ++ snd (stop (snd (fst (stop self))))) <= 1 /\
  (forall now : Time,
     _reminder_pass (snd (fst (stop self))) now =
       (PassExit, snd (fst (stop self)), [])) /\
  (forall now : Time,
     fst (fst (_reminder_pass self now)) = PassExit ->
     stop (snd (fst (_reminder_pass self now))) =
       (None, snd (fst (_reminder_pass self now)), [])).
Proof.
  split; [|split; [|split; [|split; [|split; [|split]]]]].
  - apply stop_idle.
  - intros H Hc. destruct (Hc H) as [w [Hw Hf]]. exists w.
    unfold stop. rewrite H, Hw, Hf. simpl. repeat split.
  - apply stop_clears.
  - apply stop_idle, stop_clears.
  - rewrite (stop_idle _ (stop_clears self)). simpl. rewrite app_nil_r.
    apply stop_releases_once.
  - intros now. unfold _reminder_pass. rewrite stop_clears. reflexivity.
  - intros now Hexit. apply stop_idle.
    destruct (reminder_pass_cases self now)
      as [[Hr Hpass]|[(_ & _ & Hpass)|[(l & _ & _ & _ & Hpass)
         |[(l & _ & _ & _ & _ & Hpass)|(l & _ & _ & _ & _ & Hpass)]]]];
      rewrite Hpass in *; simpl in *; try discriminate.
    + exact Hr.
    + apply stop_clears.
Qed.

(** A session started at time 100 and stopped twice. *)
Lemma stop_idempotent_witness :
  exists w, writer (snd (fst (start init 100 (640, 480)%Z))) = Some w /\
    fst (fst (stop (snd (fst (start init 100 (640, 480)%Z))))) = Some (w_file w) /\
    snd (stop (snd (fst (start init 100 (640, 480)%Z)))) = [Released w].
Proof.
  destruct (proj1 (proj2 (stop_idempotent (snd (fst (start init 100 (640, 480)%Z)))))
              eq_refl (consistent_start init 100%Q (640, 480)%Z consistent_init))
    as (w & Hw & Hres & Hrel & _).
  exists w. split; [exact Hw | split; [exact Hres | exact Hrel]].
Defined.

Lemma firings_app (tr1 tr2 : list (Time * Effect)) :
  firings (tr1 ++ tr2) = firings tr1 ++ firings tr2.
Proof. apply omap_app. Qed.

Lemma firings_released (self : t) (now : Time) :
  firings (map (fun e => (now, e)) (snd (stop self))) = [].
Proof.
  unfold stop. destruct (recording self); [|reflexivity].
  destruct (writer self); reflexivity.
Qed.

(** The loop fires as the specification says, from any state of an
    active session with both callbacks set. *)
Lemma reminder_loop_firings (polls : list Time) :
  forall (self : t) (last : Time),
    recording self = true -> last_reminder_time self = Some last ->
    on_reminder self = true -> on_auto_stop self = true ->
    firings (snd (_reminder_loop self polls)) =
    spec_firings last (reminder_count self) polls.
Proof.
  induction polls as [|now rest IH]; intros self last Hrec Hlast Hrem Hauto;
    [reflexivity|].
  simpl.
  destruct (reminder_pass_cases self now)
    as [[Hr _]|[(_ & Hl & _)|[(l & _ & Hl & Hdue & Hpass)
       |[(l & _ & Hl & Hdue & Hmax & Hpass)|(l & _ & Hl & Hdue & Hmax & Hpass)]]]];
    try congruence.
  - assert (l = last) by congruence. subst l.
    unfold interval_of in Hdue. rewrite Hpass, Hdue.
    specialize (IH self last Hrec Hlast Hrem Hauto).
    destruct (_reminder_loop self rest) as [[e s'] tr']. exact IH.
  - assert (l = last) by congruence. subst l.
    unfold interval_of in Hdue. rewrite Hpass, Hdue, Hrem.
    destruct (Z.geb_spec (reminder_count self + 1) max_reminders) as [?|_]; [lia|].
    specialize (IH (count_reminder self now) now Hrec eq_refl Hrem Hauto).
    destruct (_reminder_loop (count_reminder self now) rest) as [[e s'] tr'].
    simpl in *. rewrite IH. reflexivity.
  - assert (l = last) by congruence. subst l.
    unfold interval_of in Hdue. rewrite Hpass, Hdue, Hauto.
    destruct (Z.geb_spec (reminder_count self + 1) max_reminders) as [_|?]; [|lia].
    simpl snd. change (firings ((now, AutoStop) :: ?l)) with ((now, StopRecording) :: firings l).
    rewrite firings_released. reflexivity.
Qed.

(** Before the interval has elapsed the loop only sleeps. *)
Lemma reminder_loop_quiet (polls : list Time) (self : t) (last : Time) :
  recording self = true -> last_reminder_time self = Some last ->
  Forall (fun tick => (tick - last < interval_of self)%Q) polls ->
  _reminder_loop self polls = (LoopAsleep, self, []).
Proof.
  intros Hrec Hlast Hall. induction Hall as [|now rest Hnow _ IH]; [reflexivity|].
  simpl.
  assert (Hpass : _reminder_pass self now = (PassOn, self, [])).
  { unfold _reminder_pass. rewrite Hrec, Hlast. simpl.
    apply Qgeb_lt in Hnow. unfold interval_of in Hnow. rewrite Hnow. reflexivity. }
  rewrite Hpass, IH. reflexivity.
Qed.

(** A thread still asleep after [pre] goes on with what follows. *)
Lemma reminder_loop_app (pre post : list Time) :
  forall (self s1 : t) (tr1 : list (Time * Effect)),
    _reminder_loop self pre = (LoopAsleep, s1, tr1) ->
    _reminder_loop self (pre ++ post) =
    (fst (fst (_reminder_loop s1 post)), snd (fst (_reminder_loop s1 post)),
     tr1 ++ snd (_reminder_loop s1 post)).
Proof.
  induction pre as [|now rest IH]; intros self s1 tr1 Hpre; simpl in *.
  - inversion Hpre; subst. destruct (_reminder_loop s1 post) as [[e s] tr].
    reflexivity.
  - destruct (_reminder_pass self now) as [[[| |] s'] tr']; try discriminate.
    destruct (_reminder_loop s' rest) as [[e s''] tr''] eqn:Hrest.
    inversion Hpre; subst.
    rewrite (IH s' s1 tr'' Hrest). simpl. rewrite app_assoc. reflexivity.
Qed.

Lemma spec_firings_kinds (polls : list Time) :
  forall (last : Time) (sent : Z),
    (0 <= sent < max_reminders)%Z ->
    map snd (spec_firings last sent polls) `prefix_of` kinds_from sent.
Proof.
  induction polls as [|now rest IH]; intros last sent Hsent; simpl.
  - apply prefix_nil.
  - destruct (Qgeb _ _); [|apply IH, Hsent].
    destruct (Z.geb_spec (sent + 1) max_reminders) as [Hmax|Hmax].
    + assert (sent = 2%Z) by (unfold max_reminders in *; lia). subst sent.
      exists []. reflexivity.
    + assert (Hcases : sent = 0%Z \/ sent = 1%Z) by (unfold max_reminders in *; lia).
      assert (Hk : kinds_from sent = SendReminder (sent + 1) :: kinds_from (sent + 1)).
      { destruct Hcases; subst sent; reflexivity. }
      simpl. rewrite Hk. apply prefix_cons, IH. lia.
Qed.

Lemma reminders_of_firings (tr : list (Time * Effect)) :
  reminders tr =
  omap (fun f => match f with (at_, SendReminder n) => Some (at_, n) | _ => None end)
       (firings tr).
Proof.
  induction tr as [|[at_ e] tr IH]; [reflexivity|].
  destruct e; simpl; try exact IH. unfold reminders in *. simpl. rewrite IH.
  reflexivity.
Qed.

Lemma auto_stops_of_firings (tr : list (Time * Effect)) :
  auto_stops tr =
  omap (fun f => match f with (at_, StopRecording) => Some at_ | _ => None end)
       (firings tr).
Proof.
  induction tr as [|[at_ e] tr IH]; [reflexivity|].
  destruct e; simpl; try exact IH. unfold auto_stops in *. simpl. rewrite IH.
  reflexivity.
Qed.

(** A trace whose firings follow the full cycle has at most two
    reminders, one auto-stop and three firings. *)
Lemma cycle_bounds (tr : list (Time * Effect)) :
  map snd (firings tr) `prefix_of` kinds_from 0 ->
  length (reminders tr) <= 2 /\ length (auto_stops tr) <= 1 /\
  length (firings tr) <= 3.
Proof.
  rewrite reminders_of_firings, auto_stops_of_firings.
  intros [k Hk]. change (kinds_from 0) with
    [SendReminder 1; SendReminder 2; StopRecording] in Hk.
  destruct (firings tr) as [|[t1 k1] [|[t2 k2] [|[t3 k3] [|? ?]]]];
    simpl in Hk; inversion Hk; subst; simpl; lia.
Qed.

(** An auto-stop ends the loop and leaves no session. *)
Lemma reminder_loop_auto_stop (polls : list Time) :
  forall self : t,
    auto_stops (snd (_reminder_loop self polls)) <> [] ->
    fst (fst (_reminder_loop self polls)) = LoopExited /\
    recording (snd (fst (_reminder_loop self polls))) = false.
Proof.
  induction polls as [|now rest IH]; intros self; simpl; [congruence|].
  destruct (reminder_pass_cases self now)
    as [[_ Hpass]|[(_ & _ & Hpass)|[(l & _ & _ & _ & Hpass)
       |[(l & _ & _ & _ & _ & Hpass)|(l & _ & _ & _ & _ & Hpass)]]]];
    rewrite Hpass; simpl; try congruence.
  - specialize (IH self).
    destruct (_reminder_loop self rest) as [[e s'] tr']. exact IH.
  - specialize (IH (count_reminder self now)).
    destruct (_reminder_loop (count_reminder self now) rest) as [[e s'] tr'].
    simpl in *. intros Hne. apply IH. intros Hnil. apply Hne.
    unfold auto_stops in *. rewrite omap_app, Hnil.
    destruct (on_reminder self); reflexivity.
  - intros _. split; [reflexivity | apply stop_clears].
Qed.

(** *** The punctual schedule *)

(** Ticks given as offsets from [t0] fire at the same offsets. *)
Lemma spec_firings_shift (t0 : Time) (offs : list Q) :
  forall (last last' : Q) (sent : Z),
    (last == t0 + last')%Q ->
    spec_firings last sent (map (fun a => (t0 + a)%Q) offs) =
    map (fun f => ((t0 + fst f)%Q, snd f)) (spec_firings last' sent offs).
Proof.
  induction offs as [|a rest IH]; intros last last' sent Hlast; [reflexivity|].
  simpl.
  assert (Hd : Qgeb (t0 + a - last)
                 (if (sent =? 0)%Z then first_interval else followup_interval) =
               Qgeb (a - last')
                 (if (sent =? 0)%Z then first_interval else followup_interval)).
  { unfold Qgeb. apply Qleb_comp; [reflexivity|]. rewrite Hlast. ring. }
  rewrite Hd. destruct (Qgeb (a - last') _); [|apply IH, Hlast].
  destruct (sent + 1 >=? max_reminders)%Z; [reflexivity|].
  simpl. f_equal. apply IH. reflexivity.
Qed.

(** Nothing fires after the auto-stop. *)
Lemma spec_firings_stopped (l1 l2 : list Time) :
  forall (last : Time) (sent : Z) (at_ : Time) (before : list (Time * Firing)),
    spec_firings last sent l1 = before ++ [(at_, StopRecording)] ->
    spec_firings last sent (l1 ++ l2) = spec_firings last sent l1.
Proof.
  induction l1 as [|a rest IH]; intros last sent at_ before Hstop; simpl in *.
  - destruct before; discriminate.
  - destruct (Qgeb _ _); [|eapply IH, Hstop].
    destruct (sent + 1 >=? max_reminders)%Z; [reflexivity|].
    destruct before as [|b before]; [discriminate|].
    inversion Hstop; subst. f_equal. eapply IH. eassumption.
Qed.

Lemma punctual_polls_offsets (t0 : Time) (n : nat) :
  punctual_polls t0 n =
  map (fun a => (t0 + a)%Q)
      (map (fun k => (poll_interval * inject_Z (Z.of_nat k))%Q) (seq 1 n)).
Proof. unfold punctual_polls. rewrite map_map. reflexivity. Qed.

(** The cycle on the offsets 30, 60, ..., 4200. *)
Lemma spec_firings_offsets :
  spec_firings 0 0
    (map (fun k => (poll_interval * inject_Z (Z.of_nat k))%Q) (seq 1 140)) =
  [(600%Q, SendReminder 1); (2400%Q, SendReminder 2); (4200%Q, StopRecording)].
Proof. vm_compute. reflexivity. Qed.

(** With sleeps of exactly 30 s the cycle fires 600 s, 2400 s and 4200 s
    after [t0], however long the thread is given. *)
Lemma spec_firings_punctual (t0 : Time) (extra : nat) :
  spec_firings t0 0 (punctual_polls t0 (140 + extra)) =
  [((t0 + 600)%Q, SendReminder 1); ((t0 + 2400)%Q, SendReminder 2);
   ((t0 + 4200)%Q, StopRecording)].
Proof.
  rewrite punctual_polls_offsets, seq_app, map_app.
  rewrite (spec_firings_shift t0 _ t0 0%Q 0%Z) by ring.
  rewrite (spec_firings_stopped _ _ 0%Q 0%Z 4200%Q
             [(600%Q, SendReminder 1); (2400%Q, SendReminder 2)])
    by exact spec_firings_offsets.
  rewrite spec_firings_offsets. reflexivity.
Qed.

(** C3. A session started at [t0] and never acknowledged (both callbacks
    set).  Over any wake-up times the loop fires exactly as the
    specification says: the first reminder at the first tick at least
    [first_interval] (600 s) after [t0], each later firing at the first
    tick at least [followup_interval] (1800 s) after the previous one,
    and the firing that brings the count to [max_reminders] (3) is the
    auto-stop callback followed by [stop], not a reminder.  So the
    callbacks are a prefix of: reminder 1, reminder 2, auto-stop; at most
    [max_reminders - 1] reminders and three firings ever happen, and the
    auto-stop ends the loop with no session left.  Before 600 s have
    elapsed nothing happens; with sleeps of exactly 30 s the firings are
    at [t0 + 600], [t0 + 2400] and [t0 + 4200]. *)
Theorem reminder_loop_unacknowledged (self : t) (t0 : Time) (size : Z * Z) :
  recording self = false -> on_reminder self = true -> on_auto_stop self = true ->
  (forall polls : list Time,
     firings (snd (_reminder_loop (snd (fst (start self t0 size))) polls)) =
       spec_firings t0 0 polls /\
     map snd (firings (snd (_reminder_loop (snd (fst (start self t0 size))) polls)))
       `prefix_of` [SendReminder 1; SendReminder 2; StopRecording] /\
     length (reminders (snd (_reminder_loop (snd (fst (start self t0 size))) polls)))
       <= Z.to_nat (max_reminders - 1) /\
     length (auto_stops (snd (_reminder_loop (snd (fst (start self t0 size))) polls)))
       <= 1 /\
     length (firings (snd (_reminder_loop (snd (fst (start self t0 size))) polls)))
       <= 3 /\
     (auto_stops (snd (_reminder_loop (snd (fst (start self t0 size))) polls)) <> [] ->
      fst (fst (_reminder_loop (snd (fst (start self t0 size))) polls)) = LoopExited /\
      recording (snd (fst (_reminder_loop (snd (fst (start self t0 size))) polls)))
        = false)) /\
  (forall polls : list Time,
     Forall (fun tick => (tick - t0 < first_interval)%Q) polls ->
     _reminder_loop (snd (fst (start self t0 size))) polls =
       (LoopAsleep, snd (fst (start self t0 size)), [])) /\
  (forall extra : nat,
     firings (snd (_reminder_loop (snd (fst (start self t0 size)))
                     (punctual_polls t0 (140 + extra)))) =
     [((t0 + 600)%Q, SendReminder 1); ((t0 + 2400)%Q, SendReminder 2);
      ((t0 + 4200)%Q, StopRecording)]).
Proof.
  intros Hidle Hrem Hauto.
  assert (Hs : start self t0 size =
               (Some (RecordingFile (output_dir self) (stamp_of t0)),
                snd (fst (start self t0 size)), [ThreadStarted])).
  { unfold start. rewrite Hidle. reflexivity. }
  set (session := snd (fst (start self t0 size))) in *.
  assert (Hrec : recording session = true).
  { unfold session, start. rewrite Hidle. reflexivity. }
  assert (Hlast : last_reminder_time session = Some t0).
  { unfold session, start. rewrite Hidle. reflexivity. }
  assert (Hcount : reminder_count session = 0%Z).
  { unfold session, start. rewrite Hidle. reflexivity. }
  assert (Hrem' : on_reminder session = true).
  { unfold session, start. rewrite Hidle. exact Hrem. }
  assert (Hauto' : on_auto_stop session = true).
  { unfold session, start. rewrite Hidle. exact Hauto. }
  assert (Hspec : forall polls,
            firings (snd (_reminder_loop session polls)) = spec_firings t0 0 polls).
  { intros polls. rewrite <- Hcount.
    apply reminder_loop_firings; assumption. }
  split; [|split].
  - intros polls.
    assert (Hkinds : map snd (firings (snd (_reminder_loop session polls)))
                       `prefix_of` kinds_from 0).
    { rewrite Hspec. apply spec_firings_kinds. unfold max_reminders. lia. }
    destruct (cycle_bounds _ Hkinds) as (Hr & Ha & Hf).
    split; [apply Hspec|]. split; [exact Hkinds|].
    split; [exact Hr|]. split; [exact Ha|]. split; [exact Hf|].
    apply reminder_loop_auto_stop.
  - intros polls Hall. apply (reminder_loop_quiet polls session t0 Hrec Hlast).
    unfold interval_of. rewrite Hcount. exact Hall.
  - intros extra. rewrite Hspec. apply spec_firings_punctual.
Qed.

(** The session of a wired recorder started at time 1000: silent for the
    first 19 wake-ups, and through with its cycle after 140. *)
Lemma reminder_loop_unacknowledged_witness :
  _reminder_loop (snd (fst (start (wire init) 1000 (640, 480)%Z)))
    (punctual_polls 1000 19) =
    (LoopAsleep, snd (fst (start (wire init) 1000 (640, 480)%Z)), []) /\
  firings (snd (_reminder_loop (snd (fst (start (wire init) 1000 (640, 480)%Z)))
                  (punctual_polls 1000 (140 + 60)))) =
    [((1000 + 600)%Q, SendReminder 1); ((1000 + 2400)%Q, SendReminder 2);
     ((1000 + 4200)%Q, StopRecording)].
Proof.
  destruct (reminder_loop_unacknowledged (wire init) 1000 (640, 480)%Z
              eq_refl eq_refl eq_refl) as (_ & Hquiet & Hpunctual).
  split.
  - apply Hquiet. unfold punctual_polls. simpl.
    repeat constructor; vm_compute; reflexivity.
  - apply Hpunctual.
Defined.

(** C6. Acknowledging while recording sets [reminder_count] to 0 and
    [last_reminder_time] to the time of the acknowledgment, whatever they
    were, and leaves the session itself alone.  From then on the loop
    fires as a fresh cycle counted from the acknowledgment: it only
    sleeps while less than [first_interval] has elapsed since the
    acknowledgment, and the first wake-up at or after that fires
    reminder number 1. *)
Theorem acknowledge_resets_cycle (self : t) (t_ack : Time) :
  recording self = true -> on_reminder self = true -> on_auto_stop self = true ->
  reminder_count (acknowledge_reminder self t_ack) = 0%Z /\
  last_reminder_time (acknowledge_reminder self t_ack) = Some t_ack /\
  reminder_acknowledged (acknowledge_reminder self t_ack) = true /\
  recording (acknowledge_reminder self t_ack) = true /\
  start_time (acknowledge_reminder self t_ack) = start_time self /\
  current_file (acknowledge_reminder self t_ack) = current_file self /\
  frame_count (acknowledge_reminder self t_ack) = frame_count self /\
  (forall polls : list Time,
     Forall (fun tick => (tick - t_ack < first_interval)%Q) polls ->
     _reminder_loop (acknowledge_reminder self t_ack) polls =
       (LoopAsleep, acknowledge_reminder self t_ack, [])) /\
  (forall polls : list Time,
     firings (snd (_reminder_loop (acknowledge_reminder self t_ack) polls)) =
       spec_firings t_ack 0 polls) /\
  (forall (quiet : list Time) (tick : Time),
     Forall (fun p => (p - t_ack < first_interval)%Q) quiet ->
     (first_interval <= tick - t_ack)%Q ->
     snd (_reminder_loop (acknowledge_reminder self t_ack) (quiet ++ [tick])) =
       [(tick, Reminder 1 (get_duration self tick / 60)%Q)]).
Proof.
  intros Hrec Hrem Hauto.
  set (acked := acknowledge_reminder self t_ack).
  assert (Hquiet : forall polls,
            Forall (fun tick => (tick - t_ack < first_interval)%Q) polls ->
            _reminder_loop acked polls = (LoopAsleep, acked, [])).
  { intros polls Hall. apply (reminder_loop_quiet polls acked t_ack Hrec eq_refl).
    exact Hall. }
  repeat (split; [reflexivity|]). split; [exact Hrec|].
  repeat (split; [reflexivity|]). split; [exact Hquiet|]. split.
  - intros polls.
    apply (reminder_loop_firings polls acked t_ack Hrec eq_refl Hrem Hauto).
  - intros quiet tick Hall Hdue.
    rewrite (reminder_loop_app quiet [tick] acked acked [] (Hquiet quiet Hall)).
    simpl. unfold _reminder_pass. simpl. rewrite Hrec. simpl.
    apply Qgeb_ge in Hdue. rewrite Hdue. simpl. rewrite Hrem.
    unfold get_duration. simpl. rewrite Hrec. reflexivity.
Qed.

(** A session started at 1000, reminded twice, acknowledged at 4000: the
    wake-up at 4590 is silent, the one at 4600 sends reminder number 1. *)
Lemma acknowledge_resets_cycle_witness :
  snd (_reminder_loop
         (acknowledge_reminder
            (snd (fst (_reminder_loop (snd (fst (start (wire init) 1000 (640, 480)%Z)))
                         (punctual_polls 1000 100))))
            4000)
         ([4590%Q] ++ [4600%Q])) =
  [(4600%Q,
    Reminder 1
      (get_duration
         (snd (fst (_reminder_loop (snd (fst (start (wire init) 1000 (640, 480)%Z)))
                      (punctual_polls 1000 100))))
         4600 / 60)%Q)].
Proof.
  destruct (acknowledge_resets_cycle
              (snd (fst (_reminder_loop (snd (fst (start (wire init) 1000 (640, 480)%Z)))
                           (punctual_polls 1000 100))))
              4000 eq_refl eq_refl eq_refl) as (_ & _ & _ & _ & _ & _ & _ & _ & _ & Hfire).
  apply Hfire.
  - constructor; [vm_compute; reflexivity | constructor].
  - vm_compute. congruence.
Defined.

End RecorderFacts.

(** ** The command router *)

Section BotFacts.
Import TelegramBot.
Context {H : Type}.
Variable cb : Callbacks H.

Lemma registrations_wire (calls : list TelegramNotifier.Call) :
  registrations (map Wire calls) = [].
Proof. induction calls as [|c calls IH]; [reflexivity | exact IH]. Qed.

Lemma registrations_say (self : t) (env : Env) (text : Message) :
  registrations (say self env text) = [].
Proof. apply registrations_wire. Qed.

Lemma writes_wire (calls : list TelegramNotifier.Call) :
  writes (map Wire calls) = [].
Proof. induction calls as [|c calls IH]; [reflexivity | exact IH]. Qed.

Lemma writes_say (self : t) (env : Env) (text : Message) :
  writes (say self env text) = [].
Proof. apply writes_wire. Qed.

Lemma dispatches_wire (calls : list TelegramNotifier.Call) :
  dispatches (map Wire calls) = [].
Proof. induction calls as [|c calls IH]; [reflexivity | exact IH]. Qed.

Lemma dispatches_say (self : t) (env : Env) (text : Message) :
  dispatches (say self env text) = [].
Proof. apply dispatches_wire. Qed.

(** Splitting on every test a handler makes. *)
Ltac split_handler :=
  repeat match goal with
         | |- context [match ?x with _ => _ end] => destruct x eqn:?
         end.

(** No command registers an identity: [on_add_face] is invoked, and a face
    image written, by [_handle_add_photo] only. *)
Lemma handle_command_registers_nothing (self : t) (host : H) (env : Env)
    (text : string) :
  registrations (snd (_handle_command cb self host env text)) = [] /\
  writes (snd (_handle_command cb self host env text)) = [].
Proof.
  unfold _handle_command. cbv zeta.
  split_handler; simpl snd; split;
    rewrite ?registrations_say, ?writes_say; try reflexivity;
    try apply registrations_say; try apply registrations_wire;
    try apply writes_say; try apply writes_wire.
Qed.

Lemma truthy_ne (x : string) : x <> "" -> PyStr.truthy x = true.
Proof.
  intros Hne. unfold PyStr.truthy. apply negb_true_iff, String.eqb_neq, Hne.
Qed.

(** C7. An update whose sender is not the authorized chat is dropped:
    [_handle_update] returns at once, the bot and the host are left as
    they were (no callback ran), and nothing is put on the wire.  In the
    polling loop such an update only moves the cursor past itself: the
    rest of the batch is handled as if it had not been there. *)
Theorem unauthorized_update_dropped (self : t) (host : H) (env : Env)
    (update : Update) :
  chat (message update) <> chat_id self ->
  _handle_update cb self host env update = (Returned, self, host, []) /\
  forall rest : list (Update * Env),
    poll_batch cb self host ((update, env) :: rest) =
    poll_batch cb (set_last_update_id self (update_id update + 1)) host rest.
Proof.
  intros Hchat.
  assert (Hdrop : _handle_update cb self host env update = (Returned, self, host, [])).
  { unfold _handle_update. apply String.eqb_neq in Hchat. rewrite Hchat. reflexivity. }
  split; [exact Hdrop|].
  intros rest. simpl. rewrite Hdrop.
  destruct (poll_batch cb _ host rest) as [[self' host'] tr']. reflexivity.
Qed.

(** What [_handle_add_photo] does when the file is fetched. *)
Lemma handle_add_photo_fetched (self : t) (host : H) (env : Env)
    (first : PhotoSize) (others : list PhotoSize) (name file_path img_data : string)
    (f : string -> Path -> H -> H) :
  pending_add_name self = Some name ->
  get_file env = FetchAnswer (Some file_path) -> file_path <> "" ->
  download env = Downloaded img_data -> write_raises env = false ->
  on_add_face cb = Some f ->
  exists tr,
    _handle_add_photo cb self host env (first :: others) =
      (Returned, set_pending_add_name self None,
       f name (KnownFaceFile Config.known_faces_dir name) host, tr) /\
    registrations tr = [name] /\
    writes tr = [KnownFaceFile Config.known_faces_dir name].
Proof.
  intros Hpending Hfetch Hpath Hdown Hwrite Hcb. unfold _handle_add_photo.
  rewrite Hpending, Hfetch, (truthy_ne _ Hpath), Hdown, Hwrite, Hcb. simpl negb. cbv iota.
  eexists. split; [reflexivity|]. split.
  - unfold registrations. rewrite !omap_app.
    fold (registrations (say (set_pending_add_name self None) env (MsgFaceAdded name))).
    rewrite registrations_say. reflexivity.
  - unfold writes. rewrite !omap_app.
    fold (writes (say (set_pending_add_name self None) env (MsgFaceAdded name))).
    rewrite writes_say. reflexivity.
Qed.

(** Whatever the fetch comes to, [_handle_add_photo] leaves the slot
    empty; when the fetch fails, or the image cannot be stored, it
    leaves the host alone and registers nothing. *)
Lemma handle_add_photo_clears (self : t) (host : H) (env : Env)
    (photos : list PhotoSize) :
  pending_add_name (snd (fst (fst (_handle_add_photo cb self host env photos)))) = None.
Proof.
  unfold _handle_add_photo. cbv zeta. split_handler; reflexivity.
Qed.

Lemma handle_add_photo_failed (self : t) (host : H) (env : Env)
    (photos : list PhotoSize) :
  fetch_failed env \/ store_failed env ->
  exists out tr,
    _handle_add_photo cb self host env photos =
      (out, set_pending_add_name self None, host, tr) /\
    registrations tr = [] /\ dispatches tr = [] /\ writes tr = [].
Proof.
  intros Hfail. unfold _handle_add_photo. cbv zeta.
  destruct photos as [|first others]; [do 2 eexists; repeat split|].
  assert (Hsaid : forall id text,
            registrations
              ([GetFile id] ++ say (set_pending_add_name self None) env text) = [] /\
            dispatches
              ([GetFile id] ++ say (set_pending_add_name self None) env text) = [] /\
            writes
              ([GetFile id] ++ say (set_pending_add_name self None) env text) = []).
  { intros id text.
    split; [apply registrations_say | split; [apply dispatches_say | apply writes_say]]. }
  destruct Hfail as [[Hf|[Hf|[Hf|[p [Hf Hd]]]]]|(p & img & Hf & Hp & Hd & Hw)];
    rewrite Hf.
  - do 2 eexists. repeat split.
  - do 2 eexists. split; [reflexivity | apply Hsaid].
  - simpl. do 2 eexists. split; [reflexivity | apply Hsaid].
  - destruct (negb (PyStr.truthy p)).
    + do 2 eexists. split; [reflexivity | apply Hsaid].
    + rewrite Hd. do 2 eexists. repeat split.
  - rewrite (truthy_ne _ Hp), Hd, Hw. simpl. do 2 eexists. repeat split.
Qed.

Lemma authorized_passes (self : t) (update : Update) :
  chat (message update) = chat_id self ->
  negb (String.eqb (chat (message update)) (chat_id self)) = false.
Proof. intros Hchat. rewrite Hchat, String.eqb_refl. reflexivity. Qed.

(** A naming command sets the slot, whatever it held. *)
Lemma naming_sets_pending (self : t) (host : H) (env : Env) (update : Update)
    (c arg : string) :
  chat (message update) = chat_id self ->
  photo (message update) = [] ->
  PyStr.startswith (PyStr.strip (text (message update))) "/" = true ->
  PyStr.split1 (PyStr.strip (text (message update))) = [c; arg] ->
  PyStr.before_at (PyStr.lower c) = "/add" -> arg <> "" ->
  _handle_update cb self host env update =
    (Returned, set_pending_add_name self (Some arg), host,
     say (set_pending_add_name self (Some arg)) env (MsgSendPhotoFor arg)).
Proof.
  intros Hchat Hphoto Hslash Hsplit Hcmd Harg.
  unfold _handle_update. rewrite (authorized_passes _ _ Hchat), Hphoto. simpl.
  rewrite Hslash. unfold _handle_command. rewrite Hsplit, Hcmd. simpl.
  rewrite (truthy_ne _ Harg). reflexivity.
Qed.

(** A photo without an inline name, a name pending, the file fetched
    and stored. *)
Lemma pending_photo_registers (self : t) (host : H) (env : Env) (update : Update)
    (name file_path img_data : string) (f : string -> Path -> H -> H) :
  chat (message update) = chat_id self ->
  photo (message update) <> [] ->
  PyStr.startswith (PyStr.strip (caption (message update))) "/add " = false ->
  pending_add_name self = Some name -> name <> "" ->
  get_file env = FetchAnswer (Some file_path) -> file_path <> "" ->
  download env = Downloaded img_data -> write_raises env = false ->
  on_add_face cb = Some f ->
  exists tr,
    _handle_update cb self host env update =
      (Returned, set_pending_add_name self None,
       f name (KnownFaceFile Config.known_faces_dir name) host, tr) /\
    registrations tr = [name] /\
    writes tr = [KnownFaceFile Config.known_faces_dir name].
Proof.
  intros Hchat Hphoto Hcap Hpending Hname Hfetch Hpath Hdown Hwrite Hcb.
  destruct (photo (message update)) as [|first others] eqn:Ephoto; [congruence|].
  unfold _handle_update. rewrite (authorized_passes _ _ Hchat), Ephoto, Hcap.
  unfold pending_truthy. rewrite Hpending, (truthy_ne _ Hname).
  cbv beta iota zeta delta [has_photo andb].
  eapply handle_add_photo_fetched; eassumption.
Qed.

(** A photo whose caption names the identity, the file fetched and
    stored. *)
Lemma inline_photo_registers (self : t) (host : H) (env : Env) (update : Update)
    (name file_path img_data : string) (f : string -> Path -> H -> H) :
  chat (message update) = chat_id self ->
  photo (message update) <> [] ->
  PyStr.startswith (PyStr.strip (caption (message update))) "/add " = true ->
  inline_name (PyStr.strip (caption (message update))) = Some name -> name <> "" ->
  get_file env = FetchAnswer (Some file_path) -> file_path <> "" ->
  download env = Downloaded img_data -> write_raises env = false ->
  on_add_face cb = Some f ->
  exists tr,
    _handle_update cb self host env update =
      (Returned, set_pending_add_name self None,
       f name (KnownFaceFile Config.known_faces_dir name) host, tr) /\
    registrations tr = [name] /\
    writes tr = [KnownFaceFile Config.known_faces_dir name].
Proof.
  intros Hchat Hphoto Hcap Hinline Hname Hfetch Hpath Hdown Hwrite Hcb.
  destruct (photo (message update)) as [|first others] eqn:Ephoto; [congruence|].
  unfold _handle_update. rewrite (authorized_passes _ _ Hchat), Ephoto, Hcap, Hinline.
  rewrite (truthy_ne _ Hname).
  cbv beta iota zeta delta [has_photo andb].
  apply (handle_add_photo_fetched (set_pending_add_name self (Some name)) host env
           first others name file_path img_data f eq_refl Hfetch Hpath Hdown Hwrite Hcb).
Qed.

(** A photo with nothing pending and no inline name registers nothing;
    with no command in its text or caption it is ignored. *)
Lemma stray_photo (self : t) (host : H) (env : Env) (update : Update) :
  chat (message update) = chat_id self ->
  photo (message update) <> [] ->
  pending_truthy self = false ->
  PyStr.startswith (PyStr.strip (caption (message update))) "/add " = false ->
  registrations (snd (_handle_update cb self host env update)) = [] /\
  writes (snd (_handle_update cb self host env update)) = [] /\
  (PyStr.startswith (PyStr.strip (text (message update))) "/" = false ->
   PyStr.startswith (PyStr.strip (caption (message update))) "/" = false ->
   _handle_update cb self host env update = (Returned, self, host, [])).
Proof.
  intros Hchat Hphoto Hpending Hcap.
  destruct (photo (message update)) as [|first others] eqn:Ephoto; [congruence|].
  unfold _handle_update.
  rewrite (authorized_passes _ _ Hchat), Ephoto, Hcap, Hpending.
  cbv beta iota zeta delta [has_photo andb]. split; [|split].
  - destruct (PyStr.startswith (PyStr.strip (text (message update))) "/");
      [apply handle_command_registers_nothing|].
    destruct (PyStr.startswith (PyStr.strip (caption (message update))) "/");
      [apply handle_command_registers_nothing | reflexivity].
  - destruct (PyStr.startswith (PyStr.strip (text (message update))) "/");
      [apply handle_command_registers_nothing|].
    destruct (PyStr.startswith (PyStr.strip (caption (message update))) "/");
      [apply handle_command_registers_nothing | reflexivity].
  - intros Htext Hcaption. rewrite Htext, Hcaption. reflexivity.
Qed.

(** A photo that is consumed (a name pending, or named by its caption)
    leaves the slot empty, however [_handle_add_photo] ends, and registers
    nothing when the fetch fails or the image cannot be stored. *)
Lemma consumed_photo (self : t) (host : H) (env : Env) (update : Update) :
  chat (message update) = chat_id self ->
  photo (message update) <> [] ->
  (PyStr.startswith (PyStr.strip (caption (message update))) "/add " = false /\
   pending_truthy self = true) \/
  (PyStr.startswith (PyStr.strip (caption (message update))) "/add " = true /\
   exists name, inline_name (PyStr.strip (caption (message update))) = Some name /\
                name <> "") ->
  pending_add_name (snd (fst (fst (_handle_update cb self host env update)))) = None /\
  (fetch_failed env \/ store_failed env ->
   exists out self' tr,
     _handle_update cb self host env update = (out, self', host, tr) /\
     pending_add_name self' = None /\
     registrations tr = [] /\ dispatches tr = [] /\ writes tr = []).
Proof.
  intros Hchat Hphoto Hcase.
  destruct (photo (message update)) as [|first others] eqn:Ephoto; [congruence|].
  unfold _handle_update. rewrite (authorized_passes _ _ Hchat), Ephoto.
  destruct Hcase as [[Hcap Hpending]|[Hcap (name & Hinline & Hname)]].
  - rewrite Hcap, Hpending. cbv beta iota zeta delta [has_photo andb].
    split; [apply handle_add_photo_clears|]. intros Hfail.
    destruct (handle_add_photo_failed self host env (first :: others) Hfail)
      as (out & tr & E & Hr). exists out, (set_pending_add_name self None), tr.
    split; [exact E|]. split; [reflexivity|exact Hr].
  - rewrite Hcap, Hinline, (truthy_ne _ Hname).
    cbv beta iota zeta delta [has_photo andb].
    split; [apply handle_add_photo_clears|]. intros Hfail.
    destruct (handle_add_photo_failed (set_pending_add_name self (Some name))
                host env (first :: others) Hfail)
      as (out & tr & E & Hr).
    exists out, (set_pending_add_name (set_pending_add_name self (Some name)) None), tr.
    split; [exact E|]. split; [reflexivity|exact Hr].
Qed.


Lemma not_command_not_add (x : string) :
  PyStr.startswith x "/" = false -> PyStr.startswith x "/add " = false.
Proof.
  unfold PyStr.startswith. destruct x as [|a x]; [reflexivity|].
  intros Hs. cbn [String.prefix] in *.
  destruct (Ascii.ascii_dec "/" a); [destruct x; discriminate Hs | reflexivity].
Qed.


End BotFacts.

(** ** The wired system *)

Section SystemFacts.
Import TelegramBot.

(** A [/stop] sent from another chat. *)
Lemma unauthorized_update_dropped_witness :
  _handle_update SecuritySystem.cbs init SecuritySystem.init (calm 5)
    (mkUpdate 7 (mkMsg "999" "/stop" "" [])) =
  (Returned, init, SecuritySystem.init, []).
Proof.
  apply (unauthorized_update_dropped SecuritySystem.cbs init SecuritySystem.init (calm 5)
           (mkUpdate 7 (mkMsg "999" "/stop" "" []))).
  vm_compute. congruence.
Defined.





(** A photo whose caption is itself [/add <name>] names the identity
    again each time it is sent: after a failed fetch, the same message
    sent again registers the name. *)
Example retry_with_inline_name :
  pending_add_name
    (snd (fst (fst (_handle_update SecuritySystem.cbs init SecuritySystem.init
                      (no_file 5) (photo_update 2 "/add Bob"))))) = None /\
  registrations
    (snd (_handle_update SecuritySystem.cbs init SecuritySystem.init
            (no_file 5) (photo_update 2 "/add Bob"))) = [] /\
  registrations
    (snd (_handle_update SecuritySystem.cbs init SecuritySystem.init
            (calm 9) (photo_update 2 "/add Bob"))) = ["Bob"].
Proof. vm_compute. repeat split. Qed.

(** C4, as amended.  [VideoRecorder.start] on an active session changes
    nothing (file, frame count, start time and reminder state stay as
    they are, no second session) and returns the path of the session
    already active, not nothing.  It is the record-start command that
    returns nothing then: [_on_record_start] leaves the system as it is
    and answers [None], on which the bot replies that a recording is
    already active.  [start] on an idle recorder opens a session on a
    file named by the time stamp, with no frame counted, the start time
    set, and the reminder state reset (count 0, last reminder now, not
    acknowledged). *)
Theorem start_while_recording :
  (forall (self : VideoRecorder.t) (now : Time) (size : Z * Z),
     VideoRecorder.recording self = true ->
     VideoRecorder.start self now size = (VideoRecorder.current_file self, self, [])) /\
  (forall (sys : SecuritySystem.t) (now : Time),
     VideoRecorder.recording (SecuritySystem.recorder sys) = true ->
     SecuritySystem._on_record_start now sys = (None, sys)) /\
  (forall (known : nat) (recs : list (string * Q)) (bot : t)
          (sys : SecuritySystem.t) (env : Env),
     VideoRecorder.recording (SecuritySystem.recorder sys) = true ->
     _handle_command (SecuritySystem.callbacks known recs) bot sys env "/record" =
       (Returned, bot, sys,
        [Dispatch OnRecordStart] ++ say bot env MsgAlreadyRecording)) /\
  (forall (self : VideoRecorder.t) (now : Time) (size : Z * Z),
     VideoRecorder.recording self = false ->
     exists session,
       VideoRecorder.start self now size =
         (Some (RecordingFile (VideoRecorder.output_dir self) (stamp_of now)),
          session, [VideoRecorder.ThreadStarted]) /\
       VideoRecorder.recording session = true /\
       VideoRecorder.current_file session =
         Some (RecordingFile (VideoRecorder.output_dir self) (stamp_of now)) /\
       VideoRecorder.writer session =
         Some (VideoRecorder.mkWriter
                 (RecordingFile (VideoRecorder.output_dir self) (stamp_of now))
                 size []) /\
       VideoRecorder.frame_count session = 0%Z /\
       VideoRecorder.start_time session = Some now /\
       VideoRecorder.reminder_count session = 0%Z /\
       VideoRecorder.last_reminder_time session = Some now /\
       VideoRecorder.reminder_acknowledged session = false).
Proof.
  split; [|split; [|split]].
  - intros self now size Hrec. unfold VideoRecorder.start. rewrite Hrec. reflexivity.
  - intros sys now Hrec. unfold SecuritySystem._on_record_start,
      VideoRecorder.is_recording. rewrite Hrec. reflexivity.
  - intros known recs bot sys env Hrec.
    unfold _handle_command.
    change (PyStr.split1 "/record") with ["/record"]. cbv beta iota zeta.
    change (PyStr.before_at (PyStr.lower "/record")) with "/record".
    simpl. unfold SecuritySystem._on_record_start, VideoRecorder.is_recording.
    rewrite Hrec. reflexivity.
  - intros self now size Hidle. unfold VideoRecorder.start. rewrite Hidle.
    eexists. repeat split.
Qed.

(** A session started at 100; a second [start] at 200. *)
Lemma start_while_recording_witness :
  VideoRecorder.start
    (snd (fst (VideoRecorder.start VideoRecorder.init 100 (640, 480)%Z)))
    200 (640, 480)%Z =
  (Some (RecordingFile "recordings" 100),
   snd (fst (VideoRecorder.start VideoRecorder.init 100 (640, 480)%Z)), []).
Proof.
  apply (proj1 start_while_recording
           (snd (fst (VideoRecorder.start VideoRecorder.init 100 (640, 480)%Z)))
           200%Q (640, 480)%Z).
  reflexivity.
Defined.

(** [start] on a session that is recording returns something: the path
    of that session. *)
Lemma start_while_recording_counterexample :
  VideoRecorder.recording
    (snd (fst (VideoRecorder.start VideoRecorder.init 100 (640, 480)%Z))) = true /\
  fst (fst (VideoRecorder.start
              (snd (fst (VideoRecorder.start VideoRecorder.init 100 (640, 480)%Z)))
              200 (640, 480)%Z)) =
    Some (RecordingFile "recordings" 100).
Proof. split; reflexivity. Qed.

End SystemFacts.

(** * Further properties of the code *)

(** ** The tracker: [update], [get_cached], [_bbox_distance] *)

Section TrackerMore.
Import PersonTracker.

(** The identity [update] stores for the box at index [i]: the first pair
    of the recognizer's answer for that index, when there is one. *)
Lemma new_entry_fields (now : Time) (faces : list Faces) (i : nat) (box : BBox) :
  bbox (new_entry now faces i box) = box /\
  last_check (new_entry now faces i box) = now /\
  name (new_entry now faces i box) = fst <$> (faces !! i ≫= head) /\
  face_loc (new_entry now faces i box) = snd <$> (faces !! i ≫= head).
Proof.
  unfold new_entry. destruct (faces !! i) as [[|[n loc] rest]|]; repeat split.
Qed.

(** X1.  [update] rebuilds the cache from its arguments alone: one slot per
    box, in order, holding that box, the time of the update and the first
    identity found for that index (none when the recognizer's answer is
    missing or empty); nothing of the previous cache survives, and
    [get_cached] lists the boxes back in order. *)
Theorem update_rebuilds_cache (self : t) (now : Time) (boxes : list BBox)
    (faces : list Faces) :
  last_person_count (update self now boxes faces) = length boxes /\
  length (tracked (update self now boxes faces)) = length boxes /\
  (forall (i : nat) (box : BBox),
     boxes !! i = Some box ->
     tracked (update self now boxes faces) !! i =
       Some {| bbox := box;
               name := fst <$> (faces !! i ≫= head);
               face_loc := snd <$> (faces !! i ≫= head);
               last_check := now |}) /\
  (forall other : t,
     tracked (update other now boxes faces) = tracked (update self now boxes faces)) /\
  map snd (get_cached (update self now boxes faces)) = boxes.
Proof.
  split; [reflexivity|]. split; [apply length_imap|]. split; [|split].
  - intros i box Hbox. simpl. rewrite list_lookup_imap, Hbox. simpl. f_equal.
    destruct (new_entry_fields now faces i box) as (Hb & Hl & Hn & Hf).
    destruct (new_entry now faces i box) as [b n f l]. simpl in *. congruence.
  - reflexivity.
  - unfold get_cached. rewrite map_map. simpl. apply map_bbox_imap.
Qed.

Lemma update_rebuilds_cache_witness :
  tracked (update init 100 [mkBBox 0 0 100 200; mkBBox 300 0 400 200]
             [[("asha", mkFaceLoc 10 60 50 20)]; []]) !! 1%nat =
  Some {| bbox := mkBBox 300 0 400 200; name := None; face_loc := None;
          last_check := 100 |}.
Proof.
  apply (proj1 (proj2 (proj2 (update_rebuilds_cache init 100
                                [mkBBox 0 0 100 200; mkBBox 300 0 400 200]
                                [[("asha", mkFaceLoc 10 60 50 20)]; []])))
           1%nat (mkBBox 300 0 400 200)).
  reflexivity.
Defined.

Lemma bbox_distance_sq_sym (a b : BBox) :
  (bbox_distance_sq a b == bbox_distance_sq b a)%Q.
Proof. unfold bbox_distance_sq. ring. Qed.

Lemma bbox_distance_sq_self (a : BBox) : (bbox_distance_sq a a == 0)%Q.
Proof. unfold bbox_distance_sq. ring. Qed.

Lemma bbox_distance_sq_nonneg (a b : BBox) : (0 <= bbox_distance_sq a b)%Q.
Proof.
  unfold bbox_distance_sq. cbv zeta.
  set (dx := ((bx1 a + bx2 a) / 2 - (bx1 b + bx2 b) / 2)%Q).
  set (dy := ((by1 a + by2 a) / 2 - (by1 b + by2 b) / 2)%Q).
  clearbody dx dy. nra.
Qed.

(** X2.  The test of [_bbox_distance] against the threshold does not depend
    on the order of the two boxes; a box is within any positive
    threshold of itself, and no box is within a threshold that is zero
    or negative. *)
Theorem distance_below_symmetric (thr : Q) (a b : BBox) :
  distance_below thr a b = distance_below thr b a /\
  ((0 < thr)%Q -> distance_below thr a a = true) /\
  ((thr <= 0)%Q -> distance_below thr a b = false).
Proof.
  unfold distance_below. split; [|split].
  - f_equal. unfold Qltb. f_equal. apply Qleb_comp; [reflexivity|].
    apply bbox_distance_sq_sym.
  - intros Hthr. apply andb_true_iff. split; [apply Qltb_lt, Hthr|].
    apply Qltb_lt. rewrite bbox_distance_sq_self. nra.
  - intros Hthr. apply andb_false_iff. left.
    apply not_true_iff_false. rewrite Qltb_lt. lra.
Qed.

Lemma distance_below_symmetric_witness :
  distance_below 50 (mkBBox 0 0 100 200) (mkBBox 0 0 100 200) = true /\
  distance_below 0 (mkBBox 0 0 100 200) (mkBBox 0 0 100 200) = false.
Proof.
  split.
  - apply (proj1 (proj2 (distance_below_symmetric 50 (mkBBox 0 0 100 200)
                           (mkBBox 0 0 100 200)))). reflexivity.
  - apply (proj2 (proj2 (distance_below_symmetric 0 (mkBBox 0 0 100 200)
                           (mkBBox 0 0 100 200)))). discriminate.
Defined.

Lemma scan_tracked_nonpositive (self : t) (now : Time) (box : BBox)
    (slots : list Tracked) :
  (move_threshold self <= 0)%Q ->
  scan_tracked self now box slots = ScanUnmatched.
Proof.
  intros Hthr. induction slots as [|s rest IH]; [reflexivity|]. simpl.
  unfold distance_below at 1.
  replace (Qltb 0 (move_threshold self)) with false; [exact IH|].
  symmetry. apply not_true_iff_false. rewrite Qltb_lt. lra.
Qed.

Lemma steady_same_boxes (self : t) (boxes : list BBox) :
  (0 < move_threshold self)%Q -> steady self boxes boxes.
Proof.
  intros Hthr. split; [reflexivity|]. apply Forall_forall. intros b Hb.
  apply Exists_exists. exists b. split; [exact Hb|].
  unfold distance_below. apply andb_true_iff. split; [apply Qltb_lt, Hthr|].
  apply Qltb_lt. rewrite bbox_distance_sq_self. nra.
Qed.

(** X3.  The sign of [move_threshold] decides whether the cache is ever used.
    With a positive threshold, the very frame that was just checked is
    not checked again as long as no more than [recheck_interval] has
    passed since the update.  With a threshold that is zero or negative
    no box ever matches a cached slot, so every frame in which a person
    is seen is checked, whatever the cache holds. *)
Theorem threshold_sign_decides_caching (self : t) (now : Time) (boxes : list BBox) :
  ((0 < move_threshold self)%Q ->
     forall (t0 : Time) (faces : list Faces),
       (now - t0 <= recheck_interval self)%Q ->
       needs_face_check (update self t0 boxes faces) now boxes = false) /\
  ((move_threshold self <= 0)%Q -> boxes <> [] ->
     needs_face_check self now boxes = true).
Proof.
  split.
  - intros Hthr t0 faces Hfresh.
    apply steady_fresh_no_check; [apply steady_same_boxes, Hthr|exact Hfresh].
  - intros Hthr Hne. unfold needs_face_check.
    destruct (negb (length boxes =? last_person_count self)%nat); [reflexivity|].
    destruct boxes as [|b rest]; [contradiction|]. simpl.
    rewrite scan_tracked_nonpositive by exact Hthr. reflexivity.
Qed.

Lemma threshold_sign_decides_caching_witness :
  needs_face_check (update init 100 [mkBBox 0 0 100 200] []) 104
    [mkBBox 0 0 100 200] = false /\
  needs_face_check
    (update (mk [] 0 0 5) 100 [mkBBox 0 0 100 200] []) 104
    [mkBBox 0 0 100 200] = true.
Proof.
  split.
  - apply (proj1 (threshold_sign_decides_caching init 104 [mkBBox 0 0 100 200]));
      [reflexivity|discriminate].
  - apply (proj2 (threshold_sign_decides_caching
                    (update (mk [] 0 0 5) 100 [mkBBox 0 0 100 200] []) 104
                    [mkBBox 0 0 100 200])); [discriminate|discriminate].
Defined.

Lemma process_frame_count (self : t) (f : Frame) :
  length (tracked self) = last_person_count self ->
  length (tracked (snd (process_frame self f))) =
  last_person_count (snd (process_frame self f)).
Proof.
  intros Hinv. unfold process_frame.
  destruct (needs_face_check self (f_check_at f) (f_boxes f)); simpl;
    [apply length_imap|exact Hinv].
Qed.

Lemma process_frames_count (fs : list Frame) :
  forall self : t,
    length (tracked self) = last_person_count self ->
    length (tracked (snd (process_frames self fs))) =
    last_person_count (snd (process_frames self fs)).
Proof.
  induction fs as [|f rest IH]; intros self Hinv; [exact Hinv|].
  simpl. pose proof (process_frame_count self f Hinv) as Hstep.
  destruct (process_frame self f) as [d self']. simpl in Hstep.
  specialize (IH self' Hstep).
  destruct (process_frames self' rest) as [ds self'']. exact IH.
Qed.

(** X4.  The number of people drives the decision.  A frame with another
    number of boxes than the last update saw is always checked; once a
    frame without boxes has gone through [process_frame], frames without
    boxes are not checked until somebody appears; and along any run that
    starts from a fresh tracker the cache holds as many slots as
    [last_person_count] says. *)
Theorem person_count_drives_recheck :
  (forall (self : t) (now : Time) (boxes : list BBox),
     length boxes <> last_person_count self ->
     needs_face_check self now boxes = true) /\
  (forall (self : t) (f : Frame) (now : Time),
     f_boxes f = [] ->
     needs_face_check (snd (process_frame self f)) now [] = false) /\
  (forall fs : list Frame,
     length (tracked (snd (process_frames init fs))) =
     last_person_count (snd (process_frames init fs))).
Proof.
  split; [|split].
  - intros self now boxes Hne. unfold needs_face_check.
    apply Nat.eqb_neq in Hne. rewrite Hne. reflexivity.
  - intros self f now Hempty. unfold process_frame, needs_face_check.
    rewrite Hempty. simpl.
    destruct (last_person_count self) as [|n] eqn:Hcount; simpl.
    + rewrite Hcount. reflexivity.
    + reflexivity.
  - intros fs. apply process_frames_count. reflexivity.
Qed.

Lemma person_count_drives_recheck_witness :
  needs_face_check (update init 100 [mkBBox 0 0 100 200] []) 101 [] = true /\
  needs_face_check
    (snd (process_frame (update init 100 [mkBBox 0 0 100 200] [])
            (mkFrame [] [] 101 101))) 102 [] = false.
Proof.
  split.
  - apply (proj1 person_count_drives_recheck). discriminate.
  - apply (proj1 (proj2 person_count_drives_recheck)). reflexivity.
Defined.

End TrackerMore.

(** ** The activity log over runs of any length *)

Section LoggerMore.
Import ActivityLogger.

Lemma should_log_other_name (self : t) (n name : string) (t0 t1 : Time) :
  n <> name ->
  _should_log (set_last_seen self n t0) t1 name = _should_log self t1 name.
Proof.
  intros Hne. unfold _should_log, set_last_seen. simpl.
  rewrite lookup_insert_ne by exact Hne. reflexivity.
Qed.

(** X5.  The gate keeps one clock per name: a call made for one name, however
    it ends, leaves the last reading and the decision of every other
    name as they were, and never changes the cooldowns, the directory or
    the notifier. *)
Theorem log_detection_other_names (self : t) (now : Time) (n : string)
    (frame : Image) (env : Env) :
  let self' := snd (fst (log_detection self now n frame env)) in
  (forall name : string, name <> n ->
     last_seen self' !! name = last_seen self !! name /\
     forall t1 : Time, _should_log self' t1 name = _should_log self t1 name) /\
  known_cooldown self' = known_cooldown self /\
  unknown_cooldown self' = unknown_cooldown self /\
  intruders_dir self' = intruders_dir self /\
  notifier self' = notifier self.
Proof.
  destruct (log_detection_cases self now n frame env)
    as [[_ Heq]|[(_ & _ & _ & Heq)|(_ & _ & tr & Heq & _)]];
    rewrite Heq; simpl.
  - split; [intros name _; split; reflexivity|repeat split].
  - split; [|repeat split]. intros name Hne. split.
    + apply lookup_insert_ne. congruence.
    + intros t1. apply should_log_other_name. congruence.
  - split; [|repeat split]. intros name Hne. split.
    + apply lookup_insert_ne. congruence.
    + intros t1. apply should_log_other_name. congruence.
Qed.

Lemma log_detection_other_names_witness :
  _should_log (snd (fst (log_detection with_bot 100 "Unknown" 1 calm))) 101 "asha" =
  _should_log with_bot 101 "asha".
Proof.
  apply (proj1 (log_detection_other_names with_bot 100 "Unknown" 1 calm) "asha").
  discriminate.
Defined.

Lemma rows_app (tr1 tr2 : list Effect) : rows (tr1 ++ tr2) = rows tr1 ++ rows tr2.
Proof. apply omap_app. Qed.

Lemma alerts_app (tr1 tr2 : list Effect) :
  alerts (tr1 ++ tr2) = alerts tr1 ++ alerts tr2.
Proof. apply omap_app. Qed.

Lemma snapshots_app (tr1 tr2 : list Effect) :
  snapshots (tr1 ++ tr2) = snapshots tr1 ++ snapshots tr2.
Proof. apply omap_app. Qed.

Lemma row_of_set_last_seen (self : t) (n : string) (now : Time) (d : Detection) :
  row_of (set_last_seen self n now) d = row_of self d.
Proof. reflexivity. Qed.

Lemma logged_rows_set_last_seen (self : t) (n : string) (now : Time)
    (ds : list Detection) (os : list Outcome) :
  logged_rows (set_last_seen self n now) ds os = logged_rows self ds os.
Proof.
  revert os. induction ds as [|d rest IH]; intros [|o os]; try reflexivity.
  simpl. rewrite IH. reflexivity.
Qed.

(** X6.  Over a run of any length the log holds exactly the calls that
    returned [True]: one row each, in order, stamped with the second of
    the call, with a snapshot path for ["Unknown"] and none for a known
    name.  Every call has an outcome; one snapshot is written per
    Unknown row, and one alert is dispatched per Unknown row when a
    notifier is attached, none otherwise. *)
Theorem log_detections_rows (ds : list Detection) :
  forall self : t,
    let os := fst (fst (log_detections self ds)) in
    let tr := snd (log_detections self ds) in
    length os = length ds /\
    rows tr = logged_rows self ds os /\
    length (snapshots tr) = length (unknown_rows (rows tr)) /\
    length (alerts tr) =
      match notifier self with
      | Some _ => length (unknown_rows (rows tr))
      | None => 0
      end.
Proof.
  induction ds as [|d rest IH]; intros self.
  - simpl. destruct (notifier self); repeat split.
  - simpl.
    pose proof (log_detection_cases self (d_at d) (d_name d) (d_frame d) (d_env d))
      as Hcases.
    pose proof (log_detection_other_names self (d_at d) (d_name d) (d_frame d) (d_env d))
      as Hframe.
    destruct (log_detection self (d_at d) (d_name d) (d_frame d) (d_env d))
      as [[o self'] tr] eqn:Hstep.
    specialize (IH self'). simpl in Hframe.
    destruct Hframe as (_ & _ & _ & _ & Hnot).
    destruct (log_detections self' rest) as [[os self''] tr'] eqn:Hrun.
    simpl in IH |- *. destruct IH as (Hlen & Hrows & Hsnaps & Halerts).
    rewrite rows_app, snapshots_app, alerts_app, !length_app.
    rewrite Hnot in Halerts.
    destruct Hcases as [[_ Heq]|[(_ & _ & _ & Heq)|(_ & _ & tr0 & Heq & Hr & Ha & Hs)]];
      inversion Heq; subst o self' tr.
    + simpl. split; [congruence|]. split; [exact Hrows|]. split; [exact Hsnaps|].
      exact Halerts.
    + simpl. split; [congruence|]. rewrite logged_rows_set_last_seen in Hrows.
      split; [exact Hrows|]. split; [exact Hsnaps|]. exact Halerts.
    + rewrite Hr, Ha, Hs. rewrite logged_rows_set_last_seen in Hrows.
      destruct d as [at_ n fr e]. simpl in *.
      split; [congruence|]. split; [rewrite Hrows; reflexivity|].
      unfold unknown_rows in *. simpl. unfold alerts_due.
      destruct (String.eqb n "Unknown"); simpl.
      * split; [congruence|]. destruct (notifier self); simpl; congruence.
      * split; [exact Hsnaps|]. destruct (notifier self); simpl; congruence.
Qed.

(** X7.  However long the run and however the calls for other names are
    interleaved, the calls made for one name that get past the gate are
    more than that name's cooldown apart, each measured from the one
    before it, and the first from the reading the logger held when the
    run began. *)
Theorem log_detections_spaced (name : string) (ds : list Detection) :
  forall self : t,
    spaced (_get_cooldown self name) (last_seen self !! name)
      (passing_times name ds (fst (fst (log_detections self ds)))).
Proof.
  induction ds as [|d rest IH]; intros self; [exact I|].
  simpl.
  pose proof (log_detection_cases self (d_at d) (d_name d) (d_frame d) (d_env d))
    as Hcases.
  destruct (log_detection self (d_at d) (d_name d) (d_frame d) (d_env d))
    as [[o self'] tr] eqn:Hstep.
  specialize (IH self').
  destruct (log_detections self' rest) as [[os self''] tr'] eqn:Hrun.
  simpl in IH |- *.
  assert (Hpass : forall prev : option Time,
            _should_log self (d_at d) (d_name d) = true ->
            d_name d = name ->
            self' = set_last_seen self (d_name d) (d_at d) ->
            spaced (_get_cooldown self name) (last_seen self !! name)
              (d_at d :: passing_times name rest os)).
  { intros _ Hgate Hname Hself. subst self'. rewrite Hname in *. simpl. split.
    - unfold _should_log in Hgate. destruct (last_seen self !! name) as [p|]; [|exact I].
      apply Qgtb_gt in Hgate. exact Hgate.
    - simpl in IH. rewrite lookup_insert_eq in IH. exact IH. }
  assert (Hskip : String.eqb (d_name d) name = false ->
            self' = self \/ self' = set_last_seen self (d_name d) (d_at d) ->
            spaced (_get_cooldown self name) (last_seen self !! name)
              (passing_times name rest os)).
  { intros Hname [Hself|Hself]; subst self'; [exact IH|].
    simpl in IH. apply String.eqb_neq in Hname.
    rewrite lookup_insert_ne in IH by exact Hname. exact IH. }
  destruct Hcases as [[_ Heq]|[(Hgate & _ & _ & Heq)|(Hgate & _ & tr0 & Heq & _)]];
    inversion Heq; subst o tr; simpl.
  - rewrite andb_false_r. subst self'. exact IH.
  - rewrite andb_true_r. destruct (String.eqb (d_name d) name) eqn:Hname.
    + apply String.eqb_eq in Hname. apply (Hpass None Hgate Hname). congruence.
    + apply Hskip; [reflexivity|right; congruence].
  - rewrite andb_true_r. destruct (String.eqb (d_name d) name) eqn:Hname.
    + apply String.eqb_eq in Hname. apply (Hpass None Hgate Hname). congruence.
    + apply Hskip; [reflexivity|right; congruence].
Qed.

Lemma Qfloor_gap (p q : Q) : (1 < q - p)%Q -> (Qfloor p < Qfloor q)%Z.
Proof.
  intros Hgap. destruct (Z_lt_le_dec (Qfloor p) (Qfloor q)) as [Hlt|Hle]; [exact Hlt|].
  exfalso.
  pose proof (Qfloor_le p) as Hp. pose proof (Qlt_floor q) as Hq.
  assert (Hinj : (inject_Z (Qfloor q + 1) <= inject_Z (Qfloor p + 1))%Q)
    by (rewrite <- Zle_Qle; lia).
  rewrite (inject_Z_plus (Qfloor p) 1) in Hinj.
  change (inject_Z 1) with 1%Q in Hinj. lra.
Qed.

(** The snapshots of a run lie in the logger's directory, carry stamps
    later than the second of the reading the logger held for ["Unknown"],
    and are pairwise different. *)
Lemma snapshots_fresh (ds : list Detection) :
  forall self : t,
    (1 <= unknown_cooldown self)%Q ->
    NoDup (snapshots (snd (log_detections self ds))) /\
    Forall (fun path =>
              exists z, path = IntruderSnapshot (intruders_dir self) z /\
                match last_seen self !! "Unknown" with
                | Some q => (Qfloor q < z)%Z
                | None => True
                end)
           (snapshots (snd (log_detections self ds))).
Proof.
  induction ds as [|d rest IH]; intros self Hcool.
  - simpl. split; constructor.
  - simpl.
    pose proof (log_detection_cases self (d_at d) (d_name d) (d_frame d) (d_env d))
      as Hcases.
    destruct (log_detection self (d_at d) (d_name d) (d_frame d) (d_env d))
      as [[o self'] tr] eqn:Hstep.
    specialize (IH self').
    destruct (log_detections self' rest) as [[os self''] tr'] eqn:Hrun.
    simpl in IH |- *. rewrite snapshots_app.
    assert (Hstamp : forall self0 : t,
              self0 = set_last_seen self (d_name d) (d_at d) ->
              _should_log self (d_at d) (d_name d) = true ->
              Forall (fun path =>
                  exists z, path = IntruderSnapshot (intruders_dir self0) z /\
                    match last_seen self0 !! "Unknown" with
                    | Some q => (Qfloor q < z)%Z
                    | None => True
                    end) (snapshots tr') ->
              Forall (fun path =>
                  exists z, path = IntruderSnapshot (intruders_dir self) z /\
                    (String.eqb (d_name d) "Unknown" = true -> (Qfloor (d_at d) < z)%Z) /\
                    match last_seen self !! "Unknown" with
                    | Some q => (Qfloor q < z)%Z
                    | None => True
                    end) (snapshots tr')).
    { intros self0 -> Hgate Hall. eapply Forall_impl; [exact Hall|].
      intros path (z & Hpath & Hz). exists z. split; [exact Hpath|]. simpl in Hz.
      destruct (String.eqb (d_name d) "Unknown") eqn:Hname.
      - apply String.eqb_eq in Hname. rewrite Hname in *.
        rewrite lookup_insert_eq in Hz. split; [intros _; exact Hz|].
        unfold _should_log in Hgate.
        destruct (last_seen self !! "Unknown") as [q|]; [|exact I].
        apply Qgtb_gt in Hgate. unfold _get_cooldown in Hgate. simpl in Hgate.
        assert (Hgap : (1 < d_at d - q)%Q) by lra.
        apply Qfloor_gap in Hgap. lia.
      - apply String.eqb_neq in Hname.
        rewrite lookup_insert_ne in Hz by exact Hname.
        split; [discriminate|exact Hz]. }
    destruct Hcases as [[_ Heq]|[(Hgate & _ & _ & Heq)|(Hgate & _ & tr0 & Heq & _ & _ & Hs)]];
      inversion Heq; subst o tr.
    + subst self'. simpl. apply IH, Hcool.
    + simpl. destruct (IH ltac:(subst self'; exact Hcool)) as [Hnd Hall].
      split; [exact Hnd|].
      eapply Forall_impl; [apply (Hstamp self' ltac:(congruence) Hgate Hall)|].
      intros path (z & Hpath & _ & Hz). exists z. split; assumption.
    + destruct (IH ltac:(subst self'; exact Hcool)) as [Hnd Hall].
      pose proof (Hstamp self' ltac:(congruence) Hgate Hall) as Hall'.
      rewrite Hs. destruct (String.eqb (d_name d) "Unknown") eqn:Hname; simpl.
      * split.
        -- constructor; [|exact Hnd]. intros Hin.
           rewrite Forall_forall in Hall'.
           destruct (Hall' _ Hin) as (z & Hpath & Hz & _).
           unfold _save_intruder, stamp_of in Hpath. inversion Hpath. subst z.
           specialize (Hz eq_refl). lia.
        -- constructor.
           ++ exists (stamp_of (d_at d)). split; [reflexivity|].
              apply String.eqb_eq in Hname. rewrite Hname in Hgate.
              unfold _should_log in Hgate.
              destruct (last_seen self !! "Unknown") as [q|]; [|exact I].
              apply Qgtb_gt in Hgate. unfold _get_cooldown in Hgate. simpl in Hgate.
              apply Qfloor_gap. lra.
           ++ eapply Forall_impl; [exact Hall'|].
              intros path (z & Hpath & _ & Hz). exists z. split; assumption.
      * split; [exact Hnd|].
        eapply Forall_impl; [exact Hall'|].
        intros path (z & Hpath & _ & Hz). exists z. split; assumption.
Qed.

(** X8.  With an Unknown cooldown of at least one second, no two snapshots of
    a run share a file name: no intruder image is overwritten by a later
    one, whatever the order of the clock readings and wherever
    [_save_intruder] raised in between. *)
Theorem snapshots_never_overwritten (self : t) (ds : list Detection) :
  (1 <= unknown_cooldown self)%Q ->
  NoDup (snapshots (snd (log_detections self ds))).
Proof. intros Hcool. apply (snapshots_fresh ds self Hcool). Qed.

Lemma snapshots_never_overwritten_witness :
  NoDup (snapshots (snd (log_detections with_bot
           [mkDetection 0 "Unknown" 1 calm; mkDetection 10 "Unknown" 2 calm;
            mkDetection 31 "Unknown" 3 calm]))).
Proof.
  apply (snapshots_never_overwritten with_bot
           [mkDetection 0 "Unknown" 1 calm; mkDetection 10 "Unknown" 2 calm;
            mkDetection 31 "Unknown" 3 calm]).
  discriminate.
Defined.

End LoggerMore.

(** ** The recorder: frames, acknowledgments and the list of files *)

Section RecorderMore.
Import VideoRecorder.

Lemma write_frames_idle (frames : list Image) (self : t) :
  recording self = false -> write_frames self frames = self.
Proof.
  intros Hidle. induction frames as [|f rest IH]; [reflexivity|].
  unfold write_frames in *. simpl. unfold write_frame at 2. rewrite Hidle. exact IH.
Qed.

(** Frames written one after the other to a session in progress. *)
Lemma write_frames_recording (frames : list Image) :
  forall (self : t) (w : Writer),
    recording self = true -> writer self = Some w ->
    write_frames self frames =
    {| output_dir := output_dir self;
       writer := Some (mkWriter (w_file w) (w_frame_size w) (w_frames w ++ frames));
       recording := true;
       current_file := current_file self;
       frame_count := frame_count self + Z.of_nat (length frames);
       start_time := start_time self;
       reminder_acknowledged := reminder_acknowledged self;
       last_reminder_time := last_reminder_time self;
       reminder_count := reminder_count self;
       on_reminder := on_reminder self;
       on_auto_stop := on_auto_stop self |}.
Proof.
  induction frames as [|f rest IH]; intros self w Hrec Hw.
  - unfold write_frames. simpl. rewrite app_nil_r, Z.add_0_r.
    destruct self, w. simpl in *. congruence.
  - unfold write_frames in *. cbn [fold_left].
    rewrite (IH (write_frame self f) (mkWriter (w_file w) (w_frame_size w) (w_frames w ++ [f]))).
    + unfold write_frame. rewrite Hrec, Hw. simpl.
      rewrite <- app_assoc. simpl. f_equal. lia.
    + unfold write_frame. rewrite Hrec, Hw. reflexivity.
    + unfold write_frame. rewrite Hrec, Hw. reflexivity.
Qed.

(** The session [start] opens on an idle recorder, after [frames] were
    written to it. *)
Lemma write_frames_started (self : t) (now : Time) (size : Z * Z) (frames : list Image) :
  recording self = false ->
  let file := RecordingFile (output_dir self) (stamp_of now) in
  let session := write_frames (snd (fst (start self now size))) frames in
  recording session = true /\
  writer session = Some (mkWriter file size frames) /\
  current_file session = Some file /\
  frame_count session = Z.of_nat (length frames).
Proof.
  intros Hidle file session. subst session. unfold start. rewrite Hidle.
  cbv iota. cbn [fst snd]. fold file.
  set (started := {| output_dir := output_dir self;
                     writer := Some (mkWriter file size []);
                     recording := true;
                     current_file := Some file;
                     frame_count := 0;
                     start_time := Some now;
                     reminder_acknowledged := false;
                     last_reminder_time := Some now;
                     reminder_count := 0;
                     on_reminder := on_reminder self;
                     on_auto_stop := on_auto_stop self |}).
  rewrite (write_frames_recording frames started (mkWriter file size [])
             eq_refl eq_refl).
  repeat split.
Qed.

(** X9.  A session from start to stop.  Frames handed to an idle recorder are
    dropped and leave no mark on the session that follows.  [start] on an
    idle recorder names the file by the second of the clock reading; the
    frames written during the session are counted one by one; [stop]
    returns that file name and releases a writer that holds exactly
    those frames, in the order written, at the size the session was
    opened with; frames handed over after [stop] are dropped again. *)
Theorem session_round_trip (self : t) (now : Time) (size : Z * Z)
    (before frames after : list Image) :
  recording self = false ->
  let file := RecordingFile (output_dir self) (stamp_of now) in
  let started := snd (fst (start (write_frames self before) now size)) in
  let stopped := snd (fst (stop (write_frames started frames))) in
  start (write_frames self before) now size = start self now size /\
  fst (fst (start self now size)) = Some file /\
  frame_count (write_frames started frames) = Z.of_nat (length frames) /\
  fst (fst (stop (write_frames started frames))) = Some file /\
  snd (stop (write_frames started frames)) = [Released (mkWriter file size frames)] /\
  write_frames stopped after = stopped /\
  is_recording stopped = false.
Proof.
  intros Hidle file started stopped.
  assert (Hbefore : write_frames self before = self)
    by (apply write_frames_idle, Hidle).
  subst started stopped. rewrite Hbefore.
  unfold start. rewrite Hidle. cbv iota. cbn [fst snd]. fold file.
  set (started := {| output_dir := output_dir self;
                     writer := Some (mkWriter file size []);
                     recording := true;
                     current_file := Some file;
                     frame_count := 0;
                     start_time := Some now;
                     reminder_acknowledged := false;
                     last_reminder_time := Some now;
                     reminder_count := 0;
                     on_reminder := on_reminder self;
                     on_auto_stop := on_auto_stop self |}).
  rewrite (write_frames_recording frames started (mkWriter file size [])
             eq_refl eq_refl).
  split; [reflexivity|]. split; [reflexivity|]. split; [reflexivity|].
  split; [reflexivity|]. split; [reflexivity|].
  split; [|reflexivity]. apply write_frames_idle. reflexivity.
Qed.

Lemma session_round_trip_witness :
  snd (stop (write_frames (snd (fst (start (write_frames init [1; 2]) 100 (640, 480)%Z)))
               [3; 4; 5])) =
  [Released (mkWriter (RecordingFile "recordings" 100) (640, 480)%Z [3; 4; 5])].
Proof.
  apply (session_round_trip init 100 (640, 480)%Z [1; 2] [3; 4; 5] [6]).
  reflexivity.
Defined.

(** X10.  An acknowledgment that arrives while nothing is being recorded does
    not open a session and is forgotten by the next one: [start] then
    gives the same file, the same state and the same effects as if the
    acknowledgment had never been made, so the first reminder of that
    session is not postponed; and [stop] still has nothing to stop. *)
Theorem acknowledge_idle_forgotten (self : t) (ack now : Time) (size : Z * Z) :
  recording self = false ->
  is_recording (acknowledge_reminder self ack) = false /\
  start (acknowledge_reminder self ack) now size = start self now size /\
  fst (fst (stop (acknowledge_reminder self ack))) = None /\
  snd (stop (acknowledge_reminder self ack)) = [] /\
  forall polls : list Time,
    snd (_reminder_loop (snd (fst (start (acknowledge_reminder self ack) now size))) polls) =
    snd (_reminder_loop (snd (fst (start self now size))) polls).
Proof.
  intros Hidle.
  assert (Hstart : start (acknowledge_reminder self ack) now size = start self now size).
  { unfold start, acknowledge_reminder. simpl. rewrite Hidle. reflexivity. }
  split; [exact Hidle|]. split; [exact Hstart|].
  split; [|split].
  - unfold stop, acknowledge_reminder. simpl. rewrite Hidle. reflexivity.
  - unfold stop, acknowledge_reminder. simpl. rewrite Hidle. reflexivity.
  - intros polls. rewrite Hstart. reflexivity.
Qed.

Lemma acknowledge_idle_forgotten_witness :
  start (acknowledge_reminder init 50) 100 (640, 480)%Z = start init 100 (640, 480)%Z.
Proof.
  apply (acknowledge_idle_forgotten init 50 100 (640, 480)%Z). reflexivity.
Defined.

Lemma ascii_compare_trans (a b c : ascii) (o : comparison) :
  Ascii.compare a b = o -> Ascii.compare b c = o -> Ascii.compare a c = o.
Proof.
  unfold Ascii.compare. intros Hab Hbc. destruct o.
  - apply N.compare_eq_iff in Hab, Hbc. apply N.compare_eq_iff. congruence.
  - rewrite N.compare_lt_iff in *. lia.
  - rewrite N.compare_gt_iff in *. lia.
Qed.

Lemma string_compare_le_trans (s1 : string) :
  forall s2 s3 : string,
    String.compare s1 s2 <> Gt -> String.compare s2 s3 <> Gt ->
    String.compare s1 s3 <> Gt.
Proof.
  induction s1 as [|a s1 IH]; intros [|b s2] [|c s3]; simpl; try congruence.
  destruct (Ascii.compare a b) eqn:Hab; try congruence;
    destruct (Ascii.compare b c) eqn:Hbc; try congruence; intros H12 H23.
  - rewrite (ascii_compare_trans a b c Eq Hab Hbc). apply (IH s2 s3 H12 H23).
  - apply Ascii.compare_eq_iff in Hab. subst b. rewrite Hbc. discriminate.
  - apply Ascii.compare_eq_iff in Hbc. subst c. rewrite Hab. discriminate.
  - rewrite (ascii_compare_trans a b c Lt Hab Hbc). discriminate.
Qed.

Lemma string_leb_trans (s1 s2 s3 : string) :
  String.leb s1 s2 = true -> String.leb s2 s3 = true -> String.leb s1 s3 = true.
Proof.
  unfold String.leb. intros H12 H23.
  pose proof (string_compare_le_trans s1 s2 s3) as Htrans.
  destruct (String.compare s1 s2); try discriminate;
    destruct (String.compare s2 s3); try discriminate;
    destruct (String.compare s1 s3); try reflexivity;
    exfalso; apply Htrans; congruence.
Qed.

Lemma name_ge_trans : Transitive name_ge.
Proof. intros a b c Hab Hbc. unfold name_ge in *. eapply string_leb_trans; eassumption. Qed.

Lemma name_ge_total : Total name_ge.
Proof. intros a b. unfold name_ge. destruct (String.leb_total (fst a) (fst b)); auto. Qed.

Lemma StronglySorted_filter {A : Type} (R : relation A) (f : A -> bool) (l : list A) :
  StronglySorted R l -> StronglySorted R (List.filter f l).
Proof.
  induction 1 as [|a l Hs IH Hall]; simpl; [constructor|].
  destruct (f a); [|exact IH]. constructor; [exact IH|].
  rewrite Forall_forall in *. intros x Hx.
  apply Hall. apply list_elem_of_In in Hx. apply filter_In in Hx.
  apply list_elem_of_In. tauto.
Qed.

(** X11.  What [list_recordings] returns.  Without the directory the list is
    empty.  Otherwise it holds the entries of the directory whose name
    ends in [.mp4], every one of them and nothing else, each with its
    size in mebibytes, ordered by name from the greatest down: any entry
    of the list is no smaller than all those after it.  File names being
    time stamps, the latest recording comes first. *)
Theorem list_recordings_sorted (entries : list (string * Z)) :
  list_recordings None = [] /\
  StronglySorted (fun a b => String.leb (fst b) (fst a) = true)
    (list_recordings (Some entries)) /\
  Forall (fun r => PyStr.endswith (fst r) ".mp4" = true)
    (list_recordings (Some entries)) /\
  list_recordings (Some entries) ≡ₚ
    map (fun e => (fst e, (inject_Z (snd e) / (1024 * 1024))%Q))
        (List.filter (fun e => PyStr.endswith (fst e) ".mp4") entries).
Proof.
  split; [reflexivity|]. unfold list_recordings. split; [|split].
  - apply (StronglySorted_fmap _ name_ge); [intros x y Hxy; exact Hxy|].
    apply StronglySorted_filter.
    apply (@StronglySorted_merge_sort _ name_ge _ name_ge_trans name_ge_total).
  - apply Forall_forall. intros r Hr.
    apply list_elem_of_In in Hr. apply in_map_iff in Hr.
    destruct Hr as (e & <- & He). apply filter_In in He. simpl. tauto.
  - apply Permutation_map. 
    pose proof (merge_sort_Permutation name_ge entries) as Hperm.
    clear -Hperm. induction Hperm; simpl.
    + constructor.
    + destruct (PyStr.endswith (fst x) ".mp4"); [constructor|]; assumption.
    + destruct (PyStr.endswith (fst x) ".mp4"), (PyStr.endswith (fst y) ".mp4");
        try constructor; reflexivity.
    + etransitivity; eassumption.
Qed.

End RecorderMore.

(** ** Requests on the wire *)

Section NotifierMore.
Import TelegramNotifier.

(** X12.  What reaches the wire.  A disabled bot sends nothing and reports
    failure.  An enabled bot attempts exactly one request per message or
    alert, never a photo and a text for the same alert: the photo
    request when a path is given and the file exists (the file is taken
    to open), the text request otherwise.  [send_message] reports
    success as soon as the request did not raise, even when the server
    refused it; [send_alert] with a photo reports what the server
    answered. *)
Theorem alert_puts_one_request (enabled : bool) (message : Message)
    (image_path : option Path) (image_exists : bool) (post : Http) :
  length (snd (send_alert enabled message image_path image_exists post)) =
    (if enabled then 1 else 0) /\
  length (snd (send_message enabled message post)) = (if enabled then 1 else 0) /\
  (enabled = false ->
     send_alert enabled message image_path image_exists post = (false, []) /\
     send_message enabled message post = (false, [])) /\
  (enabled = true ->
     snd (send_alert enabled message image_path image_exists post) =
       match image_path with
       | Some p => if image_exists then [SendPhoto message p] else [SendMessage message]
       | None => [SendMessage message]
       end /\
     fst (send_alert enabled message image_path image_exists post) =
       match post with
       | HttpRaised => false
       | HttpResponse ok =>
           match image_path with
           | Some _ => if image_exists then ok else true
           | None => true
           end
       end /\
     fst (send_message enabled message post) =
       match post with HttpRaised => false | HttpResponse _ => true end).
Proof.
  unfold send_alert, send_message, _send_photo.
  destruct enabled, image_path as [p|], image_exists, post as [|ok]; simpl;
    repeat split; intros; try discriminate; reflexivity.
Qed.

Lemma alert_puts_one_request_witness :
  snd (send_alert true (MsgIntruderAlert 100) (Some (IntruderSnapshot "intruders" 100))
         false (HttpResponse true)) =
  [SendMessage (MsgIntruderAlert 100)].
Proof.
  apply (alert_puts_one_request true (MsgIntruderAlert 100)
           (Some (IntruderSnapshot "intruders" 100)) false (HttpResponse true)).
  reflexivity.
Defined.

End NotifierMore.

(** ** The command router over every command and every batch *)

Section BotMore.
Import TelegramBot.

Context {H : Type}.
Variable cb : Callbacks H.

Ltac handler_cases :=
  repeat match goal with
         | |- context [match ?x with _ => _ end] => destruct x eqn:?
         end.

Lemma send_message_length (enabled : bool) (message : Message) (post : Http) :
  length (snd (TelegramNotifier.send_message enabled message post)) =
  if enabled then 1 else 0.
Proof. destruct enabled, post; reflexivity. Qed.

Lemma send_alert_length (enabled : bool) (message : Message)
    (image_path : option Path) (image_exists : bool) (post : Http) :
  length (snd (TelegramNotifier.send_alert enabled message image_path image_exists post)) =
  if enabled then 1 else 0.
Proof. destruct enabled, image_path, image_exists, post; reflexivity. Qed.

(** A text that starts with a slash has a first word. *)
Lemma split1_of_command (text : string) :
  PyStr.startswith text "/" = true ->
  exists part0 parts, PyStr.split1 text = part0 :: parts.
Proof.
  unfold PyStr.startswith. destruct text as [|a x]; [discriminate|].
  cbn [String.prefix]. destruct (Ascii.ascii_dec "/" a) as [<-|]; [|discriminate].
  intros _. unfold PyStr.split1. cbn [list_ascii_of_string].
  change (PyStr.drop_while PyStr.is_space ("/"%char :: list_ascii_of_string x))
    with ("/"%char :: list_ascii_of_string x).
  cbv zeta.
  change (PyStr.take_while (fun a => negb (PyStr.is_space a))
            ("/"%char :: list_ascii_of_string x))
    with ("/"%char :: PyStr.take_while (fun a => negb (PyStr.is_space a))
                        (list_ascii_of_string x)).
  cbv iota.
  destruct (PyStr.drop_while PyStr.is_space
              (PyStr.drop_while (fun a => negb (PyStr.is_space a))
                 ("/"%char :: list_ascii_of_string x))); eauto.
Qed.

Lemma wires_app (tr1 tr2 : list Effect) : wires (tr1 ++ tr2) = wires tr1 ++ wires tr2.
Proof. apply omap_app. Qed.

Lemma wires_wire (calls : list TelegramNotifier.Call) : wires (map Wire calls) = calls.
Proof. induction calls as [|c calls IH]; [reflexivity|]. simpl. f_equal. exact IH. Qed.

(** X13.  Every command is answered, and answered once.  Whatever the command
    word, known or not, whichever callbacks are set and whatever they
    return, [_handle_command] returns and attempts exactly one request
    when the bot is enabled, none when it is disabled. *)
Theorem command_answered_once (self : t) (host : H) (env : Env) (text : string) :
  PyStr.startswith text "/" = true ->
  fst (fst (fst (_handle_command cb self host env text))) = Returned /\
  length (wires (snd (_handle_command cb self host env text))) =
    (if enabled self then 1 else 0).
Proof.
  intros Hslash. destruct (split1_of_command text Hslash) as (part0 & parts & Hsplit).
  pose proof (fun m p e => send_alert_length (enabled self) m p e (post env)) as Halert.
  pose proof (fun m => send_message_length (enabled self) m (post env)) as Hmsg.
  remember (if enabled self then 1 else 0) as n eqn:Hn. clear Hn.
  unfold _handle_command. rewrite Hsplit. cbv zeta. unfold say.
  handler_cases; cbn [fst snd enabled set_surveillance_active set_pending_add_name];
    (split; [reflexivity|]);
    rewrite ?wires_app, ?wires_wire, ?length_app, ?Hmsg, ?Halert; reflexivity.
Qed.

Lemma handle_command_identity (self : t) (host : H) (env : Env) (text : string) :
  same_identity (snd (fst (fst (_handle_command cb self host env text)))) self /\
  last_update_id (snd (fst (fst (_handle_command cb self host env text)))) =
    last_update_id self.
Proof.
  unfold _handle_command, same_identity. cbv zeta.
  handler_cases; simpl; repeat split.
Qed.

Lemma handle_add_photo_identity (self : t) (host : H) (env : Env)
    (photos : list PhotoSize) :
  same_identity (snd (fst (fst (_handle_add_photo cb self host env photos)))) self /\
  last_update_id (snd (fst (fst (_handle_add_photo cb self host env photos)))) =
    last_update_id self.
Proof.
  unfold _handle_add_photo, same_identity. cbv zeta.
  handler_cases; simpl; repeat split.
Qed.

Lemma handle_update_identity (self : t) (host : H) (env : Env) (update : Update) :
  same_identity (snd (fst (fst (_handle_update cb self host env update)))) self /\
  last_update_id (snd (fst (fst (_handle_update cb self host env update)))) =
    last_update_id self.
Proof.
  pose proof (handle_command_identity self host env) as Hcmd.
  pose proof (handle_add_photo_identity self host env (photo (message update))) as Hadd.
  assert (Hself : same_identity self self /\ last_update_id self = last_update_id self)
    by (unfold same_identity; repeat split).
  unfold _handle_update. cbv zeta.
  destruct (negb (String.eqb (chat (message update)) (chat_id self))); [exact Hself|].
  assert (Hother :
    let r := if has_photo (photo (message update)) && pending_truthy self
             then _handle_add_photo cb self host env (photo (message update))
             else if PyStr.startswith (PyStr.strip (text (message update))) "/"
             then _handle_command cb self host env (PyStr.strip (text (message update)))
             else if PyStr.startswith (PyStr.strip (caption (message update))) "/"
             then _handle_command cb self host env (PyStr.strip (caption (message update)))
             else (Returned, self, host, []) in
    same_identity (snd (fst (fst r))) self /\
    last_update_id (snd (fst (fst r))) = last_update_id self).
  { cbv zeta.
    destruct (has_photo (photo (message update)) && pending_truthy self); [exact Hadd|].
    destruct (PyStr.startswith (PyStr.strip (text (message update))) "/"); [apply Hcmd|].
    destruct (PyStr.startswith (PyStr.strip (caption (message update))) "/");
      [apply Hcmd|exact Hself]. }
  cbv zeta in Hother.
  destruct (has_photo (photo (message update)) &&
            PyStr.startswith (PyStr.strip (caption (message update))) "/add ");
    [|exact Hother].
  destruct (inline_name (PyStr.strip (caption (message update)))) as [name|];
    [|exact Hself].
  destruct (PyStr.truthy name); [|exact Hother].
  apply (handle_add_photo_identity (set_pending_add_name self (Some name))).
Qed.

(** X14.  No message changes who may command the bot.  Whatever a batch of
    updates holds (commands, photos, captions, from any chat) and
    however the handlers end, the polling loop leaves [chat_id],
    [enabled] and [running] as they were: the authorized chat cannot be
    replaced, and the bot cannot be switched off or on, from the chat. *)
Theorem poll_batch_keeps_authorization (batch : list (Update * Env)) :
  forall (self : t) (host : H),
    chat_id (fst (fst (poll_batch cb self host batch))) = chat_id self /\
    enabled (fst (fst (poll_batch cb self host batch))) = enabled self /\
    running (fst (fst (poll_batch cb self host batch))) = running self.
Proof.
  induction batch as [|[update env] rest IH]; intros self host; [repeat split|].
  simpl.
  destruct (handle_update_identity self host env update) as [(Hc & He & Hr) _].
  destruct (_handle_update cb self host env update) as [[[out self'] host'] tr].
  simpl in Hc, He, Hr. destruct out.
  - specialize (IH (set_last_update_id self' (update_id update + 1)) host').
    destruct (poll_batch cb _ host' rest) as [[self'' host''] tr'].
    simpl in IH |- *. destruct IH as (Hc' & He' & Hr'). repeat split; congruence.
  - simpl. repeat split; assumption.
Qed.

(** X15.  Updates from other chats are acknowledged and nothing else.  A batch
    that holds only updates whose chat is not the authorized one has no
    effect at all (no reply, no callback, no request), leaves the
    host and every field of the bot but the cursor as they were, and moves
    the cursor past the last update, so none of them is fetched again. *)
Theorem poll_batch_unauthorized (batch : list (Update * Env)) :
  forall (self : t) (host : H),
    Forall (fun ue => chat (message (fst ue)) <> chat_id self) batch ->
    poll_batch cb self host batch = (skipped self batch, host, []).
Proof.
  induction batch as [|[update env] rest IH]; intros self host Hall; [reflexivity|].
  apply Forall_cons in Hall. destruct Hall as [Hchat Hrest]. simpl in Hchat.
  cbn [poll_batch]. unfold _handle_update.
  apply String.eqb_neq in Hchat. rewrite Hchat. cbn [negb].
  rewrite (IH (set_last_update_id self (update_id update + 1)) host Hrest).
  cbn [app]. f_equal. f_equal.
  unfold skipped. destruct rest as [|ue rest']; [reflexivity|].
  change (last ((update, env) :: ue :: rest')) with (last (ue :: rest')).
  destruct (last (ue :: rest')) as [[u e]|] eqn:Hlast; [reflexivity|].
  apply last_None in Hlast. discriminate Hlast.
Qed.

Lemma largest_in (others : list PhotoSize) :
  forall best : PhotoSize,
    In (largest best others) (best :: others) /\
    (file_size best <= file_size (largest best others))%Z /\
    Forall (fun p => (file_size p <= file_size (largest best others))%Z) others.
Proof.
  induction others as [|p rest IH]; intros best.
  - simpl. split; [left; reflexivity|]. split; [lia|constructor].
  - simpl. destruct (file_size best <? file_size p)%Z eqn:Hlt.
    + apply Z.ltb_lt in Hlt. destruct (IH p) as (Hin & Hle & Hall).
      split; [right; exact Hin|]. split; [lia|]. constructor; assumption.
    + apply Z.ltb_ge in Hlt. destruct (IH best) as (Hin & Hle & Hall).
      split; [destruct Hin as [Hin|Hin]; [left; exact Hin|right; right; exact Hin]|].
      split; [exact Hle|]. constructor; [lia|exact Hall].
Qed.

(** X16.  The photo that is fetched.  Of the sizes a message offers,
    [_handle_add_photo] asks [getFile] for one of them, one whose
    [file_size] no other exceeds, and for that one only: the request is
    made once, before anything else, whatever the surroundings answer. *)
Theorem largest_photo_fetched (self : t) (host : H) (env : Env)
    (first : PhotoSize) (others : list PhotoSize) :
  In (largest first others) (first :: others) /\
  Forall (fun p => (file_size p <= file_size (largest first others))%Z)
         (first :: others) /\
  fetches (snd (_handle_add_photo cb self host env (first :: others))) =
    [file_id (largest first others)] /\
  head (snd (_handle_add_photo cb self host env (first :: others))) =
    Some (GetFile (file_id (largest first others))).
Proof.
  destruct (largest_in others first) as (Hin & Hle & Hall).
  split; [exact Hin|]. split; [constructor; assumption|].
  unfold _handle_add_photo, say, TelegramNotifier.send_message. cbv zeta.
  handler_cases; split; reflexivity.
Qed.

Ltac eqb_facts :=
  repeat match goal with
         | E : String.eqb _ _ = true |- _ => apply String.eqb_eq in E
         | E : String.eqb _ _ = false |- _ => apply String.eqb_neq in E
         end.

(** X17.  Each flag has its own commands.  Of all the command words, only
    [/start] and [/stop] write [surveillance_active] (to on and to off,
    whatever it was and whether or not a callback is set), and only
    [/add] touches the pending name; no command moves the cursor.  The
    command word is read without regard to case and without what
    follows an [@]. *)
Theorem command_changes_one_flag (self : t) (host : H) (env : Env)
    (text part0 : string) (parts : list string) :
  PyStr.split1 text = part0 :: parts ->
  let cmd := PyStr.before_at (PyStr.lower part0) in
  let self' := snd (fst (fst (_handle_command cb self host env text))) in
  (cmd = "/start" -> surveillance_active self' = true) /\
  (cmd = "/stop" -> surveillance_active self' = false) /\
  (cmd <> "/start" -> cmd <> "/stop" ->
     surveillance_active self' = surveillance_active self) /\
  (cmd <> "/add" -> pending_add_name self' = pending_add_name self) /\
  last_update_id self' = last_update_id self.
Proof.
  intros Hsplit cmd self'. subst cmd self'.
  unfold _handle_command. rewrite Hsplit. cbv zeta.
  handler_cases; cbn [fst snd]; eqb_facts;
    (split; [|split; [|split; [|split]]]); intros;
    try reflexivity; congruence.
Qed.

Lemma list_ascii_of_string_app (a b : string) :
  list_ascii_of_string (a ++ b) = list_ascii_of_string a ++ list_ascii_of_string b.
Proof. induction a as [|c a IH]; [reflexivity|]. simpl. f_equal. exact IH. Qed.

Lemma lower_ascii_idem (a : ascii) :
  PyStr.lower_ascii (PyStr.lower_ascii a) = PyStr.lower_ascii a.
Proof. destruct a as [[] [] [] [] [] [] [] []]; reflexivity. Qed.

Lemma lower_ascii_at (a : ascii) :
  Ascii.eqb (PyStr.lower_ascii a) "@" = Ascii.eqb a "@".
Proof. destruct a as [[] [] [] [] [] [] [] []]; reflexivity. Qed.

Lemma lower_ascii_space (a : ascii) :
  PyStr.is_space (PyStr.lower_ascii a) = PyStr.is_space a.
Proof. destruct a as [[] [] [] [] [] [] [] []]; reflexivity. Qed.

Lemma take_while_all (f : ascii -> bool) (l : list ascii) :
  Forall (fun a => f a = true) l -> PyStr.take_while f l = l.
Proof.
  induction 1 as [|a l Ha _ IH]; [reflexivity|]. simpl. rewrite Ha, IH. reflexivity.
Qed.

Lemma take_while_stop (f : ascii -> bool) (l rest : list ascii) (b : ascii) :
  Forall (fun a => f a = true) l -> f b = false ->
  PyStr.take_while f (l ++ b :: rest) = l.
Proof.
  intros Hall Hb. induction Hall as [|a l Ha _ IH]; simpl.
  - rewrite Hb. reflexivity.
  - rewrite Ha, IH. reflexivity.
Qed.

Lemma drop_while_all (f : ascii -> bool) (l : list ascii) :
  Forall (fun a => f a = true) l -> PyStr.drop_while f l = [].
Proof. induction 1 as [|a l Ha _ IH]; [reflexivity|]. simpl. rewrite Ha. exact IH. Qed.

(** A non-empty text without blanks is its own and only word. *)
Lemma split1_word (x : string) :
  x <> "" ->
  Forall (fun a => PyStr.is_space a = false) (list_ascii_of_string x) ->
  PyStr.split1 x = [x].
Proof.
  intros Hne Hall. unfold PyStr.split1.
  assert (Hnot : Forall (fun a => negb (PyStr.is_space a) = true) (list_ascii_of_string x)).
  { eapply Forall_impl; [exact Hall|]. intros a Ha. simpl in Ha. rewrite Ha. reflexivity. }
  destruct (list_ascii_of_string x) as [|a l] eqn:Hx.
  - destruct x; [contradiction|discriminate].
  - apply Forall_cons in Hall. destruct Hall as [Ha _].
    cbn [PyStr.drop_while]. rewrite Ha. cbv zeta.
    rewrite (take_while_all _ _ Hnot), (drop_while_all _ _ Hnot).
    cbn [PyStr.drop_while]. rewrite <- Hx, string_of_list_ascii_of_string. reflexivity.
Qed.

(** X18.  The command word is read without regard to case and without the bot
    name that a group chat appends.  For a word [w] without [@] and
    without blanks, a text made of [w], in whatever mix of upper and
    lower case, followed by [@] and any blank-free suffix is handled
    exactly as [w] written in lower case: same outcome, same state, same
    callbacks, same reply. *)
Theorem command_word_normalised (self : t) (host : H) (env : Env) (w s : string) :
  w <> "" ->
  Forall (fun a => Ascii.eqb a "@" = false /\ PyStr.is_space a = false)
         (list_ascii_of_string w) ->
  Forall (fun a => PyStr.is_space a = false) (list_ascii_of_string s) ->
  PyStr.before_at (PyStr.lower (w ++ "@" ++ s)) = PyStr.lower w /\
  _handle_command cb self host env (w ++ "@" ++ s) =
  _handle_command cb self host env (PyStr.lower w) /\
  _handle_command cb self host env w =
  _handle_command cb self host env (PyStr.lower w).
Proof.
  intros Hne Hw Hs.
  assert (Hlw : Forall (fun a => negb (Ascii.eqb a "@") = true)
                  (map PyStr.lower_ascii (list_ascii_of_string w))).
  { apply Forall_forall. intros a Ha. apply list_elem_of_In in Ha.
    apply in_map_iff in Ha. destruct Ha as (b & <- & Hb).
    rewrite Forall_forall in Hw. apply list_elem_of_In in Hb.
    rewrite lower_ascii_at. destruct (Hw b Hb) as [-> _]. reflexivity. }
  assert (Hcut : PyStr.before_at (PyStr.lower (w ++ "@" ++ s)) = PyStr.lower w).
  { unfold PyStr.before_at, PyStr.lower.
    rewrite list_ascii_of_string_of_list_ascii, list_ascii_of_string_app, map_app.
    change (String.append "@" s) with (String "@" s).
    cbn [list_ascii_of_string map].
    rewrite (take_while_stop _ _ _ _ Hlw); reflexivity. }
  assert (Hown : PyStr.before_at (PyStr.lower w) = PyStr.lower w).
  { unfold PyStr.before_at, PyStr.lower.
    rewrite list_ascii_of_string_of_list_ascii, (take_while_all _ _ Hlw). reflexivity. }
  assert (Hidem : PyStr.lower (PyStr.lower w) = PyStr.lower w).
  { unfold PyStr.lower. rewrite list_ascii_of_string_of_list_ascii, map_map.
    f_equal. apply map_ext. intros a. apply lower_ascii_idem. }
  assert (Hblank : Forall (fun a => PyStr.is_space a = false) (list_ascii_of_string w)).
  { eapply Forall_impl; [exact Hw|]. intros a [_ Ha]. exact Ha. }
  assert (Hsplit1 : PyStr.split1 (w ++ "@" ++ s) = [(w ++ "@" ++ s)%string]).
  { apply split1_word.
    - destruct w; [contradiction|discriminate].
    - rewrite list_ascii_of_string_app. apply Forall_app. split; [exact Hblank|].
      change (String.append "@" s) with (String "@" s).
      cbn [list_ascii_of_string]. constructor; [reflexivity|exact Hs]. }
  assert (Hsplit2 : PyStr.split1 w = [w]) by (apply split1_word; assumption).
  assert (Hsplit3 : PyStr.split1 (PyStr.lower w) = [PyStr.lower w]).
  { apply split1_word.
    - unfold PyStr.lower. destruct w; [contradiction|discriminate].
    - unfold PyStr.lower. rewrite list_ascii_of_string_of_list_ascii.
      apply Forall_forall. intros a Ha. apply list_elem_of_In in Ha.
      apply in_map_iff in Ha. destruct Ha as (b & <- & Hb).
      rewrite lower_ascii_space. rewrite Forall_forall in Hblank.
      apply Hblank, list_elem_of_In, Hb. }
  split; [exact Hcut|].
  unfold _handle_command. rewrite Hsplit1, Hsplit2, Hsplit3. cbv zeta.
  rewrite Hcut, Hidem, Hown. split; reflexivity.
Qed.

End BotMore.

(** ** The recognizer and the files it knows *)

Section RecognizerFacts.
Import FaceRecognizer.

(** What the loop of [_match_face] leaves: a distance no greater than
    the one it started from and than that of any file below the
    tolerance; and either the pair it started from, or the root and
    distance of one of the files below the tolerance. *)
Lemma match_loop_spec (tolerance : Q) (verify : string -> option Q)
    (known_images : list string) :
  forall (best_match : string) (best_distance : option Q),
    let r := match_loop tolerance verify known_images best_match best_distance in
    (forall b, best_distance = Some b -> exists e, snd r = Some e /\ (e <= b)%Q) /\
    Forall (fun h => forall c, verify h = Some c -> (c < tolerance)%Q ->
                       exists e, snd r = Some e /\ (e <= c)%Q) known_images /\
    (r = (best_match, best_distance) \/
     exists g e, In g known_images /\ verify g = Some e /\ (e < tolerance)%Q /\
       r = (PyPath.splitext_root g, Some e)).
Proof.
  induction known_images as [|f rest IH]; intros bm bd; cbv zeta.
  - simpl. split; [intros b ->; exists b; split; [reflexivity|lra]|].
    split; [constructor|left; reflexivity].
  - cbn [match_loop]. destruct (verify f) as [d|] eqn:Hv.
    + destruct (Qltb d tolerance &&
                match bd with Some best => Qltb d best | None => true end) eqn:Hcond.
      * destruct (IH (PyPath.splitext_root f) (Some d)) as (Hle & Hall & Hsel).
        destruct (Hle d eq_refl) as (e & He & Hed).
        apply andb_true_iff in Hcond. destruct Hcond as [Htol Hbest].
        apply Qltb_lt in Htol.
        split; [|split].
        -- intros b ->. apply Qltb_lt in Hbest. exists e. split; [exact He|lra].
        -- constructor; [|exact Hall]. intros c Hc _. exists e.
           split; [exact He|]. congruence.
        -- right. destruct Hsel as [Hsame|(g & e' & Hin & Hg & Hlt & Hr)].
           ++ exists f, d. split; [left; reflexivity|]. split; [exact Hv|].
              split; [exact Htol|exact Hsame].
           ++ exists g, e'. split; [right; exact Hin|]. repeat split; assumption.
      * destruct (IH bm bd) as (Hle & Hall & Hsel).
        split; [exact Hle|]. split.
        -- constructor; [|exact Hall]. intros c Hc Hlt.
           assert (c = d) by congruence. subst c.
           apply andb_false_iff in Hcond. destruct Hcond as [Htol|Hbest].
           ++ apply not_true_iff_false in Htol. rewrite Qltb_lt in Htol. contradiction.
           ++ destruct bd as [b|]; [|discriminate].
              apply not_true_iff_false in Hbest. rewrite Qltb_lt in Hbest.
              destruct (Hle b eq_refl) as (e & He & Heb). exists e.
              split; [exact He|lra].
        -- destruct Hsel as [Hsame|(g & e' & Hin & Hg & Hlt & Hr)]; [left; exact Hsame|].
           right. exists g, e'. split; [right; exact Hin|]. repeat split; assumption.
    + destruct (IH bm bd) as (Hle & Hall & Hsel).
      split; [exact Hle|]. split.
      * constructor; [|exact Hall]. intros c Hc. congruence.
      * destruct Hsel as [Hsame|(g & e' & Hin & Hg & Hlt & Hr)]; [left; exact Hsame|].
        right. exists g, e'. split; [right; exact Hin|]. repeat split; assumption.
Qed.

Lemma match_face_best_spec (tolerance : Q) (known_images : list string)
    (face_empty : bool) (verify : string -> option Q) :
  ((face_empty = true \/
    Forall (fun f => forall d, verify f = Some d -> (tolerance <= d)%Q) known_images) ->
   _match_face tolerance known_images face_empty verify = "Unknown") /\
  (face_empty = false ->
   forall (f : string) (d : Q),
     In f known_images -> verify f = Some d -> (d < tolerance)%Q ->
     exists (g : string) (e : Q),
       In g known_images /\ verify g = Some e /\ (e < tolerance)%Q /\
       _match_face tolerance known_images face_empty verify = PyPath.splitext_root g /\
       forall (h : string) (c : Q),
         In h known_images -> verify h = Some c -> (c < tolerance)%Q -> (e <= c)%Q).
Proof.
  pose proof (match_loop_spec tolerance verify known_images "Unknown" None) as Hloop.
  cbv zeta in Hloop. destruct Hloop as (_ & Hall & Hsel).
  split.
  - intros Hnone. unfold _match_face.
    destruct known_images as [|k rest] eqn:Hk; [reflexivity|]. rewrite <- Hk in *.
    destruct Hnone as [-> | Hfar]; [reflexivity|].
    destruct face_empty; [reflexivity|].
    destruct Hsel as [-> | (g & e & Hin & Hg & Hlt & _)]; [reflexivity|].
    rewrite Forall_forall in Hfar. apply list_elem_of_In in Hin.
    specialize (Hfar g Hin e Hg). lra.
  - intros -> f d Hin Hv Hlt.
    rewrite Forall_forall in Hall.
    destruct (Hall f (proj2 (list_elem_of_In _ _) Hin) d Hv Hlt) as (e0 & He0 & _).
    destruct Hsel as [Hsame | (g & e & Hing & Hg & Hlte & Hr)].
    + rewrite Hsame in He0. discriminate He0.
    + exists g, e. split; [exact Hing|]. split; [exact Hg|]. split; [exact Hlte|].
      split.
      * unfold _match_face. destruct known_images as [|k rest]; [destruct Hin|].
        rewrite Hr. reflexivity.
      * intros h c Hinh Hc Hltc.
        destruct (Hall h (proj2 (list_elem_of_In _ _) Hinh) c Hc Hltc) as (e1 & He1 & Hle).
        rewrite Hr in He1. simpl in He1. congruence.
Qed.

(** X19.  Whom [_match_face] names.  When no known image gives a distance
    below the tolerance (none is known, every comparison raises or is too
    far) or the face crop is empty, the answer is ["Unknown"].  When
    some image does, the answer is the file name, without its extension,
    of an image below the tolerance whose distance no other image
    undercuts. *)
Theorem match_face_best (tolerance : Q) (known_images : list string)
    (face_empty : bool) (verify : string -> option Q) :
  ((face_empty = true \/
    Forall (fun f => forall d, verify f = Some d -> (tolerance <= d)%Q) known_images) ->
   _match_face tolerance known_images face_empty verify = "Unknown") /\
  (face_empty = false ->
   forall (f : string) (d : Q),
     In f known_images -> verify f = Some d -> (d < tolerance)%Q ->
     exists (g : string) (e : Q),
       In g known_images /\ verify g = Some e /\ (e < tolerance)%Q /\
       _match_face tolerance known_images face_empty verify = PyPath.splitext_root g /\
       forall (h : string) (c : Q),
         In h known_images -> verify h = Some c -> (c < tolerance)%Q -> (e <= c)%Q).
Proof. apply match_face_best_spec. Qed.

Lemma match_face_best_witness :
  exists (g : string) (e : Q),
    In g ["asha.jpg"; "bo.png"] /\
    (if String.eqb g "bo.png" then Some (1 # 5) else Some (3 # 10)) = Some e /\
    (e < 2 # 5)%Q /\
    _match_face (2 # 5) ["asha.jpg"; "bo.png"] false
      (fun f => if String.eqb f "bo.png" then Some (1 # 5) else Some (3 # 10)) =
      PyPath.splitext_root g /\
    forall (h : string) (c : Q),
      In h ["asha.jpg"; "bo.png"] ->
      (if String.eqb h "bo.png" then Some (1 # 5) else Some (3 # 10)) = Some c ->
      (c < 2 # 5)%Q -> (e <= c)%Q.
Proof.
  apply (proj2 (match_face_best (2 # 5) ["asha.jpg"; "bo.png"] false
                  (fun f => if String.eqb f "bo.png" then Some (1 # 5) else Some (3 # 10)))
           eq_refl "bo.png" (1 # 5));
    [right; left; reflexivity | reflexivity | reflexivity].
Defined.

Lemma rfind_from_app (c : ascii) (l1 l2 : list ascii) :
  forall i found : Z,
    PyPath.rfind_from c (l1 ++ l2) i found =
    PyPath.rfind_from c l2 (i + Z.of_nat (length l1)) (PyPath.rfind_from c l1 i found).
Proof.
  induction l1 as [|a l1 IH]; intros i found; simpl.
  - rewrite Z.add_0_r. reflexivity.
  - rewrite IH. f_equal. lia.
Qed.

Lemma rfind_from_absent (c : ascii) (l : list ascii) :
  Forall (fun a => Ascii.eqb a c = false) l ->
  forall i found : Z, PyPath.rfind_from c l i found = found.
Proof.
  induction 1 as [|a l Ha _ IH]; intros i found; simpl; [reflexivity|].
  rewrite Ha. apply IH.
Qed.

Lemma prefix_of_app (a b : list ascii) :
  String.prefix (string_of_list_ascii a) (string_of_list_ascii (a ++ b)) = true.
Proof.
  induction a as [|c a IH]; simpl; [destruct (string_of_list_ascii b); reflexivity|].
  destruct (Ascii.ascii_dec c c); [exact IH|congruence].
Qed.

Lemma lower_app (a b : string) :
  list_ascii_of_string (PyStr.lower (a ++ b)) =
  list_ascii_of_string (PyStr.lower a) ++ list_ascii_of_string (PyStr.lower b).
Proof.
  unfold PyStr.lower.
  rewrite !list_ascii_of_string_of_list_ascii, list_ascii_of_string_app.
  apply map_app.
Qed.

Lemma is_image_face_file (name : string) :
  is_image (TelegramBot.face_file_name name) = true.
Proof.
  unfold is_image, TelegramBot.face_file_name, PyStr.endswith.
  rewrite lower_app, rev_app_distr.
  change (list_ascii_of_string (PyStr.lower ".jpg")) with (list_ascii_of_string ".jpg").
  rewrite prefix_of_app. reflexivity.
Qed.

Lemma splitext_root_face_file (name : string) :
  Forall (fun a => Ascii.eqb a "/" = false) (list_ascii_of_string name) ->
  Exists (fun a => Ascii.eqb a "." = false) (list_ascii_of_string name) ->
  PyPath.splitext_root (TelegramBot.face_file_name name) = name.
Proof.
  intros Hsep Hdot. unfold PyPath.splitext_root, TelegramBot.face_file_name.
  rewrite list_ascii_of_string_app. cbv zeta.
  set (l := list_ascii_of_string name) in *.
  unfold PyPath.rfind. rewrite !rfind_from_app.
  rewrite (rfind_from_absent "/" l Hsep).
  change (list_ascii_of_string ".jpg") with ["."; "j"; "p"; "g"]%char.
  cbn [PyPath.rfind_from Ascii.eqb Bool.eqb]. cbv iota.
  replace (-1 <? 0 + Z.of_nat (length l))%Z with true by (symmetry; apply Z.ltb_lt; lia).
  replace (Z.to_nat (0 + Z.of_nat (length l) - (-1 + 1))) with (length l) by lia.
  replace (Z.to_nat (-1 + 1)) with 0%nat by lia.
  replace (Z.to_nat (0 + Z.of_nat (length l))) with (length l) by lia.
  assert (Hslice : forall x : list ascii, firstn (length l) (l ++ x) = l).
  { intros x. rewrite firstn_app, Nat.sub_diag, firstn_all. cbn [firstn]. apply app_nil_r. }
  change (skipn 0 (l ++ ["."; "j"; "p"; "g"]%char)) with (l ++ ["."; "j"; "p"; "g"]%char).
  rewrite !Hslice.
  replace (existsb (fun a => negb (Ascii.eqb a ".")) l) with true.
  - subst l. apply string_of_list_ascii_of_string.
  - symmetry. apply existsb_exists. apply Exists_exists in Hdot.
    destruct Hdot as (a & Hin & Ha). exists a. apply list_elem_of_In in Hin.
    split; [exact Hin|]. rewrite Ha. reflexivity.
Qed.

(** X20.  Names survive the round trip through the directory.  A face added
    under a name that holds no slash and is not made of dots alone is
    stored in a file that [_get_known_images] keeps, [/list] shows
    under exactly that name, and [_match_face] reports under exactly
    that name when it is the one match below the tolerance; and [/list]
    always shows as many names as [/status] counts known faces. *)
Theorem added_face_named (name : string) (files : list string) :
  Forall (fun a => Ascii.eqb a "/" = false) (list_ascii_of_string name) ->
  Exists (fun a => Ascii.eqb a "." = false) (list_ascii_of_string name) ->
  In (TelegramBot.face_file_name name) files ->
  In (TelegramBot.face_file_name name) (_get_known_images (Some files)) /\
  In name (TelegramBot._list_known_faces (Some files)) /\
  (forall (tolerance d : Q) (verify : string -> option Q),
     verify (TelegramBot.face_file_name name) = Some d -> (d < tolerance)%Q ->
     (forall f e, In f files -> verify f = Some e -> (e < tolerance)%Q ->
                  f = TelegramBot.face_file_name name) ->
     _match_face tolerance (_get_known_images (Some files)) false verify = name) /\
  (forall listing : option (list string),
     length (TelegramBot._list_known_faces listing) = length (_get_known_images listing)).
Proof.
  intros Hsep Hdot Hin.
  assert (Hkept : In (TelegramBot.face_file_name name) (_get_known_images (Some files))).
  { simpl. apply filter_In. split; [exact Hin|apply is_image_face_file]. }
  split; [exact Hkept|]. split; [|split].
  - unfold TelegramBot._list_known_faces.
    apply list_elem_of_In. rewrite merge_sort_Permutation. apply list_elem_of_In.
    apply in_map_iff. exists (TelegramBot.face_file_name name).
    split; [apply splitext_root_face_file; assumption|exact Hkept].
  - intros tolerance d verify Hv Hlt Honly.
    destruct (proj2 (match_face_best_spec tolerance (_get_known_images (Some files))
                       false verify) eq_refl _ d Hkept Hv Hlt)
      as (g & e & Hg & Hvg & Hltg & Hname & _).
    rewrite Hname. simpl in Hg. apply filter_In in Hg. destruct Hg as [Hg _].
    rewrite (Honly g e Hg Hvg Hltg). apply splitext_root_face_file; assumption.
  - intros [fs|]; [|reflexivity]. unfold TelegramBot._list_known_faces, _get_known_images.
    rewrite merge_sort_Permutation, length_map. reflexivity.
Qed.

Lemma added_face_named_witness :
  In "Bob" (TelegramBot._list_known_faces (Some ["notes.txt"; "Bob.jpg"])) /\
  _match_face (2 # 5) (_get_known_images (Some ["notes.txt"; "Bob.jpg"])) false
    (fun f => if String.eqb f "Bob.jpg" then Some (1 # 5) else None) = "Bob".
Proof.
  destruct (added_face_named "Bob" ["notes.txt"; "Bob.jpg"]) as (_ & Hlist & Hmatch & _).
  - repeat constructor.
  - left. reflexivity.
  - right. left. reflexivity.
  - split; [exact Hlist|].
    apply (Hmatch (2 # 5) (1 # 5)); [reflexivity|reflexivity|].
    intros f e [<-|[<-|[]]] Hv _; [discriminate Hv|reflexivity].
Defined.

Lemma match_face_names (tolerance : Q) (known_images : list string)
    (face_empty : bool) (verify : string -> option Q) :
  _match_face tolerance known_images face_empty verify = "Unknown" \/
  exists g, In g known_images /\
    _match_face tolerance known_images face_empty verify = PyPath.splitext_root g.
Proof.
  unfold _match_face. destruct known_images as [|k rest] eqn:Hk; [left; reflexivity|].
  rewrite <- Hk. destruct face_empty; [left; reflexivity|].
  destruct (match_loop_spec tolerance verify known_images "Unknown" None)
    as (_ & _ & [-> | (g & e & Hin & _ & _ & ->)]); [left; reflexivity|].
  right. exists g. split; [exact Hin|reflexivity].
Qed.

(** [int(x)] cuts the fraction off, towards zero. *)
Lemma py_int_truncates (q : Q) :
  ((0 <= q)%Q -> (inject_Z (py_int q) <= q)%Q /\ (q < inject_Z (py_int q) + 1)%Q) /\
  ((q <= 0)%Q -> (q <= inject_Z (py_int q))%Q /\ (inject_Z (py_int q) - 1 < q)%Q).
Proof.
  assert (Hpos : forall x : Q, (0 <= x)%Q -> py_int x = Qfloor x).
  { intros [n d] Hx. unfold py_int, Qfloor. simpl.
    apply Z.quot_div_nonneg; [|lia].
    unfold Qle in Hx. simpl in Hx. lia. }
  split.
  - intros Hq. rewrite (Hpos q Hq). split; [apply Qfloor_le|].
    pose proof (Qlt_floor q) as Hlt. rewrite inject_Z_plus in Hlt. exact Hlt.
  - intros Hq.
    assert (Hneg : py_int q = (- Qfloor (- q))%Z).
    { rewrite <- (Hpos (- q)%Q) by lra. destruct q as [n d]. unfold py_int. simpl.
      rewrite Z.quot_opp_l by lia. lia. }
    rewrite Hneg, inject_Z_opp.
    pose proof (Qfloor_le (- q)) as Hle. pose proof (Qlt_floor (- q)) as Hlt.
    rewrite inject_Z_plus in Hlt. change (inject_Z 1) with 1%Q in Hlt.
    split; lra.
Qed.

(** X21.  What [identify] reports for one person box.  Nothing when face
    detection raises.  Otherwise one pair per detected face whose
    confidence is at least one half, in the order detected, and none for
    the others.  Each location is the detected area moved by the corner
    of the crop, which is the top-left corner of the person box with its
    coordinates cut to integers (towards zero) and raised to zero when
    negative, or the origin when no box is given: so it has the width
    and height of the area and lies no further left and no higher than
    the area does in the crop.  Each name is ["Unknown"] or the file
    name, without extension, of a known image. *)
Theorem identify_results (person_bbox : option BBox) (tolerance : Q)
    (known_images : list string) (face_empty : FaceData -> bool)
    (verify : FaceData -> string -> option Q) (faces : list FaceData) :
  let match_face := fun face_data =>
    _match_face tolerance known_images (face_empty face_data) (verify face_data) in
  let corner_x := match person_bbox with
                  | Some box => Z.max 0 (py_int (bx1 box))
                  | None => 0%Z
                  end in
  let corner_y := match person_bbox with
                  | Some box => Z.max 0 (py_int (by1 box))
                  | None => 0%Z
                  end in
  identify person_bbox None match_face = [] /\
  (length (identify person_bbox (Some faces) match_face) <= length faces)%nat /\
  Forall2 (fun face_data r =>
             fst r = match_face face_data /\
             snd r = mkFaceLoc (area_y face_data + corner_y)
                               (area_x face_data + area_w face_data + corner_x)
                               (area_y face_data + area_h face_data + corner_y)
                               (area_x face_data + corner_x) /\
             (f_right (snd r) - f_left (snd r) = area_w face_data)%Z /\
             (f_bottom (snd r) - f_top (snd r) = area_h face_data)%Z /\
             (area_x face_data <= f_left (snd r))%Z /\
             (area_y face_data <= f_top (snd r))%Z)
          (List.filter (fun face_data => Qle_bool (1 # 2) (confidence face_data)) faces)
          (identify person_bbox (Some faces) match_face) /\
  Forall (fun r => fst r = "Unknown" \/
                   exists g, In g known_images /\ fst r = PyPath.splitext_root g)
         (identify person_bbox (Some faces) match_face) /\
  (forall q : Q,
     ((0 <= q)%Q -> (inject_Z (py_int q) <= q)%Q /\ (q < inject_Z (py_int q) + 1)%Q) /\
     ((q <= 0)%Q -> (q <= inject_Z (py_int q))%Q /\ (inject_Z (py_int q) - 1 < q)%Q)).
Proof.
  intros match_face corner_x corner_y. split; [reflexivity|].
  assert (Hcorner : crop_offset person_bbox = (corner_x, corner_y)).
  { unfold crop_offset, corner_x, corner_y. destruct person_bbox; reflexivity. }
  assert (Hoff : (0 <= corner_x /\ 0 <= corner_y)%Z).
  { unfold corner_x, corner_y. destruct person_bbox as [box|]; lia. }
  unfold identify. cbv zeta. rewrite Hcorner. cbn [fst snd].
  split; [|split; [|split]].
  - rewrite length_map. apply List.filter_length_le.
  - induction faces as [|fd rest IH]; [constructor|]. simpl.
    unfold Qltb at 1. rewrite negb_involutive.
    destruct (Qle_bool (1 # 2) (confidence fd)); [|exact IH].
    simpl. constructor; [|exact IH]. simpl.
    split; [reflexivity|]. split; [reflexivity|]. repeat split; lia.
  - apply Forall_forall. intros r Hr. apply list_elem_of_In in Hr.
    apply in_map_iff in Hr. destruct Hr as (fd & <- & _). simpl.
    apply match_face_names.
  - exact py_int_truncates.
Qed.

(** The corner of a crop at x = 7/2 is at 3. *)
Lemma identify_results_witness :
  (inject_Z (py_int (7 # 2)) <= 7 # 2)%Q /\ (7 # 2 < inject_Z (py_int (7 # 2)) + 1)%Q.
Proof.
  apply (proj1 (proj2 (proj2 (proj2 (proj2
           (identify_results None (2 # 5) [] (fun _ => false) (fun _ _ => None) []))))
           (7 # 2))).
  discriminate.
Defined.

End RecognizerFacts.

(** ** The frame pipeline *)

Section PipelineFacts.
Import Pipeline.

(** The counters, the pause flag and the frame size after one frame,
    however it ends. *)
Lemma process_frame_counters (self : t) (inp : Input) :
  let self' := snd (fst (process_frame self inp)) in
  SecuritySystem.frames_processed (system self') =
    (SecuritySystem.frames_processed (system self) + 1)%Z /\
  (SecuritySystem.face_checks (system self) <=
     SecuritySystem.face_checks (system self') <=
     SecuritySystem.face_checks (system self) + 1)%Z /\
  SecuritySystem.paused (system self') = SecuritySystem.paused (system self) /\
  SecuritySystem.recorder (system self') = SecuritySystem.recorder (system self).
Proof.
  unfold process_frame. cbv zeta.
  destruct (SecuritySystem.paused (count_frame (system self) (i_size inp))) eqn:Hp;
    [simpl; repeat split; lia|].
  destruct (negb (i_bright inp)); [simpl; repeat split; lia|].
  destruct (PersonTracker.needs_face_check (tracker self) (i_check_at inp) (i_boxes inp));
    [|simpl; repeat split; lia].
  destruct (log_faces (logger self) (i_frame inp)
              (concat (map (i_identify inp) (seq 0 (length (i_boxes inp))))))
    as [[[] logger'] tr]; simpl; repeat split; lia.
Qed.

(** X22.  Face checks never outnumber frames.  Along any run of the capture
    loop, each call of [process_frame] counts one frame, whether the
    system is paused, the frame dark, the cache fresh or the call left
    by an exception, and at most one face check; so a system that starts
    with no more checks than frames (as a new one does, with none of
    either) never reports more checks than frames. *)
Theorem face_checks_never_exceed_frames (inputs : list Input) :
  forall self : t,
    (0 <= SecuritySystem.face_checks (system self) <=
       SecuritySystem.frames_processed (system self))%Z ->
    let os := fst (fst (process_frames self inputs)) in
    let self' := snd (fst (process_frames self inputs)) in
    (length os <= length inputs)%nat /\
    SecuritySystem.frames_processed (system self') =
      (SecuritySystem.frames_processed (system self) + Z.of_nat (length os))%Z /\
    (0 <= SecuritySystem.face_checks (system self') <=
       SecuritySystem.frames_processed (system self'))%Z.
Proof.
  induction inputs as [|inp rest IH]; intros self Hinv; cbv zeta.
  - simpl. split; [lia|]. split; lia.
  - cbn [process_frames].
    pose proof (process_frame_counters self inp) as Hstep. cbv zeta in Hstep.
    destruct (process_frame self inp) as [[o self1] tr]. simpl in Hstep.
    destruct Hstep as (Hframes & Hchecks & _ & _).
    destruct o.
    + assert (Hinv1 : (0 <= SecuritySystem.face_checks (system self1) <=
                         SecuritySystem.frames_processed (system self1))%Z) by lia.
      specialize (IH self1 Hinv1). cbv zeta in IH.
      destruct (process_frames self1 rest) as [[os self2] tr']. simpl in IH |- *.
      destruct IH as (Hlen & Hf & Hc). split; [lia|]. split; lia.
    + simpl. split; [lia|]. split; lia.
Qed.

Lemma face_checks_never_exceed_frames_witness :
  (0 <= SecuritySystem.face_checks
          (system (snd (fst (process_frames init
             [mkInput 1%nat (640, 480)%Z true [] (fun _ => []) 10%Q 10%Q;
              mkInput 2%nat (640, 480)%Z true [mkBBox 0 0 100 200] (fun _ => []) 11%Q 11%Q]))))
      <= SecuritySystem.frames_processed
          (system (snd (fst (process_frames init
             [mkInput 1%nat (640, 480)%Z true [] (fun _ => []) 10%Q 10%Q;
              mkInput 2%nat (640, 480)%Z true [mkBBox 0 0 100 200] (fun _ => []) 11%Q 11%Q])))))%Z.
Proof.
  apply (face_checks_never_exceed_frames
           [mkInput 1%nat (640, 480)%Z true [] (fun _ => []) 10%Q 10%Q;
            mkInput 2%nat (640, 480)%Z true [mkBBox 0 0 100 200] (fun _ => []) 11%Q 11%Q] init).
  simpl. lia.
Defined.

Lemma process_frame_idle (self : t) (inp : Input) :
  idle_frame self inp ->
  process_frame self inp =
    (Returned,
     {| system := count_frame (system self) (i_size inp);
        tracker := tracker self;
        logger := logger self |}, []).
Proof.
  unfold process_frame. cbv zeta.
  change (SecuritySystem.paused (count_frame (system self) (i_size inp)))
    with (SecuritySystem.paused (system self)).
  intros [Hp|[Hb|Hn]].
  - rewrite Hp. reflexivity.
  - rewrite Hb. destruct (SecuritySystem.paused (system self)); reflexivity.
  - rewrite Hn. destruct (SecuritySystem.paused (system self)); [reflexivity|].
    destruct (negb (i_bright inp)); reflexivity.
Qed.

(** A run of idle frames: by induction, with what each frame leaves. *)
Lemma process_frames_idle (inputs : list Input) :
  forall self : t,
    (forall (sys : SecuritySystem.t) (inp : Input),
       In inp inputs ->
       SecuritySystem.paused sys = SecuritySystem.paused (system self) ->
       idle_frame {| system := sys; tracker := tracker self; logger := logger self |} inp) ->
    let r := process_frames self inputs in
    fst (fst r) = repeat Returned (length inputs) /\
    snd r = [] /\
    tracker (snd (fst r)) = tracker self /\
    logger (snd (fst r)) = logger self /\
    SecuritySystem.paused (system (snd (fst r))) = SecuritySystem.paused (system self) /\
    SecuritySystem.face_checks (system (snd (fst r))) =
      SecuritySystem.face_checks (system self) /\
    SecuritySystem.frames_processed (system (snd (fst r))) =
      (SecuritySystem.frames_processed (system self) + Z.of_nat (length inputs))%Z.
Proof.
  induction inputs as [|inp rest IH]; intros self Hidle; cbv zeta.
  - simpl. repeat split. lia.
  - cbn [process_frames].
    assert (Hnow : idle_frame self inp).
    { destruct self as [sys trk lg]. apply Hidle; [left; reflexivity|reflexivity]. }
    rewrite (process_frame_idle self inp Hnow).
    set (self1 := {| system := count_frame (system self) (i_size inp);
                     tracker := tracker self; logger := logger self |}).
    specialize (IH self1). cbv zeta in IH.
    destruct IH as (Hos & Htr & Htrk & Hlg & Hp & Hc & Hf).
    { intros sys inp' Hin Hsys. apply (Hidle sys inp'); [right; exact Hin|exact Hsys]. }
    destruct (process_frames self1 rest) as [[os self2] tr']. simpl in *.
    subst os tr'. repeat split; try assumption. lia.
Qed.

(** X23.  A paused system is silent.  From [/stop] until [/start], whatever
    the camera shows and for however many frames, [process_frame] only
    counts frames: no face check is made, the tracker and the logger stay
    as they were, and nothing is saved, logged or sent. *)
Theorem paused_system_is_silent (self : t) (inputs : list Input) :
  SecuritySystem.paused (system self) = true ->
  let r := process_frames self inputs in
  fst (fst r) = repeat Returned (length inputs) /\
  snd r = [] /\
  tracker (snd (fst r)) = tracker self /\
  logger (snd (fst r)) = logger self /\
  SecuritySystem.paused (system (snd (fst r))) = true /\
  SecuritySystem.face_checks (system (snd (fst r))) =
    SecuritySystem.face_checks (system self) /\
  SecuritySystem.frames_processed (system (snd (fst r))) =
    (SecuritySystem.frames_processed (system self) + Z.of_nat (length inputs))%Z.
Proof.
  intros Hpaused. cbv zeta.
  destruct (process_frames_idle inputs self) as (Hos & Htr & Htrk & Hlg & Hp & Hc & Hf).
  { intros sys inp _ Hsys. left. simpl. congruence. }
  repeat split; try assumption. congruence.
Qed.

Lemma paused_system_is_silent_witness :
  snd (process_frames
         {| system := SecuritySystem._on_stop SecuritySystem.init;
            tracker := PersonTracker.init;
            logger := ActivityLogger.with_bot |}
         [mkInput 1%nat (640, 480)%Z true [mkBBox 0 0 100 200]
            (fun _ => [mkSighting "Unknown" (mkFaceLoc 0 10 10 0) 10%Q ActivityLogger.calm])
            10%Q 10%Q]) = [].
Proof.
  apply (paused_system_is_silent
           {| system := SecuritySystem._on_stop SecuritySystem.init;
              tracker := PersonTracker.init;
              logger := ActivityLogger.with_bot |}
           [mkInput 1%nat (640, 480)%Z true [mkBBox 0 0 100 200]
              (fun _ => [mkSighting "Unknown" (mkFaceLoc 0 10 10 0) 10%Q ActivityLogger.calm])
              10%Q 10%Q]).
  reflexivity.
Defined.

(** X24.  A still scene is identified once.  After a face check on the boxes
    [boxes0] at [t0], as long as each frame shows as many boxes, each
    within the move threshold of a box of [boxes0], and is looked at no
    later than the recheck interval after [t0], the recognizer is not run
    again and nothing is saved, logged or sent: the identities drawn are
    those of the cache. *)
Theorem still_scene_identified_once (self : t) (trk0 : PersonTracker.t) (t0 : Time)
    (boxes0 : list BBox) (faces0 : list Faces) (inputs : list Input) :
  tracker self = PersonTracker.update trk0 t0 boxes0 faces0 ->
  Forall (fun inp =>
            PersonTracker.steady trk0 boxes0 (i_boxes inp) /\
            (i_check_at inp - t0 <= PersonTracker.recheck_interval trk0)%Q) inputs ->
  let r := process_frames self inputs in
  fst (fst r) = repeat Returned (length inputs) /\
  snd r = [] /\
  tracker (snd (fst r)) = tracker self /\
  logger (snd (fst r)) = logger self /\
  SecuritySystem.face_checks (system (snd (fst r))) =
    SecuritySystem.face_checks (system self) /\
  map snd (PersonTracker.get_cached (tracker (snd (fst r)))) = boxes0.
Proof.
  intros Htrk Hsteady. cbv zeta.
  destruct (process_frames_idle inputs self) as (Hos & Htr & Htrk' & Hlg & _ & Hc & _).
  { intros sys inp Hin _. right. right. simpl. rewrite Htrk.
    rewrite Forall_forall in Hsteady. apply list_elem_of_In in Hin.
    destruct (Hsteady inp Hin) as [Hst Hfresh].
    apply steady_fresh_no_check; assumption. }
  repeat split; try assumption.
  rewrite Htrk', Htrk. unfold PersonTracker.get_cached. rewrite map_map. simpl.
  apply map_bbox_imap.
Qed.

Lemma still_scene_identified_once_witness :
  snd (process_frames
         {| system := SecuritySystem.init;
            tracker := PersonTracker.update PersonTracker.init 100 [mkBBox 0 0 100 200] [];
            logger := ActivityLogger.with_bot |}
         [mkInput 1%nat (640, 480)%Z true [mkBBox 10 0 110 200]
            (fun _ => [mkSighting "Unknown" (mkFaceLoc 0 10 10 0) 101%Q ActivityLogger.calm])
            101%Q 101%Q]) = [].
Proof.
  apply (still_scene_identified_once
           {| system := SecuritySystem.init;
              tracker := PersonTracker.update PersonTracker.init 100 [mkBBox 0 0 100 200] [];
              logger := ActivityLogger.with_bot |}
           PersonTracker.init 100 [mkBBox 0 0 100 200] []
           [mkInput 1%nat (640, 480)%Z true [mkBBox 10 0 110 200]
              (fun _ => [mkSighting "Unknown" (mkFaceLoc 0 10 10 0) 101%Q ActivityLogger.calm])
              101%Q 101%Q]).
  - reflexivity.
  - constructor; [|constructor]. split.
    + split; [reflexivity|]. constructor; [|constructor]. left. reflexivity.
    + simpl. discriminate.
Defined.

Lemma log_faces_rows (frame : Image) (faces : list Sighting) :
  forall logger : ActivityLogger.t,
    (length (ActivityLogger.rows (snd (log_faces logger frame faces))) <= length faces)%nat.
Proof.
  induction faces as [|s rest IH]; intros lg; [simpl; lia|].
  cbn [log_faces].
  destruct (log_detection_cases lg (s_at s) (s_name s) frame (s_env s))
    as [[_ Heq]|[(_ & Hname & Hraise & Heq)|(_ & Hok & tr0 & Heq & Hrows & _)]];
    rewrite Heq.
  - specialize (IH lg). destruct (log_faces lg frame rest) as [[o lg'] tr']. simpl in *. lia.
  - simpl. lia.
  - specialize (IH (ActivityLogger.set_last_seen lg (s_name s) (s_at s))).
    destruct (log_faces _ frame rest) as [[o lg'] tr']. simpl in *.
    rewrite rows_app, length_app, Hrows. simpl. lia.
Qed.

(** The first ["Unknown"] of a frame whose snapshot cannot be saved ends
    the logging of that frame with its exception. *)
Lemma log_faces_snapshot_fails (frame : Image) (s : Sighting) (after : list Sighting)
    (before : list Sighting) :
  forall logger : ActivityLogger.t,
    Forall (fun x => s_name x <> "Unknown") before ->
    s_name s = "Unknown" ->
    ActivityLogger.save_raises (s_env s) = true ->
    ActivityLogger._should_log logger (s_at s) "Unknown" = true ->
    fst (fst (log_faces logger frame (before ++ s :: after))) = Raised.
Proof.
  induction before as [|x before IH]; intros lg Hknown Hname Hraise Hgate.
  - cbn [app log_faces].
    destruct (log_detection_cases lg (s_at s) (s_name s) frame (s_env s))
      as [[Hno _]|[(_ & _ & _ & Heq)|(_ & Hok & _)]].
    + rewrite Hname in Hno. congruence.
    + rewrite Heq. reflexivity.
    + specialize (Hok Hname). congruence.
  - apply Forall_cons in Hknown. destruct Hknown as [Hx Hknown].
    cbn [app log_faces].
    destruct (log_detection_cases lg (s_at x) (s_name x) frame (s_env x))
      as [[_ Heq]|[(_ & Hnamex & _)|(_ & _ & tr0 & Heq & _)]]; [|contradiction|].
    + rewrite Heq. specialize (IH lg Hknown Hname Hraise Hgate).
      destruct (log_faces lg frame (before ++ s :: after)) as [[o lg'] tr']. exact IH.
    + rewrite Heq.
      assert (Hgate' : ActivityLogger._should_log
                         (ActivityLogger.set_last_seen lg (s_name x) (s_at x))
                         (s_at s) "Unknown" = true).
      { rewrite should_log_other_name by exact Hx. exact Hgate. }
      specialize (IH _ Hknown Hname Hraise Hgate').
      destruct (log_faces _ frame (before ++ s :: after)) as [[o lg'] tr']. exact IH.
Qed.



Lemma record_frame_recorder (sys : SecuritySystem.t) (frame : Image) (size : Z * Z) :
  SecuritySystem.recorder (SecuritySystem.record_frame sys frame size) =
  VideoRecorder.write_frame (SecuritySystem.recorder sys) frame.
Proof.
  unfold SecuritySystem.record_frame, VideoRecorder.is_recording, VideoRecorder.write_frame.
  simpl. destruct (VideoRecorder.recording (SecuritySystem.recorder sys)); reflexivity.
Qed.

Lemma process_interval_positive (process_rate : Q) : (1 <= process_interval process_rate)%Z.
Proof. unfold process_interval. lia. Qed.

(** One more frame adds one multiple of the interval, or none. *)
Lemma div_step (n c : Z) :
  (1 <= n)%Z ->
  ((c + 1) / n - c / n = if ((c + 1) mod n =? 0) then 1 else 0)%Z.
Proof.
  intros Hn.
  pose proof (Z.div_mod (c + 1) n ltac:(lia)) as H1.
  pose proof (Z.div_mod c n ltac:(lia)) as H0.
  pose proof (Z.mod_pos_bound (c + 1) n ltac:(lia)) as B1.
  pose proof (Z.mod_pos_bound c n ltac:(lia)) as B0.
  destruct ((c + 1) mod n =? 0)%Z eqn:Hz.
  - apply Z.eqb_eq in Hz. nia.
  - apply Z.eqb_neq in Hz. nia.
Qed.

(** X26.  The capture loop records every frame and processes every N-th.
    When the loop runs through the frames without an exception, the
    recorder has been handed every one of them in order, whether the
    system was paused, the frame dark or the frame skipped by the
    processing rate; the last frame is the one kept for [/snap]; and the
    frames counted as processed are those whose number in the loop is a
    multiple of the interval. *)
Theorem capture_loop_records_all (n : Z) (inputs : list Input) :
  (1 <= n)%Z ->
  forall (c : Z) (self : t),
    let r := capture_loop n c self inputs in
    fst (fst r) = Returned ->
    SecuritySystem.recorder (system (snd (fst r))) =
      VideoRecorder.write_frames (SecuritySystem.recorder (system self))
        (map i_frame inputs) /\
    (inputs <> [] ->
     SecuritySystem.latest_frame (system (snd (fst r))) = last (map i_frame inputs)) /\
    SecuritySystem.paused (system (snd (fst r))) = SecuritySystem.paused (system self) /\
    SecuritySystem.frames_processed (system (snd (fst r))) =
      (SecuritySystem.frames_processed (system self) +
       ((c + Z.of_nat (length inputs)) / n - c / n))%Z.
Proof.
  intros Hn. induction inputs as [|inp rest IH]; intros c self; cbv zeta.
  - simpl. intros _. split; [reflexivity|]. split; [congruence|]. split; [reflexivity|].
    rewrite Z.add_0_r. lia.
  - cbn [capture_loop].
    set (self0 := {| system := SecuritySystem.record_frame (system self) (i_frame inp)
                                 (i_size inp);
                     tracker := tracker self; logger := logger self |}).
    pose proof (div_step n c Hn) as Hdiv.
    assert (Hgoal : forall self1 : t,
              SecuritySystem.recorder (system self1) =
                VideoRecorder.write_frame (SecuritySystem.recorder (system self)) (i_frame inp) ->
              SecuritySystem.latest_frame (system self1) = Some (i_frame inp) ->
              SecuritySystem.paused (system self1) = SecuritySystem.paused (system self) ->
              forall r1, r1 = capture_loop n (c + 1) self1 rest ->
              fst (fst r1) = Returned ->
              SecuritySystem.recorder (system (snd (fst r1))) =
                VideoRecorder.write_frames (SecuritySystem.recorder (system self))
                  (map i_frame (inp :: rest)) /\
              (inp :: rest <> [] ->
               SecuritySystem.latest_frame (system (snd (fst r1))) =
                 last (map i_frame (inp :: rest))) /\
              SecuritySystem.paused (system (snd (fst r1))) =
                SecuritySystem.paused (system self) /\
              SecuritySystem.frames_processed (system (snd (fst r1))) =
                (SecuritySystem.frames_processed (system self1) +
                 ((c + 1 + Z.of_nat (length rest)) / n - (c + 1) / n))%Z).
    { intros self1 Hrec Hlatest Hpaused r1 -> Hret.
      destruct (IH (c + 1)%Z self1 Hret) as (Hr & Hl & Hp & Hf).
      split; [|split; [|split]].
      - rewrite Hr, Hrec. reflexivity.
      - intros _. destruct rest as [|inp' rest'].
        + simpl. exact Hlatest.
        + rewrite Hl by discriminate. reflexivity.
      - congruence.
      - exact Hf. }
    replace (c + Z.of_nat (length (inp :: rest)))%Z
      with (c + 1 + Z.of_nat (length rest))%Z by (simpl length; lia).
    destruct ((c + 1) mod n =? 0)%Z.
    + pose proof (process_frame_counters self0 inp) as Hstep. cbv zeta in Hstep.
      assert (Hlatest : SecuritySystem.latest_frame
                          (system (snd (fst (process_frame self0 inp)))) =
                        Some (i_frame inp)).
      { unfold process_frame. cbv zeta.
        destruct (SecuritySystem.paused _); [reflexivity|].
        destruct (negb (i_bright inp)); [reflexivity|].
        destruct (PersonTracker.needs_face_check _ _ _); [|reflexivity].
        destruct (log_faces _ _ _) as [[[] lg] tr0]; reflexivity. }
      destruct (process_frame self0 inp) as [[o self1] tr]. simpl in Hstep, Hlatest.
      destruct Hstep as (Hframes & _ & Hpaused & Hrecorder).
      destruct o; [|simpl; discriminate].
      intros Hret.
      destruct (Hgoal self1) with (r1 := capture_loop n (c + 1) self1 rest)
        as (Hr & Hl & Hp & Hf).
      * rewrite Hrecorder. apply (record_frame_recorder (system self) (i_frame inp) (i_size inp)).
      * exact Hlatest.
      * rewrite Hpaused. reflexivity.
      * reflexivity.
      * destruct (capture_loop n (c + 1) self1 rest) as [[o' s'] tr']. exact Hret.
      * destruct (capture_loop n (c + 1) self1 rest) as [[o' s'] tr']. simpl in *.
        split; [exact Hr|]. split; [exact Hl|]. split; [exact Hp|].
        rewrite Hf, Hframes. simpl. lia.
    + intros Hret.
      destruct (Hgoal self0) with (r1 := capture_loop n (c + 1) self0 rest)
        as (Hr & Hl & Hp & Hf); try reflexivity; try exact Hret.
      * apply (record_frame_recorder (system self) (i_frame inp) (i_size inp)).
      * split; [exact Hr|]. split; [exact Hl|]. split; [exact Hp|].
        rewrite Hf. simpl. lia.
Qed.

Lemma capture_loop_records_all_witness :
  SecuritySystem.frames_processed
    (system (snd (fst (capture_loop (process_interval (1 # 2)) 0
       {| system := SecuritySystem._on_stop SecuritySystem.init;
          tracker := PersonTracker.init;
          logger := ActivityLogger.with_bot |}
       [mkInput 1%nat (640, 480)%Z true [] (fun _ => []) 10%Q 10%Q;
        mkInput 2%nat (640, 480)%Z true [] (fun _ => []) 11%Q 11%Q;
        mkInput 3%nat (640, 480)%Z true [] (fun _ => []) 12%Q 12%Q])))) =
  (0 + ((0 + Z.of_nat 3) / process_interval (1 # 2) - 0 / process_interval (1 # 2)))%Z.
Proof.
  apply (capture_loop_records_all (process_interval (1 # 2))
           [mkInput 1%nat (640, 480)%Z true [] (fun _ => []) 10%Q 10%Q;
            mkInput 2%nat (640, 480)%Z true [] (fun _ => []) 11%Q 11%Q;
            mkInput 3%nat (640, 480)%Z true [] (fun _ => []) 12%Q 12%Q]
           (process_interval_positive (1 # 2)) 0%Z
           {| system := SecuritySystem._on_stop SecuritySystem.init;
              tracker := PersonTracker.init;
              logger := ActivityLogger.with_bot |}).
  reflexivity.
Defined.

End PipelineFacts.

(** ** The wired system over batches and sessions *)

Section SystemMore.
Import TelegramBot.

Ltac cases_of_handler :=
  repeat match goal with
         | |- context [match ?x with _ => _ end] => destruct x eqn:?
         end.

Lemma on_record_start_paused (now : Time) (sys : SecuritySystem.t) :
  SecuritySystem.paused (snd (SecuritySystem._on_record_start now sys)) =
  SecuritySystem.paused sys.
Proof.
  unfold SecuritySystem._on_record_start.
  destruct (VideoRecorder.is_recording (SecuritySystem.recorder sys)); [reflexivity|].
  destruct (SecuritySystem.frame_size sys) as [size|]; [|reflexivity].
  destruct (VideoRecorder.start (SecuritySystem.recorder sys) now size) as [[o r] tr].
  reflexivity.
Qed.

Lemma on_record_stop_paused (now : Time) (sys : SecuritySystem.t) :
  SecuritySystem.paused (snd (SecuritySystem._on_record_stop now sys)) =
  SecuritySystem.paused sys.
Proof.
  unfold SecuritySystem._on_record_stop.
  destruct (VideoRecorder.stop (SecuritySystem.recorder sys)) as [[o r] tr]. reflexivity.
Qed.

Lemma on_snap_paused (now : Time) (sys : SecuritySystem.t) :
  SecuritySystem.paused (snd (SecuritySystem._on_snap now sys)) =
  SecuritySystem.paused sys.
Proof.
  unfold SecuritySystem._on_snap.
  destruct (SecuritySystem.latest_frame sys); reflexivity.
Qed.

Lemma handle_command_flags (known : nat) (recs : list (string * Q))
    (bot : t) (sys : SecuritySystem.t) (env : Env) (text : string) :
  SecuritySystem.flags_agree bot sys ->
  SecuritySystem.flags_agree
    (snd (fst (fst (_handle_command (SecuritySystem.callbacks known recs) bot sys env text))))
    (snd (fst (_handle_command (SecuritySystem.callbacks known recs) bot sys env text))).
Proof.
  unfold SecuritySystem.flags_agree. intros Hinv.
  pose proof (on_record_start_paused (now env) sys) as Hstart.
  pose proof (on_record_stop_paused (now env) sys) as Hstop.
  pose proof (on_snap_paused (now env) sys) as Hsnap.
  unfold _handle_command. cbv zeta.
  cbn [SecuritySystem.callbacks on_start on_stop on_add_face on_record_start
       on_record_stop on_record_continue on_snap get_status get_recordings].
  cases_of_handler; cbn [fst snd];
    try exact Hinv; try reflexivity;
    repeat match goal with
           | E : SecuritySystem._on_record_start _ _ = _ |- _ => rewrite E in Hstart
           | E : SecuritySystem._on_record_stop _ _ = _ |- _ => rewrite E in Hstop
           | E : SecuritySystem._on_snap _ _ = _ |- _ => rewrite E in Hsnap
           end;
    cbn [snd] in *; congruence.
Qed.

Lemma handle_add_photo_flags (known : nat) (recs : list (string * Q))
    (bot : t) (sys : SecuritySystem.t) (env : Env) (photos : list PhotoSize) :
  SecuritySystem.flags_agree bot sys ->
  SecuritySystem.flags_agree
    (snd (fst (fst (_handle_add_photo (SecuritySystem.callbacks known recs) bot sys env photos))))
    (snd (fst (_handle_add_photo (SecuritySystem.callbacks known recs) bot sys env photos))).
Proof.
  unfold SecuritySystem.flags_agree. intros Hinv.
  unfold _handle_add_photo. cbv zeta.
  cbn [SecuritySystem.callbacks on_add_face].
  cases_of_handler; cbn [fst snd]; exact Hinv.
Qed.

Lemma handle_update_flags (known : nat) (recs : list (string * Q))
    (bot : t) (sys : SecuritySystem.t) (env : Env) (update : Update) :
  SecuritySystem.flags_agree bot sys ->
  SecuritySystem.flags_agree
    (snd (fst (fst (_handle_update (SecuritySystem.callbacks known recs) bot sys env update))))
    (snd (fst (_handle_update (SecuritySystem.callbacks known recs) bot sys env update))).
Proof.
  intros Hinv.
  pose proof (handle_command_flags known recs bot sys env) as Hcmd.
  pose proof (fun b => handle_add_photo_flags known recs b sys env (photo (message update)))
    as Hadd.
  unfold _handle_update. cbv zeta.
  destruct (negb (String.eqb (chat (message update)) (chat_id bot))); [exact Hinv|].
  destruct (has_photo (photo (message update)) &&
            PyStr.startswith (PyStr.strip (caption (message update))) "/add ").
  - destruct (inline_name (PyStr.strip (caption (message update)))) as [name|];
      [|exact Hinv].
    destruct (PyStr.truthy name); [apply Hadd, Hinv|].
    destruct (has_photo (photo (message update)) && pending_truthy bot);
      [apply Hadd, Hinv|].
    destruct (PyStr.startswith (PyStr.strip (text (message update))) "/");
      [apply Hcmd, Hinv|].
    destruct (PyStr.startswith (PyStr.strip (caption (message update))) "/");
      [apply Hcmd, Hinv|exact Hinv].
  - destruct (has_photo (photo (message update)) && pending_truthy bot);
      [apply Hadd, Hinv|].
    destruct (PyStr.startswith (PyStr.strip (text (message update))) "/");
      [apply Hcmd, Hinv|].
    destruct (PyStr.startswith (PyStr.strip (caption (message update))) "/");
      [apply Hcmd, Hinv|exact Hinv].
Qed.

(** X27.  The bot and the system never disagree on whether surveillance runs.
    [surveillance_active] of the bot and [paused] of the system start
    out as opposites, and every update the polling loop handles with the
    callbacks of [SecuritySystem] leaves them opposites, however the
    handlers end; so [is_active] says what the last [/start] or [/stop]
    said, and [process_frame], which reads [paused] alone, works exactly
    when [is_active] holds. *)
Theorem pause_flags_agree (known : nat) (recs : list (string * Q))
    (batch : list (Update * Env)) :
  SecuritySystem.flags_agree init SecuritySystem.init /\
  forall (bot : t) (sys : SecuritySystem.t),
    SecuritySystem.flags_agree bot sys ->
    let r := poll_batch (SecuritySystem.callbacks known recs) bot sys batch in
    SecuritySystem.flags_agree (fst (fst r)) (snd (fst r)) /\
    SecuritySystem.is_active (fst (fst r)) (snd (fst r)) =
      surveillance_active (fst (fst r)) /\
    SecuritySystem.is_active (fst (fst r)) (snd (fst r)) =
      negb (SecuritySystem.paused (snd (fst r))).
Proof.
  split; [reflexivity|].
  assert (Hactive : forall b s, SecuritySystem.flags_agree b s ->
            SecuritySystem.flags_agree b s /\
            SecuritySystem.is_active b s = surveillance_active b /\
            SecuritySystem.is_active b s = negb (SecuritySystem.paused s)).
  { intros b s Hb. split; [exact Hb|]. unfold SecuritySystem.is_active.
    unfold SecuritySystem.flags_agree in Hb. rewrite Hb.
    destruct (SecuritySystem.paused s); split; reflexivity. }
  induction batch as [|[update env] rest IH]; intros bot sys Hinv; cbv zeta.
  - simpl. apply Hactive, Hinv.
  - cbn [poll_batch].
    pose proof (handle_update_flags known recs bot sys env update Hinv) as Hstep.
    destruct (_handle_update (SecuritySystem.callbacks known recs) bot sys env update)
      as [[[out bot1] sys1] tr]. simpl in Hstep. destruct out.
    + specialize (IH (set_last_update_id bot1 (update_id update + 1)) sys1 Hstep).
      cbv zeta in IH.
      destruct (poll_batch (SecuritySystem.callbacks known recs)
                  (set_last_update_id bot1 (update_id update + 1)) sys1 rest)
        as [[bot2 sys2] tr']. exact IH.
    + simpl. apply Hactive, Hstep.
Qed.

Lemma pause_flags_agree_witness :
  SecuritySystem.is_active
    (fst (fst (poll_batch SecuritySystem.cbs init SecuritySystem.init
                 [(text_update 1 "/stop", calm 5)])))
    (snd (fst (poll_batch SecuritySystem.cbs init SecuritySystem.init
                 [(text_update 1 "/stop", calm 5)]))) =
  surveillance_active
    (fst (fst (poll_batch SecuritySystem.cbs init SecuritySystem.init
                 [(text_update 1 "/stop", calm 5)]))).
Proof.
  apply (proj2 (pause_flags_agree 0 [] [(text_update 1 "/stop", calm 5)])
           init SecuritySystem.init).
  reflexivity.
Defined.

(** X28.  [/record] needs a frame first.  Until the capture loop has handed
    over one frame the system knows no frame size: [/record] then
    starts nothing and leaves the system as it is, and the bot answers
    that a recording is already active although none is.  After the
    first frame the same command opens a session on a file named by the
    second of the request and answers with that name. *)
Theorem record_before_first_frame (known : nat) (recs : list (string * Q))
    (bot : t) (sys : SecuritySystem.t) (env : Env) (frame : Image) (size : Z * Z) :
  SecuritySystem.frame_size sys = None ->
  VideoRecorder.recording (SecuritySystem.recorder sys) = false ->
  let file := RecordingFile (VideoRecorder.output_dir (SecuritySystem.recorder sys))
                            (stamp_of (now env)) in
  let sys1 := SecuritySystem.record_frame sys frame size in
  _handle_command (SecuritySystem.callbacks known recs) bot sys env "/record" =
    (Returned, bot, sys, [Dispatch OnRecordStart] ++ say bot env MsgAlreadyRecording) /\
  SecuritySystem.frame_size sys1 = Some size /\
  fst (fst (fst (_handle_command (SecuritySystem.callbacks known recs) bot sys1 env "/record")))
    = Returned /\
  snd (_handle_command (SecuritySystem.callbacks known recs) bot sys1 env "/record") =
    [Dispatch OnRecordStart] ++ say bot env (MsgRecordingStarted file) /\
  VideoRecorder.current_file
    (SecuritySystem.recorder
       (snd (fst (_handle_command (SecuritySystem.callbacks known recs) bot sys1 env
                    "/record")))) = Some file.
Proof.
  intros Hsize Hidle file sys1.
  assert (Hcmd : forall s : SecuritySystem.t,
            _handle_command (SecuritySystem.callbacks known recs) bot s env "/record" =
            match SecuritySystem._on_record_start (now env) s with
            | (Some result, s') =>
                (Returned, bot, s',
                 [Dispatch OnRecordStart] ++ say bot env (MsgRecordingStarted result))
            | (None, s') =>
                (Returned, bot, s',
                 [Dispatch OnRecordStart] ++ say bot env MsgAlreadyRecording)
            end) by (intros s0; reflexivity).
  rewrite !Hcmd. split; [|split].
  - unfold SecuritySystem._on_record_start, VideoRecorder.is_recording.
    rewrite Hidle, Hsize. reflexivity.
  - subst sys1. unfold SecuritySystem.record_frame. simpl. rewrite Hsize. reflexivity.
  - subst sys1.
    unfold SecuritySystem._on_record_start, SecuritySystem.record_frame,
      VideoRecorder.is_recording, VideoRecorder.start.
    cbn [SecuritySystem.recorder SecuritySystem.frame_size].
    rewrite Hidle, Hsize. cbn. rewrite Hidle. cbn. repeat split.
Qed.

Lemma record_before_first_frame_witness :
  _handle_command SecuritySystem.cbs init SecuritySystem.init (calm 100) "/record" =
    (Returned, init, SecuritySystem.init,
     [Dispatch OnRecordStart] ++ say init (calm 100) MsgAlreadyRecording).
Proof.
  apply (record_before_first_frame 0 [] init SecuritySystem.init (calm 100) 1%nat
           (640, 480)%Z); reflexivity.
Defined.

Lemma record_frames_recorder (frames : list Image) (size : Z * Z) :
  forall sys : SecuritySystem.t,
    SecuritySystem.recorder (SecuritySystem.record_frames sys frames size) =
      VideoRecorder.write_frames (SecuritySystem.recorder sys) frames /\
    SecuritySystem.effects (SecuritySystem.record_frames sys frames size) =
      SecuritySystem.effects sys /\
    SecuritySystem.paused (SecuritySystem.record_frames sys frames size) =
      SecuritySystem.paused sys /\
    (forall z, SecuritySystem.frame_size sys = Some z ->
       SecuritySystem.frame_size (SecuritySystem.record_frames sys frames size) = Some z).
Proof.
  induction frames as [|f rest IH]; intros sys; [repeat split; auto|].
  unfold SecuritySystem.record_frames, VideoRecorder.write_frames in *. cbn [fold_left].
  destruct (IH (SecuritySystem.record_frame sys f size)) as (Hr & He & Hp & Hs).
  rewrite Hr, He, Hp, record_frame_recorder. repeat split.
  intros z Hz. apply Hs. unfold SecuritySystem.record_frame. simpl. rewrite Hz. reflexivity.
Qed.

(** X29.  A recording holds every frame of the capture loop between
    [/record] and [/stoprecord].  On a system that has seen a frame and
    records nothing, [/record] opens a file and answers with its name;
    every frame the loop then hands to [record_frame], processed or
    not, goes to that file in order; [/stoprecord] answers with the same
    name and releases a writer that holds exactly those frames at the
    size of the first frame the system ever saw. *)
Theorem recording_captures_every_frame (known : nat) (recs : list (string * Q))
    (bot : t) (sys : SecuritySystem.t) (env1 env2 : Env)
    (frames : list Image) (size0 size : Z * Z) :
  SecuritySystem.frame_size sys = Some size0 ->
  VideoRecorder.recording (SecuritySystem.recorder sys) = false ->
  let file := RecordingFile (VideoRecorder.output_dir (SecuritySystem.recorder sys))
                            (stamp_of (now env1)) in
  let r1 := _handle_command (SecuritySystem.callbacks known recs) bot sys env1 "/record" in
  let sys2 := SecuritySystem.record_frames (snd (fst r1)) frames size in
  let r2 := _handle_command (SecuritySystem.callbacks known recs) bot sys2 env2
              "/stoprecord" in
  snd r1 = [Dispatch OnRecordStart] ++ say bot env1 (MsgRecordingStarted file) /\
  VideoRecorder.frame_count (SecuritySystem.recorder sys2) = Z.of_nat (length frames) /\
  snd r2 = [Dispatch OnRecordStop] ++ say bot env2 (MsgRecordingStopped file) /\
  SecuritySystem.effects (snd (fst r2)) =
    SecuritySystem.effects sys ++
    [SecuritySystem.Recorder VideoRecorder.ThreadStarted;
     SecuritySystem.Recorder (VideoRecorder.Released (VideoRecorder.mkWriter file size0 frames))] /\
  VideoRecorder.is_recording (SecuritySystem.recorder (snd (fst r2))) = false.
Proof.
  intros Hsize Hidle file r1 sys2 r2.
  assert (Hcmd1 : r1 =
            match SecuritySystem._on_record_start (now env1) sys with
            | (Some result, s') =>
                (Returned, bot, s',
                 [Dispatch OnRecordStart] ++ say bot env1 (MsgRecordingStarted result))
            | (None, s') =>
                (Returned, bot, s',
                 [Dispatch OnRecordStart] ++ say bot env1 MsgAlreadyRecording)
            end) by reflexivity.
  assert (Hcmd2 : r2 =
            match SecuritySystem._on_record_stop (now env2) sys2 with
            | (Some result, s') =>
                (Returned, bot, s',
                 [Dispatch OnRecordStop] ++ say bot env2 (MsgRecordingStopped result))
            | (None, s') =>
                (Returned, bot, s',
                 [Dispatch OnRecordStop] ++ say bot env2 MsgNotRecordingWarning)
            end) by reflexivity.
  set (started := snd (fst (VideoRecorder.start (SecuritySystem.recorder sys)
                              (now env1) size0))).
  assert (Hstart : SecuritySystem._on_record_start (now env1) sys =
            (Some file,
             SecuritySystem.set_recorder sys started [VideoRecorder.ThreadStarted])).
  { unfold SecuritySystem._on_record_start, VideoRecorder.is_recording, started,
      VideoRecorder.start.
    rewrite Hidle, Hsize. reflexivity. }
  rewrite Hstart in Hcmd1.
  assert (Hsys1 : snd (fst r1) =
            SecuritySystem.set_recorder sys started [VideoRecorder.ThreadStarted])
    by (rewrite Hcmd1; reflexivity).
  destruct (record_frames_recorder frames size (snd (fst r1))) as (Hrec & Heff & _ & _).
  fold sys2 in Hrec, Heff. rewrite Hsys1 in Hrec, Heff. simpl in Hrec, Heff.
  destruct (write_frames_started (SecuritySystem.recorder sys) (now env1) size0 frames Hidle)
    as (Hrecording & Hwriter & Hfile & Hcount).
  fold started in Hrecording, Hwriter, Hfile, Hcount. fold file in Hwriter, Hfile.
  rewrite <- Hrec in Hrecording, Hwriter, Hfile, Hcount.
  assert (Hstop : SecuritySystem._on_record_stop (now env2) sys2 =
            (Some file,
             SecuritySystem.set_recorder sys2
               (snd (fst (VideoRecorder.stop (SecuritySystem.recorder sys2))))
               [VideoRecorder.Released (VideoRecorder.mkWriter file size0 frames)])).
  { unfold SecuritySystem._on_record_stop, VideoRecorder.stop.
    rewrite Hrecording, Hwriter, Hfile. reflexivity. }
  rewrite Hstop in Hcmd2.
  split; [rewrite Hcmd1; reflexivity|].
  split; [exact Hcount|].
  split; [rewrite Hcmd2; reflexivity|].
  rewrite Hcmd2. cbn [fst snd]. split.
  - unfold SecuritySystem.set_recorder at 1. cbn [SecuritySystem.effects].
    rewrite Heff. rewrite <- app_assoc. reflexivity.
  - unfold VideoRecorder.stop. rewrite Hrecording. reflexivity.
Qed.

Lemma recording_captures_every_frame_witness :
  SecuritySystem.effects
    (snd (fst (_handle_command SecuritySystem.cbs init
       (SecuritySystem.record_frames
          (snd (fst (_handle_command SecuritySystem.cbs init
             (SecuritySystem.record_frame SecuritySystem.init 1%nat (640, 480)%Z)
             (calm 100) "/record")))
          [2%nat; 3%nat] (640, 480)%Z)
       (calm 130) "/stoprecord"))) =
  [SecuritySystem.Recorder VideoRecorder.ThreadStarted;
   SecuritySystem.Recorder
     (VideoRecorder.Released
        (VideoRecorder.mkWriter (RecordingFile "recordings" 100) (640, 480)%Z
           [2%nat; 3%nat]))].
Proof.
  apply (recording_captures_every_frame 0 [] init
           (SecuritySystem.record_frame SecuritySystem.init 1%nat (640, 480)%Z)
           (calm 100) (calm 130) [2%nat; 3%nat] (640, 480)%Z (640, 480)%Z);
    reflexivity.
Defined.

(** [/snap] on a system that holds a frame: one request, a photo. *)
Lemma command_answered_once_witness :
  fst (fst (fst (_handle_command SecuritySystem.cbs init
                   (SecuritySystem.record_frame SecuritySystem.init 1%nat (640, 480)%Z)
                   (calm 100) "/snap"))) = Returned /\
  length (wires (snd (_handle_command SecuritySystem.cbs init
                        (SecuritySystem.record_frame SecuritySystem.init 1%nat (640, 480)%Z)
                        (calm 100) "/snap"))) = 1%nat.
Proof.
  apply (command_answered_once SecuritySystem.cbs init
           (SecuritySystem.record_frame SecuritySystem.init 1%nat (640, 480)%Z)
           (calm 100) "/snap").
  reflexivity.
Defined.

(** Two commands from other chats. *)
Lemma poll_batch_unauthorized_witness :
  poll_batch SecuritySystem.cbs init SecuritySystem.init
    [(mkUpdate 7 (mkMsg "999" "/stop" "" []), calm 5);
     (mkUpdate 8 (mkMsg "42" "/record" "" []), calm 6)] =
  (set_last_update_id init 9, SecuritySystem.init, []).
Proof.
  apply (poll_batch_unauthorized SecuritySystem.cbs
           [(mkUpdate 7 (mkMsg "999" "/stop" "" []), calm 5);
            (mkUpdate 8 (mkMsg "42" "/record" "" []), calm 6)]
           init SecuritySystem.init).
  constructor; [discriminate|]. constructor; [discriminate|constructor].
Defined.

(** [/status] leaves a paused bot paused and a pending name pending. *)
Lemma command_changes_one_flag_witness :
  surveillance_active
    (snd (fst (fst (_handle_command SecuritySystem.cbs
                      (set_pending_add_name (set_surveillance_active init false) (Some "Bob"))
                      SecuritySystem.init (calm 5) "/status")))) = false /\
  pending_add_name
    (snd (fst (fst (_handle_command SecuritySystem.cbs
                      (set_pending_add_name (set_surveillance_active init false) (Some "Bob"))
                      SecuritySystem.init (calm 5) "/status")))) = Some "Bob".
Proof.
  destruct (command_changes_one_flag SecuritySystem.cbs
              (set_pending_add_name (set_surveillance_active init false) (Some "Bob"))
              SecuritySystem.init (calm 5) "/status" "/status" [] eq_refl)
    as (_ & _ & Hactive & Hpending & _).
  split; [apply Hactive; discriminate|apply Hpending; discriminate].
Defined.

(** [/STOP@HostelBot] is [/stop]. *)
Lemma command_word_normalised_witness :
  _handle_command SecuritySystem.cbs init SecuritySystem.init (calm 5) "/STOP@HostelBot" =
  _handle_command SecuritySystem.cbs init SecuritySystem.init (calm 5) "/stop".
Proof.
  apply (command_word_normalised SecuritySystem.cbs init SecuritySystem.init (calm 5)
           "/STOP" "HostelBot").
  - discriminate.
  - repeat (constructor; [split; reflexivity|]). constructor.
  - repeat (constructor; [reflexivity|]). constructor.
Defined.

Lemma record_frames_latest (frames : list Image) (size : Z * Z) :
  forall sys : SecuritySystem.t,
    SecuritySystem.latest_frame (SecuritySystem.record_frames sys frames size) =
    match last frames with
    | Some frame => Some frame
    | None => SecuritySystem.latest_frame sys
    end.
Proof.
  induction frames as [|f rest IH]; intros sys; [reflexivity|].
  unfold SecuritySystem.record_frames in *. cbn [fold_left]. rewrite IH.
  destruct rest as [|f' rest']; [reflexivity|].
  change (last (f :: f' :: rest')) with (last (f' :: rest')).
  destruct (last (f' :: rest')) eqn:Hlast; [reflexivity|].
  apply last_None in Hlast. discriminate Hlast.
Qed.

(** X30.  [/snap] shows the frame the camera delivered last.  Before any frame
    the bot answers that none is available and nothing is written.  Once
    the capture loop has handed frames to [record_frame], the command
    writes the last of them, and no other, to a file named by the second
    of the request, and makes one request: the photo when the file is
    there, the caption alone as a text otherwise. *)
Theorem snap_sends_latest_frame (known : nat) (recs : list (string * Q))
    (bot : t) (sys : SecuritySystem.t) (env : Env)
    (frames : list Image) (frame : Image) (size : Z * Z) :
  (SecuritySystem.latest_frame sys = None ->
     _handle_command (SecuritySystem.callbacks known recs) bot sys env "/snap" =
       (Returned, bot, sys, [Dispatch OnSnap] ++ say bot env MsgNoFrame)) /\
  (enabled bot = true ->
   let sys1 := SecuritySystem.record_frames sys (frames ++ [frame]) size in
   let r := _handle_command (SecuritySystem.callbacks known recs) bot sys1 env "/snap" in
   SecuritySystem.effects (snd (fst r)) =
     SecuritySystem.effects sys ++
     [SecuritySystem.SnapWritten (SnapFile (stamp_of (now env))) frame] /\
   snd r =
     [Dispatch OnSnap;
      Wire (if image_exists env
            then TelegramNotifier.SendPhoto MsgCurrentFrame (SnapFile (stamp_of (now env)))
            else TelegramNotifier.SendMessage MsgCurrentFrame)]).
Proof.
  assert (Hcmd : forall s : SecuritySystem.t,
            _handle_command (SecuritySystem.callbacks known recs) bot s env "/snap" =
            match SecuritySystem._on_snap (now env) s with
            | (Some result, s') =>
                (Returned, bot, s',
                 [Dispatch OnSnap] ++
                 map Wire (snd (TelegramNotifier.send_alert (enabled bot) MsgCurrentFrame
                                  (Some result) (image_exists env) (post env))))
            | (None, s') =>
                (Returned, bot, s', [Dispatch OnSnap] ++ say bot env MsgNoFrame)
            end) by (intros s0; reflexivity).
  split.
  - intros Hnone. rewrite Hcmd. unfold SecuritySystem._on_snap. rewrite Hnone. reflexivity.
  - intros Hen sys1 r. subst r. rewrite Hcmd.
    pose proof (record_frames_latest (frames ++ [frame]) size sys) as Hlatest.
    rewrite last_snoc in Hlatest. fold sys1 in Hlatest.
    destruct (record_frames_recorder (frames ++ [frame]) size sys) as (_ & Heff & _ & _).
    fold sys1 in Heff.
    unfold SecuritySystem._on_snap. rewrite Hlatest. cbn [fst snd SecuritySystem.effects].
    rewrite Heff, Hen. split; [reflexivity|].
    unfold TelegramNotifier.send_alert, TelegramNotifier._send_photo,
      TelegramNotifier.send_message.
    destruct (image_exists env), (post env); reflexivity.
Qed.

Lemma snap_sends_latest_frame_witness :
  _handle_command SecuritySystem.cbs init SecuritySystem.init (calm 100) "/snap" =
    (Returned, init, SecuritySystem.init,
     [Dispatch OnSnap] ++ say init (calm 100) MsgNoFrame) /\
  snd (_handle_command SecuritySystem.cbs init
         (SecuritySystem.record_frames SecuritySystem.init ([1%nat; 2%nat] ++ [3%nat])
            (640, 480)%Z)
         (calm 100) "/snap") =
    [Dispatch OnSnap;
     Wire (TelegramNotifier.SendPhoto MsgCurrentFrame (SnapFile 100))].
Proof.
  split.
  - apply (proj1 (snap_sends_latest_frame 0 [] init SecuritySystem.init (calm 100)
                    [] 1%nat (640, 480)%Z)). reflexivity.
  - apply (proj2 (snap_sends_latest_frame 0 [] init SecuritySystem.init (calm 100)
                    [1%nat; 2%nat] 3%nat (640, 480)%Z)). reflexivity.
Defined.

End SystemMore.
